(** * DYLLABLE wire format: the frame lexer and the packet codec

    A shallow embedding of [network/packet.go] (package [network] of
    Igorxp5/dyllable), of the library functions it calls and of the rounds
    of the discovery engine that use it ([DiscoveryService] and
    [LookForNodes]), followed by the properties of the lexer, the
    serialisers, [ParsePacket] and the engine.

    Conventions of the embedding:
    - a Go [string] is a [string] (a sequence of 8-bit characters);
    - a Go [[]byte] ([net.IP], [uuid.UUID], buffer contents) is a
      [list byte];
    - a [*bytes.Buffer] is the list of bytes not read yet; code that reads
      from it lives in the monad [M], which threads that list and can
      stop with a run-time panic;
    - a Go [(value, error)] result is a pair whose second component is an
      [option error] ([None] is [nil]). *)

From Stdlib Require Import ZArith NArith List Lia Floats.
From Stdlib Require Import Strings.String Strings.Ascii Strings.Byte.
From Stdlib Require Import DecimalString DecimalN DecimalPos.
From stdpp Require Import gmap strings.
Import ListNotations.

Local Open Scope string_scope.
Local Open Scope list_scope.
Local Open Scope Z_scope.

(** ** Bytes and strings *)

Abbreviation byte := Byte.byte.

(** [[]byte(s)] and [string(b)]. *)
Definition bytes_of_string (s : string) : list byte := list_byte_of_string s.
Definition string_of_bytes (b : list byte) : string := string_of_list_byte b.

(** [byte(z)]: conversion of an integer to [byte], wrapping modulo 256. *)
Definition byte_of_Z (z : Z) : byte :=
  match Byte.of_N (Z.to_N (z mod 256)) with
  | Some b => b
  | None => x00
  end.

Definition Z_of_byte (b : byte) : Z := Z.of_N (Byte.to_N b).

(** [bytes.Equal]. *)
Fixpoint bytes_Equal (a b : list byte) : bool :=
  match a, b with
  | [], [] => true
  | x :: a', y :: b' => Byte.eqb x y && bytes_Equal a' b'
  | _, _ => false
  end.

Definition CR : ascii := "013"%char.
Definition LF : ascii := "010"%char.

(** The constants of [packet.go]. *)
Definition preffix : string := "DYLLABLE-".
Definition actionPreffix : string := preffix +:+ "ACTION-".
Definition discoveryIdentifier : string := preffix +:+ "DISCOVERY".
Definition headerSeparator : string := String CR (String LF EmptyString).
Definition endPacket : string := String CR (String LF EmptyString).
Definition requestDiscoveryType : string := "DISCOVERY".
Definition responseDiscoveryType : string := "RUNNING-APP".
Definition requestActionIdentifier : string := actionPreffix +:+ "REQUEST".
Definition responseActionIdentifier : string := actionPreffix +:+ "RESPONSE".

(** ** Errors *)

Inductive strconv_Err := ErrSyntax | ErrRange.

(** The [error] values that can reach a caller of this package. *)
Inductive error :=
| io_EOF
| errors_New (msg : string)
| strconv_NumError (func num : string) (err : strconv_Err)
| net_AddrError (Err Addr : string)
| uuid_invalidLengthError (len : nat)
| uuid_invalidUrnPrefix (prefix : string)
| json_Error (msg : string)
| net_OpError (Op : string) (Err : error).

(** ** The buffer monad *)

(** A computation over a [*bytes.Buffer]: from the unread bytes to a result
    and the bytes left, or [None] when the Go code panics (index out of
    range) or when a loop of the embedding runs out of fuel;
    [ParsePacket_total] shows that neither happens. *)
Definition M (A : Type) : Type := list byte -> option (A * list byte).

Definition ret {A} (a : A) : M A := fun buf => Some (a, buf).

Definition bind {A B} (m : M A) (k : A -> M B) : M B :=
  fun buf =>
    match m buf with
    | Some (a, buf') => k a buf'
    | None => None
    end.

Definition panic {A} : M A := fun _ => None.

Notation "'let*' x ':=' m 'in' k" := (bind m (fun x => k))
  (at level 10, x name, m at level 100, k at level 200).
Notation "'let*' ' p ':=' m 'in' k" :=
  (bind m (fun x => match x with p => k end))
  (at level 10, p pattern, m at level 100, k at level 200).

(** ** The frame lexer *)

(** [read[0] = read[1]; read[1] = readByte] on the window [read]; either
    index can be out of range when the delimiter is shorter than two
    bytes. *)
Definition shift_window (read : list byte) (readByte : byte) : option (list byte) :=
  match read !! 1%nat with
  | None => None
  | Some r1 => Some (<[1%nat := readByte]> (<[0%nat := r1]> read))
  end.

(** The [for] loop of [readUntil]. Each iteration calls
    [buffer.ReadByte()], which yields the next byte of [buf], or [0] and
    [io.EOF] when [buf] is empty. *)
Fixpoint readUntil_loop (delim read out buf : list byte) {struct buf}
  : option ((list byte * option error) * list byte) :=
  if bytes_Equal read delim then Some ((out, None), buf)
  else
    match buf with
    | [] =>
        (* buffer.ReadByte() = (0, io.EOF): nothing is appended to out *)
        match shift_window read x00 with
        | None => None
        | Some _ => Some ((out, Some io_EOF), [])
        end
    | readByte :: buf' =>
        (* buffer.ReadByte() = (readByte, nil) *)
        match shift_window read readByte with
        | None => None
        | Some read' => readUntil_loop delim read' (out ++ [readByte]) buf'
        end
    end.

Definition readUntil (delim : list byte) : M (list byte * option error) :=
  fun buffer =>
    readUntil_loop delim (repeat x00 (length delim)) [] buffer.


(** ** Library functions on strings *)

Definition in_cutset (c : ascii) (cutset : string) : bool :=
  existsb (Ascii.eqb c) (list_ascii_of_string cutset).

(** [strings.TrimRight(s, cutset)]: [s] without its longest suffix made of
    characters of [cutset]. (Go works on runes; for an all-ASCII [cutset],
    as in every call here, that is the same as working on bytes.) *)
Fixpoint strings_TrimRight (s cutset : string) : string :=
  match s with
  | EmptyString => EmptyString
  | String c s' =>
      match strings_TrimRight s' cutset with
      | EmptyString => if in_cutset c cutset then EmptyString else String c EmptyString
      | t => String c t
      end
  end.

(** [s[n:]]. *)
Fixpoint string_drop (n : nat) (s : string) : string :=
  match n, s with
  | O, _ => s
  | S n', String _ s' => string_drop n' s'
  | S _, EmptyString => EmptyString
  end.

(** [s[:n]]. *)
Fixpoint string_take (n : nat) (s : string) : string :=
  match n, s with
  | O, _ => EmptyString
  | S n', String c s' => String c (string_take n' s')
  | S _, EmptyString => EmptyString
  end.

(** [strings.HasPrefix(s, prefix)]. *)
Fixpoint strings_HasPrefix (s prefix : string) {struct prefix} : bool :=
  match prefix with
  | EmptyString => true
  | String a prefix' =>
      match s with
      | String b s' => Ascii.eqb a b && strings_HasPrefix s' prefix'
      | EmptyString => false
      end
  end.

(** The text before and after the first occurrence of [sep] in [s], if
    there is one ([strings.Index] and the two slices around it). *)
Fixpoint strings_Cut (s sep : string) : option (string * string) :=
  if strings_HasPrefix s sep then Some (EmptyString, string_drop (String.length sep) s)
  else
    match s with
    | EmptyString => None
    | String c s' =>
        match strings_Cut s' sep with
        | Some (before, after) => Some (String c before, after)
        | None => None
        end
    end.

(** [strings.SplitN(s, sep, 2)] for a non-empty [sep]: [s] cut at the first
    [sep], or [s] alone when [sep] does not occur. *)
Definition strings_SplitN_2 (s sep : string) : list string :=
  match strings_Cut s sep with
  | Some (before, after) => [before; after]
  | None => [s]
  end.

(** [strings.Join]. *)
Definition strings_Join (elems : list string) (sep : string) : string :=
  String.concat sep elems.

(** [fmt.Sprintf("%d", n)] for an unsigned [n]. *)
Definition fmt_d (n : Z) : string := NilZero.string_of_uint (N.to_uint (Z.to_N n)).

(** Position of the first / last occurrence of [c] in [s] ([-1] in Go when
    there is none). *)
Fixpoint IndexByteString (s : string) (c : ascii) : option nat :=
  match s with
  | EmptyString => None
  | String x s' =>
      if Ascii.eqb x c then Some O
      else option_map S (IndexByteString s' c)
  end.

Fixpoint last_index (s : string) (c : ascii) : option nat :=
  match s with
  | EmptyString => None
  | String x s' =>
      match last_index s' c with
      | Some i => Some (S i)
      | None => if Ascii.eqb x c then Some O else None
      end
  end.

Definition digit_val (c : ascii) : option Z :=
  let n := Z.of_N (N_of_ascii c) in
  if (48 <=? n) && (n <=? 57) then Some (n - 48) else None.

Definition hex_val (c : ascii) : option Z :=
  let n := Z.of_N (N_of_ascii c) in
  if (48 <=? n) && (n <=? 57) then Some (n - 48)
  else if (97 <=? n) && (n <=? 102) then Some (n - 97 + 10)
  else if (65 <=? n) && (n <=? 70) then Some (n - 65 + 10)
  else None.

(** ** [strconv.ParseUint(s, 10, bitSize)] *)

Definition maxUint64 : Z := 2 ^ 64 - 1.

Fixpoint ParseUint_loop (s0 : string) (maxVal : Z) (n : Z) (s : string)
  : Z * option error :=
  match s with
  | EmptyString => (n, None)
  | String c s' =>
      match digit_val c with
      | None =>
          (* a letter is a digit >= 10, anything else is no digit at all *)
          (0, Some (strconv_NumError "ParseUint" s0 ErrSyntax))
      | Some d =>
          if n >=? maxUint64 / 10 + 1 then
            (maxVal, Some (strconv_NumError "ParseUint" s0 ErrRange))
          else
            let n := n * 10 in
            let n1 := (n + d) mod 2 ^ 64 in
            if (n1 <? n) || (n1 >? maxVal) then
              (maxVal, Some (strconv_NumError "ParseUint" s0 ErrRange))
            else ParseUint_loop s0 maxVal n1 s'
      end
  end.

(** Base 10 and [0 < bitSize <= 64], as in both calls of [ParsePacket]. *)
Definition strconv_ParseUint (s : string) (bitSize : Z) : Z * option error :=
  match s with
  | EmptyString => (0, Some (strconv_NumError "ParseUint" s ErrSyntax))
  | _ => ParseUint_loop s (2 ^ bitSize - 1) 0 s
  end.

(** ** Package [net] *)

(** [net.IP] is a byte slice; [nil] is [None] where a function can return
    it. *)
Abbreviation IP := (list byte) (only parsing).

Definition IPv4len : nat := 4.
Definition IPv6len : nat := 16.

Definition v4InV6Prefix : list byte :=
  [x00; x00; x00; x00; x00; x00; x00; x00; x00; x00; xff; xff].

(** [net.IPv4(a, b, c, d)]: the 16-byte form of an IPv4 address. *)
Definition net_IPv4 (a b c d : byte) : IP := v4InV6Prefix ++ [a; b; c; d].

Definition head_is (s : string) (c : ascii) : bool :=
  match s with
  | EmptyString => false
  | String x _ => Ascii.eqb x c
  end.

Definition is_empty (s : string) : bool :=
  match s with
  | EmptyString => true
  | _ => false
  end.

Definition is_some {A} (o : option A) : bool :=
  match o with
  | Some _ => true
  | None => false
  end.

(** [net.SplitHostPort]. *)
Definition net_SplitHostPort (hostport : string)
  : string * string * option error :=
  let addrErr (why : string) := ("", "", Some (net_AddrError why hostport)) in
  let missingPort := "missing port in address" in
  let tooManyColons := "too many colons in address" in
  (* the port starts after the last colon *)
  match last_index hostport ":" with
  | None => addrErr missingPort
  | Some i =>
      let finish (host : string) (j k : nat) :=
        if is_some (IndexByteString (string_drop j hostport) "[") then
          addrErr "unexpected '[' in address"
        else if is_some (IndexByteString (string_drop k hostport) "]") then
          addrErr "unexpected ']' in address"
        else (host, string_drop (S i) hostport, None) in
      if head_is hostport "[" then
        (* expect the first ']' just before the last ':' *)
        match IndexByteString hostport "]" with
        | None => addrErr "missing ']' in address"
        | Some end_ =>
            if Nat.eqb (S end_) (String.length hostport) then addrErr missingPort
            else if Nat.eqb (S end_) i then
              finish (string_take (end_ - 1) (string_drop 1 hostport)) 1%nat (S end_)
            else if head_is (string_drop (S end_) hostport) ":" then
              addrErr tooManyColons
            else addrErr missingPort
        end
      else
        let host := string_take i hostport in
        if is_some (IndexByteString host ":") then addrErr tooManyColons
        else finish host 0%nat 0%nat
  end.

Definition big : Z := 16777215.

(** [dtoi]: the decimal number at the start of [s], the number of
    characters it takes, and whether there is one. *)
Fixpoint dtoi_loop (n : Z) (i : nat) (s : string) : Z * nat * bool :=
  match s with
  | String c s' =>
      match digit_val c with
      | Some d =>
          let n := n * 10 + d in
          if n >=? big then (big, i, false) else dtoi_loop n (S i) s'
      | None => if Nat.eqb i 0 then (0, 0%nat, false) else (n, i, true)
      end
  | EmptyString => if Nat.eqb i 0 then (0, 0%nat, false) else (n, i, true)
  end.

Definition dtoi (s : string) : Z * nat * bool := dtoi_loop 0 0 s.

(** [xtoi]: the same for a hexadecimal number. *)
Fixpoint xtoi_loop (n : Z) (i : nat) (s : string) : Z * nat * bool :=
  match s with
  | String c s' =>
      match hex_val c with
      | Some d =>
          let n := n * 16 + d in
          if n >=? big then (0, i, false) else xtoi_loop n (S i) s'
      | None => if Nat.eqb i 0 then (0, i, false) else (n, i, true)
      end
  | EmptyString => if Nat.eqb i 0 then (0, i, false) else (n, i, true)
  end.

Definition xtoi (s : string) : Z * nat * bool := xtoi_loop 0 0 s.

(** The [for i := 0; i < IPv4len; i++] loop of [parseIPv4]; [todo] octets
    are still to be read and [first] says that [i = 0]. *)
Fixpoint parseIPv4_loop (todo : nat) (first : bool) (s : string)
  : option (list byte * string) :=
  match todo with
  | O => Some ([], s)
  | S todo' =>
      if is_empty s then None (* missing octets *)
      else if negb first && negb (head_is s ".") then None
      else
        let s := if first then s else string_drop 1 s in
        let '(n, c, ok) := dtoi s in
        if negb ok || (n >? 255) then None
        else if (1 <? c)%nat && head_is s "0" then None (* leading zeroes *)
        else
          match parseIPv4_loop todo' false (string_drop c s) with
          | Some (p, s') => Some (byte_of_Z n :: p, s')
          | None => None
          end
  end.

Definition parseIPv4 (s : string) : option IP :=
  match parseIPv4_loop IPv4len true s with
  | Some (p, EmptyString) => Some (v4InV6Prefix ++ p)
  | _ => None
  end.

(** The main loop of [parseIPv6]. [ip] holds the [i] bytes written so far
    ([i = 16 - 2 * todo] at the head of each iteration); the result is the
    state in which the loop is left, or [None] for [return nil]. A group
    has at most four hexadecimal digits, as in the parser of [net/netip]
    that [net.ParseIP] now calls; older releases accepted longer groups
    with leading zeros, and that is the only difference between the
    two. *)
Fixpoint parseIPv6_loop (todo : nat) (ip : list byte) (ellipsis : option nat)
  (s : string) : option (list byte * option nat * string) :=
  match todo with
  | O => Some (ip, ellipsis, s)
  | S todo' =>
      let i := length ip in
      let '(n, c, ok) := xtoi s in
      if negb ok || (4 <? c)%nat || (n >? 65535) then None
      else if head_is (string_drop c s) "." then
        (* trailing IPv4 *)
        if negb (is_some ellipsis) && negb (Nat.eqb i (IPv6len - IPv4len)) then None
        else if (IPv6len <? i + IPv4len)%nat then None
        else
          match parseIPv4 s with
          | None => None
          | Some ip4 => Some (ip ++ skipn 12 ip4, ellipsis, EmptyString)
          end
      else
        let ip := ip ++ [byte_of_Z (Z.shiftr n 8); byte_of_Z n] in
        let i := (i + 2)%nat in
        let s := string_drop c s in
        if is_empty s then Some (ip, ellipsis, s)
        else if negb (head_is s ":") || Nat.eqb (String.length s) 1 then None
        else
          let s := string_drop 1 s in
          if head_is s ":" then
            if is_some ellipsis then None
            else
              let s := string_drop 1 s in
              if is_empty s then Some (ip, Some i, s)
              else parseIPv6_loop todo' ip (Some i) s
          else parseIPv6_loop todo' ip ellipsis s
  end.

Definition parseIPv6 (s : string) : option IP :=
  let leading := head_is s ":" && head_is (string_drop 1 s) ":" in
  let ellipsis := if leading then Some 0%nat else None in
  let s := if leading then string_drop 2 s else s in
  if leading && is_empty s then Some (repeat x00 IPv6len)
  else
    match parseIPv6_loop 8 [] ellipsis s with
    | None => None
    | Some (ip, ellipsis, s) =>
        if negb (is_empty s) then None
        else
          let i := length ip in
          if (i <? IPv6len)%nat then
            match ellipsis with
            | None => None
            | Some e =>
                (* the bytes from [e] on move to the end, zeros fill the gap *)
                Some (firstn e ip ++ repeat x00 (IPv6len - i) ++ skipn e ip)
            end
          else if is_some ellipsis then None
          else Some ip
    end.

(** [net.ParseIP]: the first ['.'] or [':'] decides between the two
    syntaxes; [None] is the [nil] result. *)
Fixpoint ParseIP_scan (s0 s : string) : option IP :=
  match s with
  | EmptyString => None
  | String c s' =>
      if Ascii.eqb c "." then parseIPv4 s0
      else if Ascii.eqb c ":" then parseIPv6 s0
      else ParseIP_scan s0 s'
  end.

Definition net_ParseIP (s : string) : option IP := ParseIP_scan s s.

Definition hexDigit : string := "0123456789abcdef".

Definition hex_char (v : Z) : ascii :=
  match String.get (Z.to_nat v) hexDigit with
  | Some c => c
  | None => "0"%char
  end.

(** [hex.EncodeToString] / [hexString]: two lower-case digits per byte. *)
Fixpoint hex_Encode (b : list byte) : string :=
  match b with
  | [] => EmptyString
  | x :: b' =>
      String (hex_char (Z.shiftr (Z_of_byte x) 4))
        (String (hex_char (Z.land (Z_of_byte x) 15)) (hex_Encode b'))
  end.

(** [appendHex]: [i] in hexadecimal without leading zeros. *)
Fixpoint appendHex_loop (j : nat) (i : Z) : string :=
  match j with
  | O => EmptyString
  | S j' =>
      let v := Z.shiftr i (Z.of_nat j' * 4) in
      if v >? 0 then String (hex_char (Z.land v 15)) (appendHex_loop j' i)
      else appendHex_loop j' i
  end.

Definition appendHex (i : Z) : string :=
  if i =? 0 then "0" else appendHex_loop 8 i.

Definition isZeros (p : list byte) : bool := forallb (Byte.eqb x00) p.

(** [ip.To4()]. *)
Definition To4 (ip : IP) : option IP :=
  if Nat.eqb (length ip) IPv4len then Some ip
  else if Nat.eqb (length ip) IPv6len && isZeros (firstn 10 ip)
          && bytes_Equal (firstn 2 (skipn 10 ip)) [xff; xff]
  then Some (firstn 4 (skipn 12 ip))
  else None.

(** [p[i]] as a number; reads past the end do not occur below. *)
Definition byte_at (p : list byte) (i : nat) : Z :=
  match p !! i with
  | Some b => Z_of_byte b
  | None => 0
  end.

(** [j] after [for j < IPv6len && p[j] == 0 && p[j+1] == 0 { j += 2 }]. *)
Fixpoint zero_run_end (fuel : nat) (p : list byte) (j : nat) : nat :=
  match fuel with
  | O => j
  | S fuel' =>
      if (j <? IPv6len)%nat && (byte_at p j =? 0) && (byte_at p (j + 1) =? 0)
      then zero_run_end fuel' p (j + 2)
      else j
  end.

(** The search for the longest run of zero groups, [(e0, e1)]. *)
Fixpoint longest_zero_run (fuel : nat) (p : list byte) (i : nat) (e0 e1 : Z)
  : Z * Z :=
  match fuel with
  | O => (e0, e1)
  | S fuel' =>
      if (i <? IPv6len)%nat then
        let j := zero_run_end 8 p i in
        if (i <? j)%nat && (e1 - e0 <? Z.of_nat j - Z.of_nat i) then
          longest_zero_run fuel' p (j + 2) (Z.of_nat i) (Z.of_nat j)
        else longest_zero_run fuel' p (i + 2) e0 e1
      else (e0, e1)
  end.

(** The printing loop of [IP.String] for a 16-byte address. *)
Fixpoint ipv6_print (fuel : nat) (p : list byte) (e0 e1 : Z) (i : nat) : string :=
  match fuel with
  | O => EmptyString
  | S fuel' =>
      if (i <? IPv6len)%nat then
        let group (i : nat) := Z.lor (Z.shiftl (byte_at p i) 8) (byte_at p (i + 1)) in
        if Z.of_nat i =? e0 then
          let i := Z.to_nat e1 in
          if (IPv6len <=? i)%nat then "::"
          else "::" +:+ appendHex (group i) +:+ ipv6_print fuel' p e0 e1 (i + 2)
        else
          (if (0 <? i)%nat then ":" else "") +:+ appendHex (group i)
            +:+ ipv6_print fuel' p e0 e1 (i + 2)
      else EmptyString
  end.

(** [ip.String()]. *)
Definition IP_String (ip : IP) : string :=
  if Nat.eqb (length ip) 0 then "<nil>"
  else
    match To4 ip with
    | Some [a; b; c; d] =>
        fmt_d (Z_of_byte a) +:+ "." +:+ fmt_d (Z_of_byte b) +:+ "."
          +:+ fmt_d (Z_of_byte c) +:+ "." +:+ fmt_d (Z_of_byte d)
    | _ =>
        if negb (Nat.eqb (length ip) IPv6len) then "?" +:+ hex_Encode ip
        else
          let '(e0, e1) := longest_zero_run 8 ip 0 (-1) (-1) in
          (* "::" is not used to shorten a single zero group *)
          let '(e0, e1) := if e1 - e0 <=? 2 then (-1, -1) else (e0, e1) in
          ipv6_print 8 ip e0 e1 0
    end.

(** ** Package [github.com/google/uuid] *)

(** [uuid.UUID] is a 16-byte array. *)
Abbreviation UUID := (list byte) (only parsing).

(** [uuid.String()]: the form [xxxxxxxx-xxxx-xxxx-xxxx-xxxxxxxxxxxx]. *)
Definition UUID_String (uuid : UUID) : string :=
  hex_Encode (firstn 4 uuid) +:+ "-"
    +:+ hex_Encode (firstn 2 (skipn 4 uuid)) +:+ "-"
    +:+ hex_Encode (firstn 2 (skipn 6 uuid)) +:+ "-"
    +:+ hex_Encode (firstn 2 (skipn 8 uuid)) +:+ "-"
    +:+ hex_Encode (skipn 10 uuid).

(** [xtob]: the byte written by two hexadecimal digits. *)
Definition xtob (x1 x2 : ascii) : option byte :=
  match hex_val x1, hex_val x2 with
  | Some b1, Some b2 => Some (byte_of_Z (Z.lor (Z.shiftl b1 4) b2))
  | _, _ => None
  end.

(** [n] bytes written as [2 * n] hexadecimal digits at the start of [s]. *)
Fixpoint hex_bytes (n : nat) (s : string) : option (list byte) :=
  match n with
  | O => Some []
  | S n' =>
      match s with
      | String x1 (String x2 s') =>
          match xtob x1 x2, hex_bytes n' s' with
          | Some b, Some l => Some (b :: l)
          | _, _ => None
          end
      | _ => None
      end
  end.

Definition to_lower (s : string) : string :=
  string_of_list_ascii
    (map (fun c =>
            let n := N_of_ascii c in
            if (65 <=? n)%N && (n <=? 90)%N then ascii_of_N (n + 32) else c)
       (list_ascii_of_string s)).

(** The hyphenated part of [uuid.Parse], on a string of at least 36
    characters. *)
Definition parse_hyphenated (s : string) : UUID + error :=
  let hyphen (i : nat) := head_is (string_drop i s) "-" in
  if negb (hyphen 8%nat && hyphen 13%nat && hyphen 18%nat && hyphen 23%nat)
  then inr (errors_New "invalid UUID format")
  else
    match hex_bytes 4 s, hex_bytes 2 (string_drop 9 s),
          hex_bytes 2 (string_drop 14 s), hex_bytes 2 (string_drop 19 s),
          hex_bytes 6 (string_drop 24 s) with
    | Some a, Some b, Some c, Some d, Some e => inl (a ++ b ++ c ++ d ++ e)
    | _, _, _, _, _ => inr (errors_New "invalid UUID format")
    end.

(** [uuid.Parse]: the standard form, the same after [urn:uuid:] (in any
    letter case), the same between two more characters, or 32 hexadecimal
    digits. The result is the UUID or the error. *)
Definition uuid_Parse (s : string) : UUID + error :=
  let len := String.length s in
  if Nat.eqb len 36 then parse_hyphenated s
  else if Nat.eqb len (36 + 9) then
    if String.eqb (to_lower (string_take 9 s)) "urn:uuid:"
    then parse_hyphenated (string_drop 9 s)
    else inr (uuid_invalidUrnPrefix (string_take 9 s))
  else if Nat.eqb len (36 + 2) then parse_hyphenated (string_drop 1 s)
  else if Nat.eqb len 32 then
    match hex_bytes 16 s with
    | Some u => inl u
    | None => inr (errors_New "invalid UUID format")
    end
  else inr (uuid_invalidLengthError len).

(** ** Packets *)

#[local] Set Warnings "-register-all".

(** The dynamic values of a [map[string]interface{}] that [encoding/json]
    produces ([nil], [bool], [float64], [string], slices and maps), and
    [int], which callers put in. *)
Inductive Value :=
| VNil
| VBool (b : bool)
| VInt (n : Z)
| VFloat64 (f : float)
| VString (s : string)
| VSlice (l : list Value)
| VMap (m : gmap string Value).

(** A [map[string]interface{}]; [None] is the [nil] map. *)
Abbreviation Body := (option (gmap string Value)) (only parsing).

Record DiscoveryPacket := {
  Address : IP;
  Port : Z; (* uint16 *)
  Type_ : string
}.

Record RequestActionPacket := {
  RequestUUID : UUID;
  ActionId : Z; (* uint8 *)
  Parameters : Body
}.

Record ResponseActionPacket := {
  ResponseRequestUUID : UUID; (* field RequestUUID of ResponseActionPacket *)
  Approved : bool;
  Content : Body
}.

(** The implementations of the interface [Packet]. *)
Inductive Packet :=
| PDiscovery (p : DiscoveryPacket)
| PRequestAction (p : RequestActionPacket)
| PResponseAction (p : ResponseActionPacket).

Definition uint8 (z : Z) : Z := z mod 2 ^ 8.
Definition uint16 (z : Z) : Z := z mod 2 ^ 16.

Definition NewRequestDiscoveryPacket (address : IP) (port : Z) : DiscoveryPacket :=
  {| Address := address; Port := port; Type_ := requestDiscoveryType |}.

Definition NewResponseDiscoveryPacket (address : IP) (port : Z) : DiscoveryPacket :=
  {| Address := address; Port := port; Type_ := responseDiscoveryType |}.

(** [NewRequestActionPacket] draws the UUID of the request with
    [uuid.New()]; here the UUID drawn is an argument. *)
Definition NewRequestActionPacket (requestUUID : UUID) (actionId : Z)
  (parameters : Body) : RequestActionPacket :=
  {| RequestUUID := requestUUID; ActionId := actionId; Parameters := parameters |}.

Definition NewResponseActionPacket (requestUUID : UUID) (approved : bool)
  (content : Body) : ResponseActionPacket :=
  {| ResponseRequestUUID := requestUUID; Approved := approved; Content := content |}.

Definition dquote : string := String "034" EmptyString.

Definition header_not_found (name : string) : error :=
  errors_New ("malformed packet: " +:+ dquote +:+ name +:+ dquote +:+ " header not found").

(** [DiscoveryPacket.String]. *)
Definition DiscoveryPacket_String (packet : DiscoveryPacket) : string * option error :=
  let typeHeader := "TYPE: " +:+ Type_ packet in
  let hostHeader :=
    "HOST: " +:+ IP_String (Address packet) +:+ ":" +:+ fmt_d (Port packet) in
  let headers := [discoveryIdentifier; typeHeader; hostHeader] in
  (strings_Join headers headerSeparator +:+ headerSeparator +:+ endPacket, None).

Definition DiscoveryPacket_Bytes (packet : DiscoveryPacket) : list byte * option error :=
  let '(packetString, err) := DiscoveryPacket_String packet in
  (bytes_of_string packetString, err).

(** [parseHeader]. *)
Definition parseHeader (raw : string) : list string * option error :=
  let headerValue := strings_SplitN_2 raw ": " in
  if Nat.eqb (length headerValue) 1 then ([], Some (errors_New "invalid header line"))
  else (headerValue, None).

(** The [for] loop of [readHeaders], entered with the results of the last
    [readUntil]. Every iteration but the last consumes bytes of the buffer,
    so [fuel] above the length of the buffer is never used up (see
    [readHeaders_total]). *)
Fixpoint readHeaders_loop (fuel : nat) (headers : gmap string string)
  (headerRaw : list byte) (err : option error)
  : M (gmap string string * option error) :=
  match fuel with
  | O => panic
  | S fuel' =>
      match err with
      | Some _ => ret (headers, err)
      | None =>
          if String.eqb (string_of_bytes headerRaw) headerSeparator then ret (headers, err)
          else
            let header := strings_TrimRight (string_of_bytes headerRaw) headerSeparator in
            let '(headerPair, err) := parseHeader header in
            match err with
            | Some _ => ret (headers, err)
            | None =>
                match headerPair !! 0%nat, headerPair !! 1%nat with
                | Some key, Some value =>
                    let headers := <[key := value]> headers in
                    let* '(headerRaw, err) := readUntil (bytes_of_string headerSeparator) in
                    readHeaders_loop fuel' headers headerRaw err
                | _, _ => panic
                end
            end
      end
  end.

(** [readHeaders]. *)
Definition readHeaders : M (gmap string string * option error) :=
  fun buffer =>
    (let* '(headerRaw, err) := readUntil (bytes_of_string headerSeparator) in
     readHeaders_loop (S (length buffer)) ∅ headerRaw err) buffer.

Section Codec.

(** [encoding/json] is not modelled; the codec is a parameter of what
    follows. [json_Marshal m] is the result of [json.Marshal(m)], the text
    or the message of the error; [json_Unmarshal data] is the result of
    [json.Unmarshal(data, &m)] on a [nil] map [m], the value of [m]
    afterwards or the message of the error. *)
Variable json_Marshal : Body -> string + string.
Variable json_Unmarshal : list byte -> Body + string.

(** [RequestActionPacket.String]. *)
Definition RequestActionPacket_String (packet : RequestActionPacket)
  : string * option error :=
  let requestUUIDHeader := "REQUEST-UUID: " +:+ UUID_String (RequestUUID packet) in
  let actionHeader := "ACTION-ID: " +:+ fmt_d (ActionId packet) in
  match json_Marshal (Parameters packet) with
  | inr msg => (EmptyString, Some (json_Error msg))
  | inl parametersJSON =>
      let headers := [requestActionIdentifier; requestUUIDHeader; actionHeader] in
      let out := strings_Join headers headerSeparator +:+ headerSeparator in
      let out :=
        match Parameters packet with
        | Some _ => out +:+ headerSeparator +:+ parametersJSON +:+ headerSeparator
        | None => out
        end in
      (out +:+ endPacket, None)
  end.

Definition RequestActionPacket_Bytes (packet : RequestActionPacket)
  : list byte * option error :=
  let '(packetString, err) := RequestActionPacket_String packet in
  (bytes_of_string packetString, err).

(** [ResponseActionPacket.String]. *)
Definition ResponseActionPacket_String (packet : ResponseActionPacket)
  : string * option error :=
  let requestUUIDHeader :=
    "REQUEST-UUID: " +:+ UUID_String (ResponseRequestUUID packet) in
  let approved := if Approved packet then "True" else "False" in
  let approvedHeader := "APPROVED: " +:+ approved in
  match json_Marshal (Content packet) with
  | inr msg => (EmptyString, Some (json_Error msg))
  | inl contentJSON =>
      let headers := [responseActionIdentifier; requestUUIDHeader; approvedHeader] in
      let out := strings_Join headers headerSeparator +:+ headerSeparator in
      let out :=
        match Content packet with
        | Some _ => out +:+ headerSeparator +:+ contentJSON +:+ headerSeparator
        | None => out
        end in
      (out +:+ endPacket, None)
  end.

Definition ResponseActionPacket_Bytes (packet : ResponseActionPacket)
  : list byte * option error :=
  let '(packetString, err) := ResponseActionPacket_String packet in
  (bytes_of_string packetString, err).

(** The [Packet] interface: [String] and [Bytes] dispatch on the
    implementation. *)
Definition Packet_String (packet : Packet) : string * option error :=
  match packet with
  | PDiscovery p => DiscoveryPacket_String p
  | PRequestAction p => RequestActionPacket_String p
  | PResponseAction p => ResponseActionPacket_String p
  end.

Definition Packet_Bytes (packet : Packet) : list byte * option error :=
  match packet with
  | PDiscovery p => DiscoveryPacket_Bytes p
  | PRequestAction p => RequestActionPacket_Bytes p
  | PResponseAction p => ResponseActionPacket_Bytes p
  end.

(** The [requestActionIdentifier] case of [ParsePacket]. *)
Definition parseRequestAction : M (option Packet * option error) :=
  let* '(headers, err) := readHeaders in
  match err with
  | Some _ => ret (None, err)
  | None =>
      match headers !! "REQUEST-UUID" with
      | None => ret (None, Some (header_not_found "REQUEST-UUID"))
      | Some packetRequestUUIDString =>
          match uuid_Parse packetRequestUUIDString with
          | inr e => ret (None, Some e)
          | inl packetRequestUUID =>
              match headers !! "ACTION-ID" with
              | None => ret (None, Some (header_not_found "ACTION-ID"))
              | Some packetActionIdString =>
                  let '(packetActionId, err) := strconv_ParseUint packetActionIdString 8 in
                  match err with
                  | Some _ => ret (None, err)
                  | None =>
                      let* '(parametersBytes, err) :=
                        readUntil (bytes_of_string headerSeparator) in
                      let build (parametersJSON : Body) :=
                        ret (Some (PRequestAction
                                     {| RequestUUID := packetRequestUUID;
                                        ActionId := uint8 packetActionId;
                                        Parameters := parametersJSON |}), None) in
                      match err with
                      | None =>
                          match json_Unmarshal parametersBytes with
                          | inr msg => ret (None, Some (json_Error msg))
                          | inl parametersJSON => build parametersJSON
                          end
                      | Some _ => build None
                      end
                  end
              end
          end
      end
  end.

(** The [discoveryIdentifier] case of [ParsePacket]. *)
Definition parseDiscovery : M (option Packet * option error) :=
  let* '(headers, err) := readHeaders in
  match err with
  | Some _ => ret (None, err)
  | None =>
      match headers !! "TYPE" with
      | None => ret (None, Some (header_not_found "TYPE"))
      | Some packetType =>
          match headers !! "HOST" with
          | None => ret (None, Some (header_not_found "HOST"))
          | Some packetHost =>
              let '(host, portString, err) := net_SplitHostPort packetHost in
              match err with
              | Some _ =>
                  ret (None, Some (errors_New "malformed packet: invalid ip/port pair"))
              | None =>
                  match net_ParseIP host with
                  | None =>
                      ret (None, Some (errors_New "malformed packet: hostname is not supported"))
                  | Some ip =>
                      let '(port, err) := strconv_ParseUint portString 16 in
                      match err with
                      | Some _ => ret (None, err)
                      | None =>
                          if String.eqb packetType requestDiscoveryType then
                            ret (Some (PDiscovery (NewRequestDiscoveryPacket ip (uint16 port))), None)
                          else if String.eqb packetType responseDiscoveryType then
                            ret (Some (PDiscovery (NewResponseDiscoveryPacket ip (uint16 port))), None)
                          else
                            ret (None,
                                 Some (errors_New
                                         ("malformed packet: type " +:+ dquote +:+ packetType
                                            +:+ dquote +:+ " not supported")))
                      end
                  end
              end
          end
      end
  end.

(** The [switch] of [ParsePacket] on the trimmed first line. *)
Definition dispatch (id : string) : M (option Packet * option error) :=
  if String.eqb id requestActionIdentifier then parseRequestAction
  else if String.eqb id responseActionIdentifier then
    (* TODO: Response action packet *)
    ret (None, None)
  else if String.eqb id discoveryIdentifier then parseDiscovery
  else ret (None, Some (errors_New "malformed packet: identifier not knwon")).

(** [ParsePacket]: the packet and the error it returns, either of which can
    be [nil]. *)
Definition ParsePacket : M (option Packet * option error) :=
  let* '(identifier, err) := readUntil (bytes_of_string headerSeparator) in
  match err with
  | Some _ => ret (None, err)
  | None => dispatch (strings_TrimRight (string_of_bytes identifier) headerSeparator)
  end.

End Codec.

(** ** The discovery engine *)

(** The size of the buffer that a datagram is read into. *)
Definition bufferSize : nat := 1024.

(** [net.TCPAddr]: an address and a port, which is an [int]. *)
Record TCPAddr := {
  TCPAddr_IP : list byte;
  TCPAddr_Port : Z
}.

(** What a round of the loops of the engine does to the outside once a
    datagram is read: calls on the connection, and goroutines started to
    resolve the socket that a discovery packet announces. *)
Inductive Effect :=
| conn_SetWriteDeadline
| conn_WriteTo (b : list byte) (* to the sender of the datagram *)
| go_resolveDiscoveryPacketTCPAddress (discoveryPacket : DiscoveryPacket).

Section Engine.

Variable json_Unmarshal : list byte -> Body + string.

(** [net.ResolveTCPAddr(network, address)] is not modelled: the resolver is
    a parameter. *)
Variable net_ResolveTCPAddr : string -> string -> TCPAddr + error.

(** [resolveDiscoveryPacketTCPAddress]: the socket sent on [resultChannel],
    if one is sent. *)
Definition resolveDiscoveryPacketTCPAddress (discoveryPacket : DiscoveryPacket)
  : option TCPAddr :=
  let address :=
    IP_String (Address discoveryPacket) +:+ ":" +:+ fmt_d (Port discoveryPacket) in
  match net_ResolveTCPAddr "tcp4" address with
  | inl theirAppSocket => Some theirAppSocket
  | inr _ => None
  end.

(** One round of the receiving loop of [DiscoveryService], from the point
    where [conn.ReadFrom(readBuffer)] has returned without error:
    [datagram] is what was sent, of which [readBuffer[:read]] holds the
    first [bufferSize] bytes, and [deadlineErr] is the result of
    [conn.SetWriteDeadline]. The result of [conn.WriteTo] is not looked
    at. [None] is a panic of [ParsePacket]. *)
Definition DiscoveryService_receive (appSocket : TCPAddr) (datagram : list byte)
  (deadlineErr : option error) : option (list Effect) :=
  let buffer := firstn bufferSize datagram in
  match ParsePacket json_Unmarshal buffer with
  | None => None
  | Some ((packet, err), _) =>
      match err with
      | Some _ => Some [] (* continue *)
      | None =>
          match packet with
          | Some (PDiscovery discoveryPacket) =>
              match deadlineErr with
              | Some _ => Some [conn_SetWriteDeadline] (* continue *)
              | None =>
                  let responsePacket :=
                    NewResponseDiscoveryPacket (TCPAddr_IP appSocket)
                      (uint16 (TCPAddr_Port appSocket)) in
                  let '(responsePacketBytes, _) := DiscoveryPacket_Bytes responsePacket in
                  Some ([conn_SetWriteDeadline; conn_WriteTo responsePacketBytes]
                          ++ if String.eqb (Type_ discoveryPacket) requestDiscoveryType
                             then [go_resolveDiscoveryPacketTCPAddress discoveryPacket]
                             else [])
              end
          | _ => Some [] (* the type assertion fails: continue *)
          end
      end
  end.


(** [net.ErrWriteToConnected]. *)
Definition net_ErrWriteToConnected : error :=
  errors_New "use of WriteTo with pre-connected connection".

(** [conn.WriteToUDP(b, addr)] on a socket that is [connected] or not: the
    datagram written, if one is, and the error, which the package wraps in
    an [*net.OpError] (its addresses are left out). On a connected socket
    the package refuses the write before the system is asked; on another
    socket [sysErr] is the result of the system call. *)
Definition UDPConn_WriteToUDP (connected : bool) (b : list byte)
  (sysErr : option error) : option (list byte) * option error :=
  if connected then (None, Some (net_OpError "write" net_ErrWriteToConnected))
  else
    match sysErr with
    | None => (Some b, None)
    | Some e => (None, Some (net_OpError "write" e))
    end.

(** One round of the sending loop of [LookForNodes]: the datagram written,
    if one is, and the error, on which the loop sends it on
    [closeSenderChannel] and ends. [conn] is the socket that
    [net.DialUDP("udp4", nil, dstAddress)] returned, a connected one. *)
Definition LookForNodes_send (appSocket : TCPAddr) (sysErr : option error)
  : option (list byte) * option error :=
  let packet :=
    NewRequestDiscoveryPacket (TCPAddr_IP appSocket) (uint16 (TCPAddr_Port appSocket)) in
  let '(packetBytes, _) := DiscoveryPacket_Bytes packet in
  UDPConn_WriteToUDP true packetBytes sysErr.


End Engine.

(** ** Vocabulary of the specification *)

(** The three kinds of error of the specification, read on the error values
    of the code: [io.EOF] is the lexer's stream-exhausted status, the error
    of the [default] case of [ParsePacket] is the unknown identifier, and
    every other error reports a malformed packet. *)
Inductive ParseError := StreamExhausted | UnknownIdentifier | MalformedPacket.

Definition error_kind (e : error) : ParseError :=
  match e with
  | io_EOF => StreamExhausted
  | errors_New msg =>
      if String.eqb msg "malformed packet: identifier not knwon"
      then UnknownIdentifier else MalformedPacket
  | _ => MalformedPacket
  end.

(** The delimiter of the protocol as bytes. *)
Definition CRLF : list byte := bytes_of_string headerSeparator.

(** [has_delim l]: a CR immediately followed by a LF occurs in [l]. *)
Fixpoint has_delim (l : list byte) : bool :=
  match l with
  | [] => false
  | x :: l' =>
      (Byte.eqb x x0d && match l' with y :: _ => Byte.eqb y x0a | [] => false end)
      || has_delim l'
  end.

(** [spec_frame id h1 h2 body]: the wire form of an action packet as the
    specification lays it out: the identifier and the two headers, each on
    its line, one blank line, and then, only when there is a body, the JSON
    line and one more blank line. *)
Definition spec_frame (id h1 h2 : string) (body : option string) : string :=
  id +:+ headerSeparator +:+ h1 +:+ headerSeparator +:+ h2 +:+ headerSeparator
    +:+ headerSeparator
    +:+ match body with
        | Some json => json +:+ headerSeparator +:+ headerSeparator
        | None => EmptyString
        end.

Definition quoted (s : string) : string := dquote +:+ s +:+ dquote.

(** A line of the protocol: [s] and the delimiter. *)
Definition line (s : string) : string := s +:+ headerSeparator.

(** [canonical_uuid_text s]: [s] has the canonical textual form of a UUID,
    36 characters that are hexadecimal digits but for the hyphens at
    positions 8, 13, 18 and 23. *)
Definition canonical_uuid_text (s : string) : bool :=
  Nat.eqb (String.length s) 36
  && forallb (fun '(i, c) =>
                if existsb (Nat.eqb i) [8; 13; 18; 23]%nat
                then Ascii.eqb c "-"
                else is_some (hex_val c))
       (combine (seq 0 36) (list_ascii_of_string s)).

(** The UUID of the examples and its canonical text. *)
Definition example_uuid : list byte :=
  [x12; x3e; x45; x67; xe8; x9b; x12; xd3; xa4; x56; x42; x66; x14; x17; x40; x00].

Definition example_uuid_text : string := "123e4567-e89b-12d3-a456-426614174000".

#[local] Set Warnings "-inexact-float".

(** The parameters of [TestRequestActionPacket] and their JSON text. *)
Definition example_parameters : gmap string Value :=
  <["key" := VString "value"]>
    (<["key2" := VInt 10]> (<["key3" := VBool true]> (<["key4" := VFloat64 15.7]> ∅))).

Definition example_json : string :=
  "{" +:+ quoted "key" +:+ ":" +:+ quoted "value" +:+ ","
    +:+ quoted "key2" +:+ ":10," +:+ quoted "key3" +:+ ":true,"
    +:+ quoted "key4" +:+ ":15.7}".

(** A codec at which the statements below are instantiated: the encoder
    knows the [nil] map and the empty map and writes [example_json] for
    every other map, the decoder knows the empty object and rejects every
    other text. *)
Definition sample_Marshal (m : option (gmap string Value)) : string + string :=
  match m with
  | None => inl "null"
  | Some m =>
      match map_to_list m with
      | [] => inl "{}"
      | _ :: _ => inl example_json
      end
  end.

Definition sample_Unmarshal (data : list byte) : option (gmap string Value) + string :=
  if bytes_Equal data (bytes_of_string "{}" ++ CRLF) then inl (Some ∅)
  else inr "invalid character".

(** The same decoder, which also takes the literal [null] as
    [encoding/json] does: without an error, and leaving the map [nil]. *)
Definition null_Unmarshal (data : list byte) : option (gmap string Value) + string :=
  if bytes_Equal data (bytes_of_string "null" ++ CRLF) then inl None
  else sample_Unmarshal data.

(** [plain s]: neither CR nor LF occurs in [s]. *)
Definition plain (s : string) : bool :=
  forallb (fun c => negb (in_cutset c headerSeparator)) (list_ascii_of_string s).

Definition is_digit (c : ascii) : bool := is_some (digit_val c).

(** [starts_nondigit s]: [s] is empty or starts with a character that is
    no decimal digit. *)
Definition starts_nondigit (s : string) : bool :=
  match s with
  | EmptyString => true
  | String c _ => negb (is_digit c)
  end.

(** Characters of a dotted address: digits and dots. *)
Definition host_char (c : ascii) : bool := is_digit c || Ascii.eqb c ".".

Definition all_chars (p : ascii -> bool) (s : string) : bool :=
  forallb p (list_ascii_of_string s).

(** The dotted text of the IPv4 address [a.b.c.d]. *)
Definition dotted (a b c d : byte) : string :=
  fmt_d (Z_of_byte a) +:+ "." +:+ fmt_d (Z_of_byte b) +:+ "."
    +:+ fmt_d (Z_of_byte c) +:+ "." +:+ fmt_d (Z_of_byte d).

(** [reparsable marshal unmarshal packet]: the packets the round trip is
    about. A discovery packet is one of the two kinds, for an IPv4 address
    in the 16-byte form of [net.IPv4] and a port of 16 bits; a request has
    a UUID of 16 bytes, an action of 8 bits and a body that the codec
    writes on one line and reads back from that line. No response packet
    is among them: [ParsePacket] has no case that builds one. *)
Definition reparsable
  (json_Marshal : option (gmap string Value) -> string + string)
  (json_Unmarshal : list byte -> option (gmap string Value) + string)
  (packet : Packet) : Prop :=
  match packet with
  | PDiscovery p =>
      (exists a b c d, Address p = net_IPv4 a b c d)
      /\ 0 <= Port p < 65536
      /\ (Type_ p = requestDiscoveryType \/ Type_ p = responseDiscoveryType)
  | PRequestAction p =>
      length (RequestUUID p) = 16%nat
      /\ 0 <= ActionId p < 256
      /\ exists parametersJSON,
           json_Marshal (Parameters p) = inl parametersJSON
           /\ (Parameters p <> None ->
               plain parametersJSON = true
               /\ json_Unmarshal (bytes_of_string parametersJSON ++ CRLF)
                  = inl (Parameters p))
  | PResponseAction _ => False
  end.

(** [has_sep s]: the separator [": "] of a header line occurs in [s]. *)
Fixpoint has_sep (s : string) : bool :=
  strings_HasPrefix s ": "
  || match s with
     | String _ s' => has_sep s'
     | EmptyString => false
     end.

(** The line of the header [key: value], with its delimiter, and the lines
    of several headers. *)
Definition header_line (kv : string * string) : list byte :=
  bytes_of_string (fst kv +:+ ": " +:+ snd kv) ++ CRLF.

Definition header_lines (pairs : list (string * string)) : list byte :=
  concat (map header_line pairs).

(** A header that is read back as it is written: no CR or LF in its key or
    its value, and no separator in its key. *)
Definition header_ok (kv : string * string) : bool :=
  plain (fst kv) && plain (snd kv) && negb (has_sep (fst kv)).

(** The map that [headers[headerPair[0]] = headerPair[1]] builds from the
    headers [pairs], taken in order. *)
Definition headers_of (pairs : list (string * string)) : gmap string string :=
  fold_left (fun headers kv => <[fst kv := snd kv]> headers) pairs ∅.

(** The value of the last header named [key] among [pairs]. *)
Definition last_value (key : string) (pairs : list (string * string)) : option string :=
  option_map snd (find (fun kv => String.eqb (fst kv) key) (rev pairs)).

(** [readHeaders] entered with the map [headers] instead of an empty one:
    what is left of [readHeaders] to do after some header lines. *)
Definition readHeaders_with (headers : gmap string string)
  : M (gmap string string * option error) :=
  fun buffer =>
    (let* '(headerRaw, err) := readUntil (bytes_of_string headerSeparator) in
     readHeaders_loop (S (length buffer)) headers headerRaw err) buffer.

(** The packets that [ParsePacket] builds. *)
Definition parsed (packet : Packet) : Prop :=
  match packet with
  | PDiscovery p =>
      length (Address p) = IPv6len
      /\ 0 <= Port p < 65536
      /\ (Type_ p = requestDiscoveryType \/ Type_ p = responseDiscoveryType)
  | PRequestAction p =>
      length (RequestUUID p) = 16%nat /\ 0 <= ActionId p < 256
  | PResponseAction _ => False
  end.

(** A result of [ParsePacket] other than [(nil, nil)]: a packet and no
    error, or an error and no packet. *)
Definition packet_or_error (packet : option Packet) (err : option error) : Prop :=
  (exists p, packet = Some p /\ err = None /\ parsed p)
  \/ (packet = None /\ exists e, err = Some e).

(** Characters of the text of an IPv6 address: lower-case hexadecimal
    digits and colons. *)
Definition v6_char (c : ascii) : bool := in_cutset c (hexDigit +:+ ":").

(** Characters of a text that reads neither as an address nor as a line
    end: no dot, colon or bracket, no CR or LF. *)
Definition name_char (c : ascii) : bool :=
  negb (in_cutset c ".:[]") && negb (in_cutset c headerSeparator).

(** The answer of a [DiscoveryService] that runs for [appSocket]. *)
Definition discovery_reply (appSocket : TCPAddr) : list byte :=
  fst (DiscoveryPacket_Bytes
         (NewResponseDiscoveryPacket (TCPAddr_IP appSocket)
            (uint16 (TCPAddr_Port appSocket)))).

(** A resolver at which the statements about the engine are instantiated:
    it resolves nothing. *)
Definition sample_ResolveTCPAddr (network address : string) : TCPAddr + error :=
  inr (net_AddrError "no suitable address found" address).

(** * Properties *)

(** ** Strings *)

Lemma string_of_bytes_app (a b : list byte) :
  string_of_bytes (a ++ b) = string_of_bytes a +:+ string_of_bytes b.
Proof.
  unfold string_of_bytes, string_of_list_byte.
  induction a as [|x a IH]; cbn [map app string_of_list_ascii]; [reflexivity|].
  now rewrite IH.
Qed.

Lemma bytes_of_string_app (s t : string) :
  bytes_of_string (s +:+ t) = bytes_of_string s ++ bytes_of_string t.
Proof.
  unfold bytes_of_string, list_byte_of_string.
  induction s as [|c s IH]; [reflexivity|].
  change (String c s +:+ t) with (String c (s +:+ t)).
  cbn [map app list_ascii_of_string]. now rewrite IH.
Qed.

Lemma string_of_bytes_of_string (s : string) :
  string_of_bytes (bytes_of_string s) = s.
Proof. apply string_of_list_byte_of_string. Qed.

(** Trailing characters of the cut set disappear, however many. *)
Lemma strings_TrimRight_app_cutset (s t cutset : string) :
  forallb (fun c => in_cutset c cutset) (list_ascii_of_string t) = true ->
  strings_TrimRight (s +:+ t) cutset = strings_TrimRight s cutset.
Proof.
  intros Ht.
  assert (Hnil : strings_TrimRight t cutset = EmptyString).
  { induction t as [|c t IH]; [reflexivity|].
    cbn in Ht. apply andb_true_iff in Ht as [Hc Ht].
    cbn. now rewrite IH, Hc. }
  induction s as [|c s IH]; [exact Hnil|].
  change (String c s +:+ t) with (String c (s +:+ t)).
  cbn [strings_TrimRight]. now rewrite IH.
Qed.

Lemma first_line_trimmed (line : list byte) :
  strings_TrimRight (string_of_bytes (line ++ CRLF)) headerSeparator
  = strings_TrimRight (string_of_bytes line) headerSeparator.
Proof.
  rewrite string_of_bytes_app. now apply strings_TrimRight_app_cutset.
Qed.

Lemma append_assoc (a b c : string) : (a +:+ b) +:+ c = a +:+ b +:+ c.
Proof.
  induction a as [|x a IH]; [reflexivity|].
  change (String x (((a +:+ b) +:+ c)) = String x (a +:+ b +:+ c)).
  now rewrite IH.
Qed.

Lemma append_nil_r (a : string) : a +:+ EmptyString = a.
Proof.
  induction a as [|x a IH]; [reflexivity|].
  change (String x (a +:+ EmptyString) = String x a). now rewrite IH.
Qed.

Lemma list_ascii_of_string_app (a b : string) :
  list_ascii_of_string (a +:+ b) = list_ascii_of_string a ++ list_ascii_of_string b.
Proof.
  induction a as [|c a IH]; [reflexivity|].
  change (String c a +:+ b) with (String c (a +:+ b)).
  cbn [list_ascii_of_string app]. now rewrite IH.
Qed.

Lemma plain_app (a b : string) : plain (a +:+ b) = plain a && plain b.
Proof. unfold plain. now rewrite list_ascii_of_string_app, forallb_app. Qed.

Lemma byte_of_ascii_CR (c : ascii) :
  Byte.eqb (byte_of_ascii c) x0d = Ascii.eqb c CR.
Proof.
  destruct (Ascii.eqb c CR) eqn:E.
  - apply Ascii.eqb_eq in E as ->. reflexivity.
  - destruct (Byte.eqb (byte_of_ascii c) x0d) eqn:E'; [|reflexivity].
    apply Byte.byte_dec_bl in E'.
    apply (f_equal ascii_of_byte) in E'. rewrite ascii_of_byte_of_ascii in E'.
    subst c. discriminate.
Qed.

Lemma plain_has_delim (s : string) :
  plain s = true -> has_delim (bytes_of_string s) = false.
Proof.
  unfold plain, bytes_of_string, list_byte_of_string.
  induction s as [|c s IH]; [reflexivity|].
  cbn [list_ascii_of_string forallb map has_delim]. intros H.
  apply andb_true_iff in H as [Hc Hs]. rewrite (IH Hs), orb_false_r.
  rewrite byte_of_ascii_CR.
  unfold in_cutset in Hc. cbn in Hc.
  fold CR in Hc. destruct (Ascii.eqb c CR); [discriminate | reflexivity].
Qed.

Lemma plain_TrimRight (s : string) :
  plain s = true -> strings_TrimRight s headerSeparator = s.
Proof.
  unfold plain. induction s as [|c s IH]; [reflexivity|].
  cbn [list_ascii_of_string forallb strings_TrimRight]. intros H.
  apply andb_true_iff in H as [Hc Hs]. rewrite (IH Hs).
  destruct s; [|reflexivity].
  now apply negb_true_iff in Hc as ->.
Qed.

Lemma plain_hex_char (v : Z) : plain (String (hex_char v) EmptyString) = true.
Proof.
  unfold hex_char, hexDigit.
  generalize (Z.to_nat v) as n. intros n.
  do 17 (destruct n as [|n]; [reflexivity|]). reflexivity.
Qed.

Lemma plain_cons (c : ascii) (s : string) :
  plain (String c s) = plain (String c EmptyString) && plain s.
Proof. unfold plain. cbn. now rewrite andb_true_r. Qed.

Lemma plain_hex_Encode (l : list byte) : plain (hex_Encode l) = true.
Proof.
  induction l as [|b l IH]; [reflexivity|].
  cbn [hex_Encode]. rewrite plain_cons, plain_hex_char.
  rewrite plain_cons, plain_hex_char. exact IH.
Qed.

Lemma plain_UUID_String (u : list byte) : plain (UUID_String u) = true.
Proof.
  unfold UUID_String. rewrite !plain_app, !plain_hex_Encode. reflexivity.
Qed.

Lemma fmt_d_digits (n : Z) :
  forallb is_digit (list_ascii_of_string (fmt_d n)) = true.
Proof.
  unfold fmt_d. generalize (N.to_uint (Z.to_N n)) as d. intros d.
  assert (H : forallb is_digit (list_ascii_of_string (NilEmpty.string_of_uint d)) = true)
    by (induction d; cbn; auto).
  destruct d; exact H || reflexivity.
Qed.

Lemma digits_plain (s : string) :
  forallb is_digit (list_ascii_of_string s) = true -> plain s = true.
Proof.
  unfold plain. induction s as [|c s IH]; [reflexivity|].
  cbn [list_ascii_of_string forallb]. intros H.
  apply andb_true_iff in H as [Hc Hs]. rewrite (IH Hs), andb_true_r.
  unfold is_digit, digit_val in Hc. unfold in_cutset. cbn.
  destruct (Ascii.eqb c CR) eqn:E1;
    [apply Ascii.eqb_eq in E1; subst; discriminate|].
  destruct (Ascii.eqb c LF) eqn:E2;
    [apply Ascii.eqb_eq in E2; subst; discriminate|].
  reflexivity.
Qed.

Lemma plain_fmt_d (n : Z) : plain (fmt_d n) = true.
Proof. apply digits_plain, fmt_d_digits. Qed.

(** ** The lexer *)

Lemma bytes_Equal_eq (a b : list byte) : bytes_Equal a b = true <-> a = b.
Proof.
  revert b; induction a as [|x a IH]; intros [|y b]; simpl;
    try (split; [discriminate | discriminate]); [tauto|].
  rewrite andb_true_iff, IH. split.
  - intros [Hx ->]. apply Byte.byte_dec_bl in Hx. now subst.
  - intros [= -> ->]. split; [now apply Byte.byte_dec_lb | reflexivity].
Qed.

Lemma CRLF_eq : CRLF = [x0d; x0a].
Proof. reflexivity. Qed.

(** What the loop returns is a split of the bytes it was given: what it
    appended to [out] and what it left in the buffer. *)
Lemma readUntil_loop_split delim read out buf o e r :
  readUntil_loop delim read out buf = Some ((o, e), r) ->
  exists taken, o = out ++ taken /\ buf = taken ++ r.
Proof.
  revert read out; induction buf as [|x buf IH]; intros read out; simpl.
  - destruct (bytes_Equal read delim).
    + intros [= <- <- <-]. exists []. now rewrite app_nil_r.
    + destruct (shift_window read x00); [|discriminate].
      intros [= <- <- <-]. exists []. now rewrite app_nil_r.
  - destruct (bytes_Equal read delim).
    + intros [= <- <- <-]. exists []. now rewrite app_nil_r.
    + destruct (shift_window read x) as [read'|]; [|discriminate].
      intros H. apply IH in H as (taken & -> & ->).
      exists (x :: taken). now rewrite <- app_assoc.
Qed.

(** The status is [nil] or [io.EOF], and [io.EOF] leaves nothing unread. *)
Lemma readUntil_loop_status delim read out buf o e r :
  readUntil_loop delim read out buf = Some ((o, e), r) ->
  e = None \/ (e = Some io_EOF /\ r = []).
Proof.
  revert read out; induction buf as [|x buf IH]; intros read out; simpl.
  - destruct (bytes_Equal read delim).
    + intros [= <- <- <-]. now left.
    + destruct (shift_window read x00); [|discriminate].
      intros [= <- <- <-]. now right.
  - destruct (bytes_Equal read delim).
    + intros [= <- <- <-]. now left.
    + destruct (shift_window read x) as [read'|]; [|discriminate]. apply IH.
Qed.

Lemma shift_window_2 (r0 r1 x : byte) : shift_window [r0; r1] x = Some [r1; x].
Proof. reflexivity. Qed.

(** With a two-byte window the loop never indexes out of range. *)
Lemma readUntil_loop_total delim r0 r1 out buf :
  exists o e r, readUntil_loop delim [r0; r1] out buf = Some ((o, e), r).
Proof.
  revert r0 r1 out; induction buf as [|x buf IH]; intros r0 r1 out;
    cbn [readUntil_loop]; destruct (bytes_Equal [r0; r1] delim);
    rewrite ?shift_window_2; eauto.
Qed.

Lemma readUntil_total (buf : list byte) :
  exists o e r, readUntil CRLF buf = Some ((o, e), r).
Proof. apply readUntil_loop_total. Qed.

Lemma readUntil_split buf o e r :
  readUntil CRLF buf = Some ((o, e), r) -> buf = o ++ r.
Proof.
  intros H. apply readUntil_loop_split in H as (taken & -> & ->). reflexivity.
Qed.

Lemma readUntil_loop_stop delim read out buf :
  bytes_Equal read delim = true ->
  readUntil_loop delim read out buf = Some ((out, None), buf).
Proof. intros H. destruct buf; cbn [readUntil_loop]; now rewrite H. Qed.

Lemma window_not_delim (r1 x : byte) (l : list byte) :
  has_delim (r1 :: x :: l) = false -> bytes_Equal [r1; x] CRLF = false.
Proof.
  rewrite CRLF_eq. cbn [has_delim bytes_Equal].
  intros H. apply orb_false_iff in H as [H _].
  now rewrite andb_true_r.
Qed.

(** The first line: when no delimiter occurs before it, the loop stops right
    after the first delimiter and returns it with everything before. *)
Lemma readUntil_loop_line r0 r1 out line rest :
  bytes_Equal [r0; r1] CRLF = false ->
  has_delim (r1 :: line) = false ->
  readUntil_loop CRLF [r0; r1] out (line ++ CRLF ++ rest)
  = Some ((out ++ line ++ CRLF, None), rest).
Proof.
  revert r0 r1 out; induction line as [|x line IH]; intros r0 r1 out Hw Hd.
  - rewrite CRLF_eq in *. cbn [app readUntil_loop].
    rewrite Hw, shift_window_2.
    replace (bytes_Equal [r1; x0d] [x0d; x0a]) with false
      by (cbn; now rewrite andb_false_r).
    rewrite shift_window_2, readUntil_loop_stop by reflexivity.
    now rewrite <- app_assoc.
  - cbn [app readUntil_loop]. rewrite Hw, shift_window_2.
    rewrite IH.
    + now rewrite <- app_assoc.
    + now apply window_not_delim with line.
    + cbn [has_delim] in Hd. now apply orb_false_iff in Hd as [_ Hd].
Qed.

(** No delimiter at all: everything is returned, with [io.EOF]. *)
Lemma readUntil_loop_no_delim r0 r1 out buf :
  bytes_Equal [r0; r1] CRLF = false ->
  has_delim (r1 :: buf) = false ->
  readUntil_loop CRLF [r0; r1] out buf = Some ((out ++ buf, Some io_EOF), []).
Proof.
  revert r0 r1 out; induction buf as [|x buf IH]; intros r0 r1 out Hw Hd.
  - cbn [readUntil_loop]. rewrite Hw, shift_window_2. now rewrite app_nil_r.
  - cbn [readUntil_loop]. rewrite Hw, shift_window_2.
    rewrite IH.
    + now rewrite <- app_assoc.
    + now apply window_not_delim with buf.
    + cbn [has_delim] in Hd. now apply orb_false_iff in Hd as [_ Hd].
Qed.

Lemma readUntil_line (line rest : list byte) :
  has_delim line = false ->
  readUntil CRLF (line ++ CRLF ++ rest) = Some ((line ++ CRLF, None), rest).
Proof.
  intros H. unfold readUntil. rewrite CRLF_eq at 1 2. cbn [length repeat].
  now rewrite readUntil_loop_line.
Qed.

Lemma readUntil_no_delim (buf : list byte) :
  has_delim buf = false ->
  readUntil CRLF buf = Some ((buf, Some io_EOF), []).
Proof.
  intros H. unfold readUntil. rewrite CRLF_eq at 1 2. cbn [length repeat].
  now rewrite readUntil_loop_no_delim.
Qed.

(** Every buffer is of one of the two shapes above. *)
Lemma first_line_cases (buf : list byte) :
  has_delim buf = false \/
  exists line rest, buf = line ++ CRLF ++ rest /\ has_delim line = false.
Proof.
  induction buf as [|x buf IH]; [now left|].
  destruct (has_delim (x :: buf)) eqn:E; [right | now left].
  cbn [has_delim] in E. apply orb_true_iff in E as [E|E].
  - apply andb_true_iff in E as [Hx Hy]. destruct buf as [|y buf]; [discriminate|].
    apply Byte.byte_dec_bl in Hx, Hy. subst. now exists [], buf.
  - destruct IH as [IH | (line & rest & -> & Hl)]; [congruence|].
    destruct (Byte.eqb x x0d && match line ++ CRLF ++ rest with
                                | y :: _ => Byte.eqb y x0a | [] => false end) eqn:E2.
    + apply andb_true_iff in E2 as [Hx Hy].
      destruct line as [|y line].
      * (* line is empty: the buffer would start with CR CR LF *)
        rewrite CRLF_eq in Hy. discriminate.
      * cbn [app] in Hy. apply Byte.byte_dec_bl in Hx, Hy. subst.
        now exists [], (line ++ CRLF ++ rest).
    + exists (x :: line), rest. split; [reflexivity|].
      cbn [has_delim]. rewrite Hl, orb_false_r.
      destruct line as [|y line]; cbn [app] in E2 |- *.
      * now rewrite andb_false_r.
      * exact E2.
Qed.

(** C2. On a buffer without the delimiter ([DYLLABLE-DISCOVERY], and every
    other such buffer) [readUntil] returns every byte together with
    [io.EOF], which is the stream-exhausted status and no other error; four
    successive calls on the buffer [A CRLF B CRLF CRLF] return [A CRLF],
    [B CRLF], [CRLF] and then the exhausted status; and in general a call
    consumes exactly the bytes it returns, which on a buffer with a
    delimiter are those up to the first delimiter, so that the next call
    resumes where it stopped. *)
Theorem readUntil_resumes :
  readUntil CRLF (bytes_of_string "DYLLABLE-DISCOVERY")
  = Some ((bytes_of_string "DYLLABLE-DISCOVERY", Some io_EOF), [])
  /\ error_kind io_EOF = StreamExhausted
  /\ (let* r1 := readUntil CRLF in
      let* r2 := readUntil CRLF in
      let* r3 := readUntil CRLF in
      let* r4 := readUntil CRLF in
      ret [r1; r2; r3; r4])
       (bytes_of_string "A" ++ CRLF ++ bytes_of_string "B" ++ CRLF ++ CRLF)
     = Some ([(bytes_of_string "A" ++ CRLF, None);
              (bytes_of_string "B" ++ CRLF, None);
              (CRLF, None);
              ([], Some io_EOF)], [])
  /\ (forall buf : list byte,
         exists out status rest,
           readUntil CRLF buf = Some ((out, status), rest)
           /\ buf = out ++ rest
           /\ (status = None \/ (status = Some io_EOF /\ rest = [])))
  /\ (forall buf : list byte,
         has_delim buf = false ->
         readUntil CRLF buf = Some ((buf, Some io_EOF), []))
  /\ (forall line rest : list byte,
         has_delim line = false ->
         readUntil CRLF (line ++ CRLF ++ rest) = Some ((line ++ CRLF, None), rest)).
Proof.
  split; [reflexivity|]. split; [reflexivity|]. split; [reflexivity|].
  split; [|split; [exact readUntil_no_delim | exact readUntil_line]].
  intros buf. destruct (readUntil_total buf) as (o & e & r & H).
  exists o, e, r. split; [exact H|]. split.
  - now apply readUntil_split with e.
  - unfold readUntil in H. now apply readUntil_loop_status in H.
Qed.

(** A call that ends with [nil] has consumed at least one byte. *)
Lemma readUntil_consumes buf o r :
  readUntil CRLF buf = Some ((o, None), r) -> (length r < length buf)%nat.
Proof.
  unfold readUntil. rewrite CRLF_eq. cbn [length repeat].
  destruct buf as [|x buf]; cbn [readUntil_loop bytes_Equal Byte.eqb];
    [discriminate|].
  rewrite shift_window_2. intros H.
  apply readUntil_loop_split in H as (taken & _ & ->).
  cbn [length]. rewrite length_app. lia.
Qed.

(** ** The header block *)

Lemma parseHeader_pair raw headerPair :
  parseHeader raw = (headerPair, None) ->
  exists key value, headerPair = [key; value].
Proof.
  unfold parseHeader, strings_SplitN_2.
  destruct (strings_Cut raw ": ") as [[before after]|]; cbn; [|discriminate].
  intros [= <-]. eauto.
Qed.

Lemma parseHeader_error raw headerPair e :
  parseHeader raw = (headerPair, Some e) -> e = errors_New "invalid header line".
Proof.
  unfold parseHeader, strings_SplitN_2.
  destruct (strings_Cut raw ": ") as [[before after]|]; cbn; [discriminate|].
  now intros [= _ <-].
Qed.

(** The loop of [readHeaders] returns whenever its fuel exceeds what is left
    of the buffer: it neither panics nor runs out of fuel. Its error is
    [nil], [io.EOF] or the error of [parseHeader]. *)
Lemma readHeaders_loop_total fuel headers headerRaw err buf :
  (1 <= fuel)%nat ->
  (err = None -> (length buf + 2 <= fuel)%nat) ->
  (err = None \/ err = Some io_EOF) ->
  exists h e r,
    readHeaders_loop fuel headers headerRaw err buf = Some ((h, e), r)
    /\ (e = None \/ e = Some io_EOF \/ e = Some (errors_New "invalid header line")).
Proof.
  revert headers headerRaw err buf.
  induction fuel as [|fuel IH]; intros headers headerRaw err buf H1 Hfuel Herr; [lia|].
  cbn [readHeaders_loop].
  destruct err as [e|].
  { destruct Herr as [|[= ->]]; [discriminate|]. unfold ret. eauto 8. }
  destruct (String.eqb (string_of_bytes headerRaw) headerSeparator).
  { unfold ret. eauto 8. }
  destruct (parseHeader _) as [headerPair [e|]] eqn:Hp.
  { apply parseHeader_error in Hp as ->. unfold ret. eauto 8. }
  apply parseHeader_pair in Hp as (key & value & ->). cbn [lookup list_lookup].
  unfold bind. change (bytes_of_string headerSeparator) with CRLF.
  destruct (readUntil_total buf) as (o & e & r & Hr). rewrite Hr.
  specialize (Hfuel eq_refl).
  apply IH.
  - lia.
  - intros ->. apply readUntil_consumes in Hr. lia.
  - unfold readUntil in Hr. apply readUntil_loop_status in Hr. tauto.
Qed.

Lemma readHeaders_total (buf : list byte) :
  exists h e r,
    readHeaders buf = Some ((h, e), r)
    /\ (e = None \/ e = Some io_EOF \/ e = Some (errors_New "invalid header line")).
Proof.
  unfold readHeaders, bind. change (bytes_of_string headerSeparator) with CRLF.
  destruct (readUntil_total buf) as (o & e & r & Hr). rewrite Hr.
  apply readHeaders_loop_total.
  - lia.
  - intros ->. apply readUntil_consumes in Hr. lia.
  - unfold readUntil in Hr. apply readUntil_loop_status in Hr. tauto.
Qed.

Lemma readHeaders_loop_fuel (fuel : nat) :
  forall headers headerRaw err buf r,
    readHeaders_loop fuel headers headerRaw err buf = Some r ->
    forall fuel', (fuel <= fuel')%nat ->
                  readHeaders_loop fuel' headers headerRaw err buf = Some r.
Proof.
  induction fuel as [|fuel IH]; intros headers headerRaw err buf r H fuel' Hle;
    [discriminate|].
  destruct fuel' as [|fuel']; [lia|].
  cbn [readHeaders_loop] in *.
  destruct err; [exact H|].
  destruct (String.eqb _ headerSeparator); [exact H|].
  destruct (parseHeader _) as [headerPair [e|]]; [exact H|].
  destruct (headerPair !! 0%nat); [|exact H].
  destruct (headerPair !! 1%nat); [|exact H].
  unfold bind in *.
  destruct (readUntil _ buf) as [[[raw' err'] buf']|]; [|discriminate].
  apply IH with (fuel' := fuel') in H; [exact H | lia].
Qed.

Lemma plain_line_not_blank (l : string) :
  plain l = true -> l <> EmptyString ->
  String.eqb (l +:+ headerSeparator) headerSeparator = false.
Proof.
  destruct l as [|c l]; [congruence|]. intros H _.
  rewrite plain_cons in H. apply andb_true_iff in H as [H _].
  unfold plain, in_cutset in H. cbn in H.
  change (String c l +:+ headerSeparator) with (String c (l +:+ headerSeparator)).
  unfold headerSeparator at 2. cbn [String.eqb].
  destruct (Ascii.eqb c CR); [discriminate | reflexivity].
Qed.

(** One turn of the loop of [readHeaders] on a header line. *)
Lemma readHeaders_loop_line fuel headers (l key value : string) buf :
  plain l = true -> l <> EmptyString ->
  parseHeader l = ([key; value], None) ->
  readHeaders_loop (S fuel) headers (bytes_of_string l ++ CRLF) None buf
  = (let* '(headerRaw, err) := readUntil CRLF in
     readHeaders_loop fuel (<[key := value]> headers) headerRaw err) buf.
Proof.
  intros Hplain Hne Hparse. cbn [readHeaders_loop].
  rewrite string_of_bytes_app, string_of_bytes_of_string.
  change (string_of_bytes CRLF) with headerSeparator.
  rewrite plain_line_not_blank by assumption.
  rewrite strings_TrimRight_app_cutset by reflexivity.
  rewrite plain_TrimRight by assumption.
  rewrite Hparse. reflexivity.
Qed.

Lemma readUntil_blank_line (tail : list byte) :
  readUntil CRLF (CRLF ++ tail) = Some ((CRLF, None), tail).
Proof. exact (readUntil_line [] tail eq_refl). Qed.

(** A block of two headers and its blank line. *)
Lemma readHeaders_two_lines (l1 k1 v1 l2 k2 v2 : string) (tail : list byte) :
  plain l1 = true -> l1 <> EmptyString -> parseHeader l1 = ([k1; v1], None) ->
  plain l2 = true -> l2 <> EmptyString -> parseHeader l2 = ([k2; v2], None) ->
  readHeaders (bytes_of_string l1 ++ CRLF ++ bytes_of_string l2 ++ CRLF ++ CRLF ++ tail)
  = Some ((<[k2 := v2]> (<[k1 := v1]> ∅), None), tail).
Proof.
  intros Hp1 Hn1 Hh1 Hp2 Hn2 Hh2.
  unfold readHeaders, bind. change (bytes_of_string headerSeparator) with CRLF.
  rewrite readUntil_line by now apply plain_has_delim.
  apply readHeaders_loop_fuel with (fuel := 3%nat);
    [|rewrite !length_app; cbn [length CRLF]; rewrite CRLF_eq; cbn [length]; lia].
  rewrite (readHeaders_loop_line _ _ l1 k1 v1) by assumption.
  unfold bind. rewrite readUntil_line by now apply plain_has_delim.
  rewrite (readHeaders_loop_line _ _ l2 k2 v2) by assumption.
  unfold bind. rewrite readUntil_blank_line.
  reflexivity.
Qed.

(** ** Decimal numbers *)

Lemma of_uint_acc_ge (d : Decimal.uint) : forall acc : positive,
  Z.pos acc <= Z.pos (Pos.of_uint_acc d acc).
Proof.
  induction d; intros acc; cbn [Pos.of_uint_acc]; try lia;
    (etransitivity; [|apply IHd]); lia.
Qed.

Lemma maxUint64_eq : maxUint64 = 18446744073709551615.
Proof. reflexivity. Qed.

(** One digit [k] read after the number [n], the result staying within
    [maxVal]. *)
Lemma ParseUint_loop_digit s0 maxVal n c k s :
  digit_val c = Some k ->
  0 <= n -> 0 <= k <= 9 ->
  n * 10 + k <= maxVal -> maxVal <= maxUint64 ->
  ParseUint_loop s0 maxVal n (String c s) = ParseUint_loop s0 maxVal (n * 10 + k) s.
Proof.
  intros Hc Hn Hk Hmax H64. rewrite maxUint64_eq in H64.
  cbn [ParseUint_loop]. rewrite Hc, maxUint64_eq.
  change (18446744073709551615 / 10 + 1) with 1844674407370955162.
  change (2 ^ 64) with 18446744073709551616.
  destruct (n >=? 1844674407370955162) eqn:E; [lia|].
  rewrite Z.mod_small by lia.
  destruct ((n * 10 + k <? n * 10) || (n * 10 + k >? maxVal)) eqn:E2; [|reflexivity].
  apply orb_true_iff in E2 as [E2|E2]; lia.
Qed.

Lemma ParseUint_loop_uint_acc s0 maxVal (d : Decimal.uint) : forall acc : positive,
  Z.pos (Pos.of_uint_acc d acc) <= maxVal -> maxVal <= maxUint64 ->
  ParseUint_loop s0 maxVal (Z.pos acc) (NilEmpty.string_of_uint d)
  = (Z.pos (Pos.of_uint_acc d acc), None).
Proof.
  induction d; intros acc Hmax H64;
    cbn [NilEmpty.string_of_uint Pos.of_uint_acc] in *; [reflexivity|..].
  all: match goal with
       | |- context [String ?c _] =>
           let k := eval cbv in (digit_val c) in
           match k with
           | Some ?k =>
               rewrite (ParseUint_loop_digit s0 maxVal (Z.pos acc) c k)
                 by (first [reflexivity | lia
                           | etransitivity; [|exact Hmax];
                             etransitivity; [|apply of_uint_acc_ge]; lia
                           | exact H64])
           end
       end.
  all: match goal with
       | |- ParseUint_loop _ _ ?n _ = (Z.pos (Pos.of_uint_acc _ ?a), None) =>
           replace n with (Z.pos a) by lia
       end.
  all: now apply IHd.
Qed.

Lemma ParseUint_loop_uint s0 maxVal (d : Decimal.uint) :
  Z.of_N (Pos.of_uint d) <= maxVal -> 0 <= maxVal <= maxUint64 ->
  ParseUint_loop s0 maxVal 0 (NilEmpty.string_of_uint d)
  = (Z.of_N (Pos.of_uint d), None).
Proof.
  induction d; intros Hmax H64;
    cbn [NilEmpty.string_of_uint Pos.of_uint] in *; [reflexivity|..].
  1: { rewrite (ParseUint_loop_digit s0 maxVal 0 "0" 0) by (reflexivity || lia).
       now apply IHd. }
  all: match goal with
       | |- context [String ?c _] =>
           let k := eval cbv in (digit_val c) in
           match k with
           | Some ?k =>
               rewrite (ParseUint_loop_digit s0 maxVal 0 c k)
                 by (first [reflexivity | lia
                           | etransitivity; [|exact Hmax];
                             etransitivity; [|apply of_uint_acc_ge]; lia])
           end
       end.
  all: cbn [Z.mul Z.add]; now apply ParseUint_loop_uint_acc.
Qed.

(** [strconv.ParseUint] reads back the decimal text of every number that
    fits [bitSize] bits. *)
Lemma ParseUint_fmt_d (n bitSize : Z) :
  0 <= bitSize <= 64 -> 0 <= n < 2 ^ bitSize ->
  strconv_ParseUint (fmt_d n) bitSize = (n, None).
Proof.
  intros Hb Hn. unfold strconv_ParseUint, fmt_d, NilZero.string_of_uint.
  assert (Hpow : 2 ^ bitSize <= 2 ^ 64) by (apply Z.pow_le_mono_r; lia).
  assert (Hval : Z.of_N (Pos.of_uint (N.to_uint (Z.to_N n))) = n).
  { change Pos.of_uint with N.of_uint. rewrite DecimalN.Unsigned.of_to. lia. }
  assert (Hloop :
            ParseUint_loop (NilEmpty.string_of_uint (N.to_uint (Z.to_N n)))
              (2 ^ bitSize - 1) 0 (NilEmpty.string_of_uint (N.to_uint (Z.to_N n)))
            = (n, None)).
  { rewrite ParseUint_loop_uint; rewrite ?Hval, ?maxUint64_eq;
      [reflexivity | lia | change (2 ^ 64) with 18446744073709551616 in Hpow; lia]. }
  destruct (N.to_uint (Z.to_N n)) eqn:Hd.
  - destruct (Z.to_N n); [discriminate|].
    cbn in Hd. pose proof (DecimalPos.Unsigned.to_uint_nonnil p). congruence.
  - exact Hloop. - exact Hloop. - exact Hloop. - exact Hloop. - exact Hloop.
  - exact Hloop. - exact Hloop. - exact Hloop. - exact Hloop. - exact Hloop.
Qed.

Lemma uint8_small (n : Z) : 0 <= n < 256 -> uint8 n = n.
Proof. intros H. unfold uint8. apply Z.mod_small. change (2 ^ 8) with 256. lia. Qed.

(** ** Package [uuid] *)

Lemma xtob_hex_char (b : byte) :
  xtob (hex_char (Z.shiftr (Z_of_byte b) 4)) (hex_char (Z.land (Z_of_byte b) 15))
  = Some b.
Proof. destruct b; vm_compute; reflexivity. Qed.

(** [uuid.Parse] reads back what [UUID.String] writes. *)
Lemma uuid_Parse_String (u : list byte) :
  length u = 16%nat -> uuid_Parse (UUID_String u) = inl u.
Proof.
  intros H.
  do 16 (destruct u as [|? u]; [discriminate|]). destruct u; [|discriminate].
  clear H. unfold UUID_String. cbn [firstn skipn]. unfold uuid_Parse.
  cbv -[xtob hex_char Z.shiftr Z.land Z_of_byte].
  rewrite !xtob_hex_char. reflexivity.
Qed.

(** [uuid.Parse] accepts every text of the canonical form. *)
Lemma uuid_Parse_canonical (s : string) :
  canonical_uuid_text s = true -> exists u, uuid_Parse s = inl u.
Proof.
  unfold canonical_uuid_text. intros H. apply andb_true_iff in H as [Hlen H].
  apply Nat.eqb_eq in Hlen.
  do 36 (destruct s as [|? s]; [discriminate|]). destruct s; [|discriminate].
  clear Hlen. cbn [list_ascii_of_string seq combine forallb existsb Nat.eqb orb] in H.
  unfold uuid_Parse. cbn [String.length Nat.eqb].
  unfold parse_hyphenated. cbn [string_drop head_is hex_bytes]. unfold xtob.
  repeat match type of H with
         | (_ && _) = true => apply andb_true_iff in H as [?H H]
         end.
  repeat match goal with
         | H : Ascii.eqb _ _ = true |- _ => rewrite H; clear H
         | H : is_some (hex_val ?c) = true |- _ =>
             destruct (hex_val c); [clear H | discriminate H]
         end.
  cbn. eauto.
Qed.

(** ** Package [net] *)

Lemma byte_of_Z_of_byte (b : byte) : byte_of_Z (Z_of_byte b) = b.
Proof. destruct b; reflexivity. Qed.

Lemma dtoi_loop_stop (n : Z) (i : nat) (rest : string) :
  starts_nondigit rest = true -> i <> 0%nat -> dtoi_loop n i rest = (n, i, true).
Proof.
  intros H Hi. destruct rest as [|c rest]; cbn [dtoi_loop].
  - destruct i; [congruence | reflexivity].
  - unfold starts_nondigit, is_digit in H. destruct (digit_val c); [discriminate|].
    destruct i; [congruence | reflexivity].
Qed.

Lemma string_drop_app (a rest : string) :
  string_drop (String.length a) (a +:+ rest) = rest.
Proof. induction a as [|c a IH]; [reflexivity | exact IH]. Qed.

Lemma string_take_app (a rest : string) :
  string_take (String.length a) (a +:+ rest) = a.
Proof.
  induction a as [|c a IH]; [reflexivity|].
  change (String c a +:+ rest) with (String c (a +:+ rest)).
  cbn [String.length string_take]. now rewrite IH.
Qed.

(** The decimal text of a byte, as [dtoi] and [parseIPv4] see it. *)
Lemma octet_text (b : byte) (rest : string) :
  starts_nondigit rest = true ->
  dtoi (fmt_d (Z_of_byte b) +:+ rest)
  = (Z_of_byte b, String.length (fmt_d (Z_of_byte b)), true)
  /\ is_empty (fmt_d (Z_of_byte b) +:+ rest) = false
  /\ ((1 <? String.length (fmt_d (Z_of_byte b)))%nat
      && head_is (fmt_d (Z_of_byte b) +:+ rest) "0") = false
  /\ (Z_of_byte b >? 255) = false.
Proof.
  intros H.
  assert (Hstop : forall n i, i <> 0%nat -> dtoi_loop n i rest = (n, i, true))
    by (intros; now apply dtoi_loop_stop).
  unfold dtoi.
  destruct b;
    match goal with
    | |- context [fmt_d ?z] =>
        let s := eval vm_compute in (fmt_d z) in
        change (fmt_d z) with s
    end;
    (split; [cbn; apply Hstop; discriminate | repeat split]).
Qed.

(** The first octet of a dotted address, and one that follows a dot. *)
Lemma parseIPv4_loop_first (todo : nat) (b : byte) (rest : string) :
  starts_nondigit rest = true ->
  parseIPv4_loop (S todo) true (fmt_d (Z_of_byte b) +:+ rest)
  = match parseIPv4_loop todo false rest with
    | Some (p, s') => Some (b :: p, s')
    | None => None
    end.
Proof.
  intros H. destruct (octet_text b rest H) as (Hdtoi & Hempty & Hzero & Hmax).
  cbn [parseIPv4_loop].
  rewrite Hempty. cbn [negb andb]. rewrite Hdtoi. cbn [negb orb].
  rewrite Hmax, Hzero, string_drop_app, byte_of_Z_of_byte. reflexivity.
Qed.

Lemma parseIPv4_loop_next (todo : nat) (b : byte) (rest : string) :
  starts_nondigit rest = true ->
  parseIPv4_loop (S todo) false ("." +:+ fmt_d (Z_of_byte b) +:+ rest)
  = match parseIPv4_loop todo false rest with
    | Some (p, s') => Some (b :: p, s')
    | None => None
    end.
Proof.
  intros H. destruct (octet_text b rest H) as (Hdtoi & Hempty & Hzero & Hmax).
  cbn [parseIPv4_loop].
  change ("." +:+ ?s) with (String "." s).
  cbn [is_empty head_is negb andb string_drop].
  change (Ascii.eqb "." ".") with true. cbn [negb].
  rewrite Hdtoi. cbn [negb orb].
  rewrite Hmax, Hzero, string_drop_app, byte_of_Z_of_byte. reflexivity.
Qed.

Lemma parseIPv4_dotted (a b c d : byte) :
  parseIPv4 (dotted a b c d) = Some (net_IPv4 a b c d).
Proof.
  unfold parseIPv4, IPv4len, dotted.
  rewrite (parseIPv4_loop_first 3 a) by reflexivity.
  rewrite (parseIPv4_loop_next 2 b) by reflexivity.
  rewrite (parseIPv4_loop_next 1 c) by reflexivity.
  rewrite <- (append_nil_r (fmt_d (Z_of_byte d))).
  rewrite (parseIPv4_loop_next 0 d) by reflexivity.
  reflexivity.
Qed.

Lemma IP_String_IPv4 (a b c d : byte) :
  IP_String (net_IPv4 a b c d) = dotted a b c d.
Proof. reflexivity. Qed.

Lemma all_chars_app p (a b : string) :
  all_chars p (a +:+ b) = all_chars p a && all_chars p b.
Proof. unfold all_chars. now rewrite list_ascii_of_string_app, forallb_app. Qed.

Lemma all_chars_weaken (p q : ascii -> bool) (s : string) :
  (forall c, p c = true -> q c = true) ->
  all_chars p s = true -> all_chars q s = true.
Proof.
  intros Hpq. unfold all_chars. rewrite !forallb_forall. auto.
Qed.

Lemma dotted_host_chars (a b c d : byte) : all_chars host_char (dotted a b c d) = true.
Proof.
  unfold dotted. rewrite !all_chars_app.
  assert (H : forall n, all_chars host_char (fmt_d n) = true).
  { intros n. apply all_chars_weaken with is_digit; [|apply fmt_d_digits].
    intros x Hx. unfold host_char. now rewrite Hx. }
  rewrite !H. reflexivity.
Qed.

Lemma is_digit_not (c x : ascii) :
  is_digit c = true -> is_digit x = false -> Ascii.eqb c x = false.
Proof.
  intros Hc Hx. destruct (Ascii.eqb c x) eqn:E; [|reflexivity].
  apply Ascii.eqb_eq in E. congruence.
Qed.

Lemma host_char_not (c x : ascii) :
  host_char c = true -> host_char x = false -> Ascii.eqb c x = false.
Proof.
  intros Hc Hx. destruct (Ascii.eqb c x) eqn:E; [|reflexivity].
  apply Ascii.eqb_eq in E. congruence.
Qed.

Lemma IndexByteString_none (p : ascii -> bool) (s : string) (x : ascii) :
  all_chars p s = true -> p x = false -> IndexByteString s x = None.
Proof.
  unfold all_chars. intros H Hx. induction s as [|c s IH]; [reflexivity|].
  cbn [list_ascii_of_string forallb] in H. apply andb_true_iff in H as [Hc Hs].
  cbn [IndexByteString].
  destruct (Ascii.eqb c x) eqn:E; [apply Ascii.eqb_eq in E; congruence|].
  now rewrite IH.
Qed.

Lemma last_index_none (p : ascii -> bool) (s : string) (x : ascii) :
  all_chars p s = true -> p x = false -> last_index s x = None.
Proof.
  unfold all_chars. intros H Hx. induction s as [|c s IH]; [reflexivity|].
  cbn [list_ascii_of_string forallb] in H. apply andb_true_iff in H as [Hc Hs].
  cbn [last_index]. rewrite IH by exact Hs.
  destruct (Ascii.eqb c x) eqn:E; [apply Ascii.eqb_eq in E; congruence|].
  reflexivity.
Qed.

Lemma last_index_app (host port : string) (x : ascii) :
  last_index port x = None ->
  last_index (host +:+ String x port) x = Some (String.length host).
Proof.
  intros H. induction host as [|c host IH].
  - change (EmptyString +:+ ?s) with s. cbn [last_index]. rewrite H.
    now rewrite Ascii.eqb_refl.
  - change (String c host +:+ ?s) with (String c (host +:+ s)).
    cbn [last_index String.length]. now rewrite IH.
Qed.

Lemma head_is_none (p : ascii -> bool) (s : string) (x : ascii) :
  all_chars p s = true -> p x = false -> head_is s x = false.
Proof.
  unfold all_chars. destruct s as [|c s]; [reflexivity|].
  cbn [list_ascii_of_string forallb head_is]. intros H Hx.
  apply andb_true_iff in H as [Hc _].
  destruct (Ascii.eqb c x) eqn:E; [apply Ascii.eqb_eq in E; congruence|].
  reflexivity.
Qed.

Lemma string_drop_S_app (host port : string) (x : ascii) :
  string_drop (S (String.length host)) (host +:+ String x port) = port.
Proof. induction host as [|c host IH]; [reflexivity | exact IH]. Qed.

(** [net.SplitHostPort] on a dotted address, a colon and a decimal port. *)
Lemma SplitHostPort_dotted (host port : string) :
  all_chars host_char host = true ->
  all_chars is_digit port = true ->
  net_SplitHostPort (host +:+ ":" +:+ port) = (host, port, None).
Proof.
  intros Hhost Hport.
  pose (p := fun c => host_char c || Ascii.eqb c ":").
  assert (Hall : all_chars p (host +:+ ":" +:+ port) = true).
  { rewrite !all_chars_app. 
    rewrite (all_chars_weaken host_char p host), (all_chars_weaken is_digit p port);
      try assumption; try reflexivity.
    - intros c Hc. unfold p, host_char. now rewrite Hc.
    - intros c Hc. unfold p. now rewrite Hc. }
  unfold net_SplitHostPort.
  change (host +:+ ":" +:+ port) with (host +:+ String ":" port).
  rewrite last_index_app by (now apply last_index_none with is_digit).
  rewrite (head_is_none p) by (exact Hall || reflexivity).
  rewrite string_take_app.
  rewrite (IndexByteString_none host_char host ":") by (assumption || reflexivity).
  rewrite string_drop_S_app.
  change (string_drop 0 ?s) with s.
  rewrite (IndexByteString_none p _ "[") by (exact Hall || reflexivity).
  rewrite (IndexByteString_none p _ "]") by (exact Hall || reflexivity).
  reflexivity.
Qed.

Lemma ParseIP_scan_digits (s0 digits rest : string) :
  all_chars is_digit digits = true ->
  ParseIP_scan s0 (digits +:+ String "." rest) = parseIPv4 s0.
Proof.
  unfold all_chars. intros H. induction digits as [|c digits IH]; [reflexivity|].
  cbn [list_ascii_of_string forallb] in H. apply andb_true_iff in H as [Hc Hs].
  change (String c digits +:+ ?s) with (String c (digits +:+ s)).
  cbn [ParseIP_scan].
  rewrite (is_digit_not c ".") by (exact Hc || reflexivity).
  rewrite (is_digit_not c ":") by (exact Hc || reflexivity).
  now apply IH.
Qed.

Lemma ParseIP_dotted (a b c d : byte) :
  net_ParseIP (dotted a b c d) = Some (net_IPv4 a b c d).
Proof.
  unfold net_ParseIP. rewrite <- parseIPv4_dotted.
  unfold dotted at 2. apply ParseIP_scan_digits, fmt_d_digits.
Qed.

Lemma uint16_small (n : Z) : 0 <= n < 65536 -> uint16 n = n.
Proof. intros H. unfold uint16. apply Z.mod_small. change (2 ^ 16) with 65536. lia. Qed.

Lemma plain_dotted (a b c d : byte) : plain (dotted a b c d) = true.
Proof. unfold dotted. rewrite !plain_app, !plain_fmt_d. reflexivity. Qed.

(** The header block of a discovery packet. *)
Lemma readHeaders_discovery (type : string) (a b c d : byte) (port : Z) :
  plain type = true ->
  parseHeader ("TYPE: " +:+ type) = (["TYPE"; type], None) ->
  readHeaders
    (bytes_of_string "TYPE: " ++ bytes_of_string type ++ CRLF
       ++ bytes_of_string "HOST: " ++ bytes_of_string (dotted a b c d)
       ++ bytes_of_string ":" ++ bytes_of_string (fmt_d port)
       ++ CRLF ++ CRLF)
  = Some ((<["HOST" := dotted a b c d +:+ ":" +:+ fmt_d port]>
             (<["TYPE" := type]> ∅), None), []).
Proof.
  intros Hplain Hparse.
  pose proof (readHeaders_two_lines
                ("TYPE: " +:+ type) "TYPE" type
                ("HOST: " +:+ dotted a b c d +:+ ":" +:+ fmt_d port) "HOST"
                (dotted a b c d +:+ ":" +:+ fmt_d port) []) as H.
  rewrite !bytes_of_string_app, <- !app_assoc, app_nil_r in H.
  apply H.
  - rewrite plain_app, Hplain. reflexivity.
  - discriminate.
  - exact Hparse.
  - rewrite !plain_app, plain_fmt_d, plain_dotted. reflexivity.
  - discriminate.
  - reflexivity.
Qed.

(** ** [ParsePacket]: the first line *)

Section CodecProperties.

Context (json_Marshal : option (gmap string Value) -> string + string).
Context (json_Unmarshal : list byte -> option (gmap string Value) + string).

Lemma ParsePacket_line (line rest : list byte) :
  has_delim line = false ->
  ParsePacket json_Unmarshal (line ++ CRLF ++ rest)
  = dispatch json_Unmarshal
      (strings_TrimRight (string_of_bytes line) headerSeparator) rest.
Proof.
  intros H. unfold ParsePacket, bind.
  change (bytes_of_string headerSeparator) with CRLF.
  rewrite readUntil_line by exact H. now rewrite first_line_trimmed.
Qed.

Lemma ParsePacket_no_delim (buf : list byte) :
  has_delim buf = false ->
  ParsePacket json_Unmarshal buf = Some ((None, Some io_EOF), []).
Proof.
  intros H. unfold ParsePacket, bind.
  change (bytes_of_string headerSeparator) with CRLF.
  now rewrite readUntil_no_delim by exact H.
Qed.

(** C4. The response packet of the test-suite parses to a
    [DiscoveryPacket] with address 127.0.0.1, port 8400 and the type
    [RUNNING-APP]. *)
Theorem ParsePacket_running_app :
  ParsePacket json_Unmarshal
    (bytes_of_string
       ("DYLLABLE-DISCOVERY" +:+ headerSeparator
          +:+ "TYPE: RUNNING-APP" +:+ headerSeparator
          +:+ "HOST: 127.0.0.1:8400" +:+ headerSeparator
          +:+ headerSeparator))
  = Some ((Some (PDiscovery {| Address := net_IPv4 x7f x00 x00 x01;
                               Port := 8400;
                               Type_ := responseDiscoveryType |}),
           None), []).
Proof. vm_compute. reflexivity. Qed.


Lemma ParsePacket_identifier_line (id : string) (rest : list byte) :
  has_delim (bytes_of_string id) = false ->
  strings_TrimRight id headerSeparator = id ->
  ParsePacket json_Unmarshal (bytes_of_string id ++ CRLF ++ rest)
  = dispatch json_Unmarshal id rest.
Proof.
  intros Hd Ht. rewrite ParsePacket_line by exact Hd.
  now rewrite string_of_bytes_of_string, Ht.
Qed.

Lemma ParsePacket_discovery_line (rest : list byte) :
  ParsePacket json_Unmarshal (bytes_of_string discoveryIdentifier ++ CRLF ++ rest)
  = parseDiscovery rest.
Proof. now rewrite ParsePacket_identifier_line. Qed.

Lemma ParsePacket_request_line (rest : list byte) :
  ParsePacket json_Unmarshal (bytes_of_string requestActionIdentifier ++ CRLF ++ rest)
  = parseRequestAction json_Unmarshal rest.
Proof. now rewrite ParsePacket_identifier_line. Qed.

(** C9, as the code has it. When the delimiter occurs in the buffer,
    [ParsePacket] takes the first line, up to the first delimiter, removes
    every trailing CR and LF from it and compares what is left, character
    by character, with the three identifiers: it goes on with the matching
    case, and returns the unknown-identifier error when none matches. When
    no delimiter occurs in the buffer it returns [io.EOF]. *)
Theorem ParsePacket_identifier (buf : list byte) :
  (has_delim buf = false ->
   ParsePacket json_Unmarshal buf = Some ((None, Some io_EOF), []))
  /\ forall line rest,
       buf = line ++ CRLF ++ rest ->
       has_delim line = false ->
       let id := strings_TrimRight (string_of_bytes line) headerSeparator in
       let result := ParsePacket json_Unmarshal buf in
       (id = requestActionIdentifier ->
        result = parseRequestAction json_Unmarshal rest)
       /\ (id = responseActionIdentifier -> result = Some ((None, None), rest))
       /\ (id = discoveryIdentifier -> result = parseDiscovery rest)
       /\ (id <> requestActionIdentifier ->
           id <> responseActionIdentifier ->
           id <> discoveryIdentifier ->
           exists e,
             result = Some ((None, Some e), rest)
             /\ e = errors_New "malformed packet: identifier not knwon"
             /\ error_kind e = UnknownIdentifier).
Proof.
  split; [apply ParsePacket_no_delim|].
  intros line rest -> Hline id result. subst result.
  rewrite ParsePacket_line by exact Hline. fold id. unfold dispatch.
  repeat split.
  - now intros ->.
  - now intros ->.
  - now intros ->.
  - intros H1 H2 H3.
    apply String.eqb_neq in H1, H2, H3. rewrite H1, H2, H3.
    eexists. split; [reflexivity|]. split; reflexivity.
Qed.

(** ** [ParsePacket]: discovery packets *)


(** ** [ParsePacket]: action requests *)

Lemma ParseUint_loop_range s0 maxVal s : forall n a,
  0 <= n <= maxVal ->
  ParseUint_loop s0 maxVal n s = (a, None) ->
  0 <= a <= maxVal.
Proof.
  induction s as [|c s IH]; intros n a Hn; cbn [ParseUint_loop].
  - now intros [= <-].
  - destruct (digit_val c) as [d|]; [|discriminate].
    destruct (n >=? maxUint64 / 10 + 1); [discriminate|].
    destruct ((((n * 10 + d) mod 2 ^ 64) <? n * 10)
              || (((n * 10 + d) mod 2 ^ 64) >? maxVal)) eqn:E; [discriminate|].
    apply IH. apply orb_false_iff in E as [_ E].
    assert (0 <= (n * 10 + d) mod 2 ^ 64) by (apply Z.mod_pos_bound; lia).
    lia.
Qed.

(** A number that [strconv.ParseUint(s, 10, bitSize)] accepts fits
    [bitSize] bits. *)
Lemma strconv_ParseUint_range s bitSize a :
  0 <= bitSize ->
  strconv_ParseUint s bitSize = (a, None) ->
  0 <= a <= 2 ^ bitSize - 1.
Proof.
  intros Hb. unfold strconv_ParseUint. destruct s as [|c s]; [discriminate|].
  apply ParseUint_loop_range.
  assert (0 < 2 ^ bitSize) by (apply Z.pow_pos_nonneg; lia). lia.
Qed.

(** C6, as the code has it. After the line [DYLLABLE-ACTION-REQUEST CRLF],
    [ParsePacket] either returns an error, or it has read a header block
    with a [REQUEST-UUID] that [uuid.Parse] accepts and an [ACTION-ID] that
    parses as an unsigned number of 8 bits, and returns a request with
    these two; a header block read without error is rejected when
    [REQUEST-UUID] is missing or not accepted by [uuid.Parse], and when
    [ACTION-ID] is missing or does not parse as such a number. The canonical
    text of a UUID is one of the forms [uuid.Parse] accepts. *)
Theorem ParsePacket_request_headers (rest : list byte) :
  let result :=
    ParsePacket json_Unmarshal
      (bytes_of_string requestActionIdentifier ++ CRLF ++ rest) in
  (((exists e rest', result = Some ((None, Some e), rest'))
   \/ (exists headers rest' uuidString requestUUID actionString actionId
         parameters rest'',
         readHeaders rest = Some ((headers, None), rest')
         /\ headers !! "REQUEST-UUID" = Some uuidString
         /\ uuid_Parse uuidString = inl requestUUID
         /\ headers !! "ACTION-ID" = Some actionString
         /\ strconv_ParseUint actionString 8 = (actionId, None)
         /\ 0 <= actionId <= 255
         /\ result
            = Some ((Some (PRequestAction {| RequestUUID := requestUUID;
                                             ActionId := actionId;
                                             Parameters := parameters |}),
                     None), rest'')))
  /\ forall headers rest',
       readHeaders rest = Some ((headers, None), rest') ->
       (headers !! "REQUEST-UUID" = None ->
        result = Some ((None, Some (header_not_found "REQUEST-UUID")), rest'))
       /\ forall uuidString,
            headers !! "REQUEST-UUID" = Some uuidString ->
            (forall e, uuid_Parse uuidString = inr e ->
                       result = Some ((None, Some e), rest'))
            /\ forall requestUUID,
                 uuid_Parse uuidString = inl requestUUID ->
                 (headers !! "ACTION-ID" = None ->
                  result = Some ((None, Some (header_not_found "ACTION-ID")), rest'))
                 /\ forall actionString n e,
                      headers !! "ACTION-ID" = Some actionString ->
                      strconv_ParseUint actionString 8 = (n, Some e) ->
                      result = Some ((None, Some e), rest'))
  /\ forall uuidString,
       canonical_uuid_text uuidString = true ->
       exists requestUUID, uuid_Parse uuidString = inl requestUUID.
Proof.
  intros result. subst result. rewrite ParsePacket_request_line.
  unfold parseRequestAction, bind. split; [split|apply uuid_Parse_canonical].
  - destruct (readHeaders_total rest) as (h & e & r & Hread & _). rewrite Hread.
    destruct e as [e|]; [left; unfold ret; eauto|].
    destruct (h !! "REQUEST-UUID") as [uuidString|] eqn:Hu;
      [|left; unfold ret; eauto].
    destruct (uuid_Parse uuidString) as [requestUUID|e] eqn:Hp;
      [|left; unfold ret; eauto].
    destruct (h !! "ACTION-ID") as [actionString|] eqn:Ha;
      [|left; unfold ret; eauto].
    destruct (strconv_ParseUint actionString 8) as [actionId [e|]] eqn:Hn;
      [left; unfold ret; eauto|].
    pose proof (strconv_ParseUint_range actionString 8 actionId ltac:(lia) Hn) as Hrange.
    change (2 ^ 8 - 1) with 255 in Hrange.
    assert (Hid : uint8 actionId = actionId)
      by (unfold uint8; apply Z.mod_small; lia).
    rewrite Hid.
    change (bytes_of_string headerSeparator) with CRLF.
    destruct (readUntil_total r) as (line & status & r' & Hline). rewrite Hline.
    destruct status as [e|].
    + right. unfold ret. repeat eexists; eauto; lia.
    + destruct (json_Unmarshal line) as [parameters|msg].
      * right. unfold ret. repeat eexists; eauto; lia.
      * left. unfold ret. eauto.
  - intros headers rest' ->. split; [now intros ->|].
    intros uuidString ->. split; [now intros e ->|].
    intros requestUUID ->. split; [now intros ->|].
    now intros actionString n e -> ->.
Qed.

(** C7, as the code has it. After the line [DYLLABLE-ACTION-REQUEST CRLF]
    and a header block with an accepted [REQUEST-UUID] and [ACTION-ID]:
    when no delimiter occurs in what is left (nothing, or bytes without a
    delimiter, which are dropped), the lexer reports the stream exhausted
    and [ParsePacket] returns a request without parameters and no error;
    when a further line is there, it is handed to [json.Unmarshal], and
    [ParsePacket] returns a request whose parameters are what the decoder
    made of the line, or, when the decoder rejects the line, its error,
    which reports a malformed packet. What the decoder accepts need not be
    an object: with a decoder that takes the literal [null] as
    [encoding/json] does (no error, the map left [nil]), the line [null]
    gives a request without parameters and no error. *)
Theorem ParsePacket_request_body (rest : list byte)
  (headers : gmap string string) (rest' : list byte)
  (uuidString actionString : string) (requestUUID : list byte) (actionId : Z) :
  readHeaders rest = Some ((headers, None), rest') ->
  headers !! "REQUEST-UUID" = Some uuidString ->
  uuid_Parse uuidString = inl requestUUID ->
  headers !! "ACTION-ID" = Some actionString ->
  strconv_ParseUint actionString 8 = (actionId, None) ->
  let result :=
    ParsePacket json_Unmarshal
      (bytes_of_string requestActionIdentifier ++ CRLF ++ rest) in
  let request (parameters : option (gmap string Value)) :=
    PRequestAction {| RequestUUID := requestUUID;
                      ActionId := actionId;
                      Parameters := parameters |} in
  (has_delim rest' = false ->
   readUntil CRLF rest' = Some ((rest', Some io_EOF), [])
   /\ error_kind io_EOF = StreamExhausted
   /\ result = Some ((Some (request None), None), []))
  /\ (forall line rest'',
       rest' = line ++ CRLF ++ rest'' ->
       has_delim line = false ->
       match json_Unmarshal (line ++ CRLF) with
       | inl parameters => result = Some ((Some (request parameters), None), rest'')
       | inr msg =>
           result = Some ((None, Some (json_Error msg)), rest'')
           /\ error_kind (json_Error msg) = MalformedPacket
       end)
  /\ (json_Unmarshal (bytes_of_string "null" ++ CRLF) = inl None ->
      forall rest'',
        rest' = bytes_of_string "null" ++ CRLF ++ rest'' ->
        result = Some ((Some (request None), None), rest'')).
Proof.
  intros Hread Hu Hp Ha Hn result request. subst result request.
  rewrite ParsePacket_request_line.
  unfold parseRequestAction, bind. rewrite Hread, Hu, Hp, Ha, Hn.
  pose proof (strconv_ParseUint_range actionString 8 actionId ltac:(lia) Hn) as Hrange.
  change (2 ^ 8 - 1) with 255 in Hrange.
  assert (Hid : uint8 actionId = actionId)
    by (unfold uint8; apply Z.mod_small; lia).
  rewrite Hid. change (bytes_of_string headerSeparator) with CRLF.
  split; [|split].
  - intros Hd. rewrite readUntil_no_delim by exact Hd. now repeat split.
  - intros line rest'' -> Hd. rewrite readUntil_line by exact Hd.
    destruct (json_Unmarshal (line ++ CRLF)); [reflexivity | now split].
  - intros Hnull rest'' ->. rewrite readUntil_line by reflexivity.
    now rewrite Hnull.
Qed.

(** ** [ParsePacket]: action responses *)

Lemma ParsePacket_response_line (rest : list byte) :
  ParsePacket json_Unmarshal (bytes_of_string responseActionIdentifier ++ CRLF ++ rest)
  = Some ((None, None), rest).
Proof. now rewrite ParsePacket_identifier_line. Qed.

(** C10. Whatever follows the line [DYLLABLE-ACTION-RESPONSE CRLF],
    [ParsePacket] returns a [nil] packet and a [nil] error (and leaves what
    follows unread). *)
Theorem ParsePacket_response_nil_nil (rest : list byte) :
  ParsePacket json_Unmarshal
    (bytes_of_string "DYLLABLE-ACTION-RESPONSE" ++ CRLF ++ rest)
  = Some ((None, None), rest).
Proof. apply ParsePacket_response_line. Qed.

(** C8, on the code. [ResponseActionPacket.String] writes the flag as
    [True] or [False] (or returns the error of [json.Marshal]); on the way
    back the value of [APPROVED] is never looked at: whatever it is ([true],
    [FAlse], ...), parsing the response packet returns no error, and no
    packet either. *)
Theorem ParsePacket_response_approved_unchecked (approved : string) :
  (forall response : ResponseActionPacket,
      match json_Marshal (Content response) with
      | inl contentJSON =>
          ResponseActionPacket_String json_Marshal response
          = (spec_frame "DYLLABLE-ACTION-RESPONSE"
               ("REQUEST-UUID: " +:+ UUID_String (ResponseRequestUUID response))
               ("APPROVED: " +:+ (if Approved response then "True" else "False"))
               (match Content response with
                | Some _ => Some contentJSON
                | None => None
                end), None)
      | inr msg =>
          ResponseActionPacket_String json_Marshal response
          = (EmptyString, Some (json_Error msg))
      end)
  /\ let headers :=
       "REQUEST-UUID: 123e4567-e89b-12d3-a456-426614174000" +:+ headerSeparator
         +:+ "APPROVED: " +:+ approved +:+ headerSeparator +:+ headerSeparator in
     ParsePacket json_Unmarshal
       (bytes_of_string ("DYLLABLE-ACTION-RESPONSE" +:+ headerSeparator +:+ headers))
     = Some ((None, None), bytes_of_string headers).
Proof.
  split.
  - intros response. unfold ResponseActionPacket_String.
    destruct (json_Marshal (Content response)) as [contentJSON|msg]; [|reflexivity].
    unfold spec_frame, strings_Join. cbn [String.concat].
    destruct (Content response); rewrite !append_assoc, ?append_nil_r; reflexivity.
  - intros headers. rewrite !bytes_of_string_app.
    apply ParsePacket_response_line.
Qed.

(** ** Serialisation *)

(** C3. When [json.Marshal] encodes the body, the wire form of a request
    and of a response action packet is the identifier and the two headers,
    each on its line, then one blank line, and then the JSON text and one
    more blank line exactly when the body is not [nil] (an empty map is not
    [nil]); for the parameters of the test-suite, action 1 and a UUID [u],
    the bytes are those of the specification. *)
Theorem action_packet_framing
  (request : RequestActionPacket) (response : ResponseActionPacket)
  (requestJSON responseJSON : string) (u : list byte) :
  json_Marshal (Parameters request) = inl requestJSON ->
  json_Marshal (Content response) = inl responseJSON ->
  json_Marshal (Some example_parameters) = inl example_json ->
  RequestActionPacket_String json_Marshal request
  = (spec_frame "DYLLABLE-ACTION-REQUEST"
       ("REQUEST-UUID: " +:+ UUID_String (RequestUUID request))
       ("ACTION-ID: " +:+ fmt_d (ActionId request))
       (match Parameters request with
        | Some _ => Some requestJSON
        | None => None
        end), None)
  /\ ResponseActionPacket_String json_Marshal response
     = (spec_frame "DYLLABLE-ACTION-RESPONSE"
          ("REQUEST-UUID: " +:+ UUID_String (ResponseRequestUUID response))
          ("APPROVED: " +:+ (if Approved response then "True" else "False"))
          (match Content response with
           | Some _ => Some responseJSON
           | None => None
           end), None)
  /\ RequestActionPacket_String json_Marshal
       {| RequestUUID := u; ActionId := 1; Parameters := Some example_parameters |}
     = ("DYLLABLE-ACTION-REQUEST" +:+ headerSeparator
          +:+ "REQUEST-UUID: " +:+ UUID_String u +:+ headerSeparator
          +:+ "ACTION-ID: 1" +:+ headerSeparator
          +:+ headerSeparator
          +:+ "{" +:+ quoted "key" +:+ ":" +:+ quoted "value" +:+ ","
          +:+ quoted "key2" +:+ ":10," +:+ quoted "key3" +:+ ":true,"
          +:+ quoted "key4" +:+ ":15.7}" +:+ headerSeparator
          +:+ headerSeparator, None).
Proof.
  intros Hreq Hresp Hex. unfold RequestActionPacket_String, ResponseActionPacket_String.
  rewrite Hreq, Hresp. cbn [Parameters RequestUUID ActionId]. rewrite Hex.
  unfold spec_frame, strings_Join, example_json. cbn [String.concat].
  repeat split.
  - destruct (Parameters request); rewrite !append_assoc, ?append_nil_r; reflexivity.
  - destruct (Content response); rewrite !append_assoc, ?append_nil_r; reflexivity.
  - rewrite !append_assoc. reflexivity.
Qed.

(** ** Round trips *)

(** The bytes of a [ResponseActionPacket] never parse back to a packet: when
    the packet serialises, [ParsePacket] returns [nil] and [nil] on its
    bytes. *)
Lemma response_packet_not_reparsed (response : ResponseActionPacket) :
  match ResponseActionPacket_Bytes json_Marshal response with
  | (data, None) =>
      exists rest, ParsePacket json_Unmarshal data = Some ((None, None), rest)
  | (_, Some _) => True
  end.
Proof.
  unfold ResponseActionPacket_Bytes, ResponseActionPacket_String.
  destruct (json_Marshal (Content response)) as [contentJSON|msg]; [|exact I].
  unfold strings_Join. cbn [String.concat].
  destruct (Content response);
    rewrite !append_assoc, !bytes_of_string_app;
    eexists; apply ParsePacket_response_line.
Qed.

(** A request packet is read back from its bytes, when the codec reads back
    the JSON line it wrote and that line holds no CR or LF. Of a packet
    with a body, the last blank line is left unread. *)
Lemma request_packet_reparsed (packet : RequestActionPacket) (parametersJSON : string) :
  length (RequestUUID packet) = 16%nat ->
  0 <= ActionId packet < 256 ->
  json_Marshal (Parameters packet) = inl parametersJSON ->
  (Parameters packet <> None ->
   plain parametersJSON = true
   /\ json_Unmarshal (bytes_of_string parametersJSON ++ CRLF) = inl (Parameters packet)) ->
  exists data,
    RequestActionPacket_Bytes json_Marshal packet = (data, None)
    /\ ParsePacket json_Unmarshal data
       = Some ((Some (PRequestAction packet), None),
               match Parameters packet with Some _ => CRLF | None => [] end).
Proof.
  intros Hlen Hid Hmarshal Hjson.
  destruct packet as [u a parameters]. cbn [RequestUUID ActionId Parameters] in *.
  unfold RequestActionPacket_Bytes, RequestActionPacket_String.
  cbn [RequestUUID ActionId Parameters]. rewrite Hmarshal.
  eexists. split; [reflexivity|].
  unfold strings_Join. cbn [String.concat].
  assert (Hheaders : forall tail,
             readHeaders
               (bytes_of_string ("REQUEST-UUID: " +:+ UUID_String u) ++ CRLF
                  ++ bytes_of_string ("ACTION-ID: " +:+ fmt_d a) ++ CRLF ++ CRLF ++ tail)
             = Some ((<["ACTION-ID" := fmt_d a]>
                        (<["REQUEST-UUID" := UUID_String u]> ∅), None), tail)).
  { intros tail.
    apply (readHeaders_two_lines
             ("REQUEST-UUID: " +:+ UUID_String u) "REQUEST-UUID" (UUID_String u)
             ("ACTION-ID: " +:+ fmt_d a) "ACTION-ID" (fmt_d a)).
    - rewrite plain_app, plain_UUID_String. reflexivity.
    - discriminate.
    - reflexivity.
    - rewrite plain_app, plain_fmt_d. reflexivity.
    - discriminate.
    - reflexivity. }
  assert (Hparse : forall tail,
             parseRequestAction json_Unmarshal
               (bytes_of_string ("REQUEST-UUID: " +:+ UUID_String u) ++ CRLF
                  ++ bytes_of_string ("ACTION-ID: " +:+ fmt_d a) ++ CRLF ++ CRLF ++ tail)
             = (let* '(parametersBytes, err) := readUntil CRLF in
                match err with
                | None =>
                    match json_Unmarshal parametersBytes with
                    | inr msg => ret (None, Some (json_Error msg))
                    | inl parametersJSON =>
                        ret (Some (PRequestAction
                                     {| RequestUUID := u; ActionId := a;
                                        Parameters := parametersJSON |}), None)
                    end
                | Some _ =>
                    ret (Some (PRequestAction
                                 {| RequestUUID := u; ActionId := a;
                                    Parameters := None |}), None)
                end) tail).
  { intros tail. unfold parseRequestAction, bind. rewrite Hheaders.
    rewrite lookup_insert_ne by discriminate. rewrite lookup_insert_eq.
    rewrite uuid_Parse_String by exact Hlen.
    rewrite lookup_insert_eq.
    rewrite ParseUint_fmt_d by (change (2 ^ 8) with 256; lia).
    rewrite uint8_small by exact Hid. reflexivity. }
  destruct parameters as [m|].
  - destruct Hjson as [Hplain Hread]; [discriminate|].
    rewrite !append_assoc.
    change ("DYLLABLE-ACTION-REQUEST" +:+ ?s)
      with (requestActionIdentifier +:+ s).
    rewrite !bytes_of_string_app.
    change (bytes_of_string headerSeparator) with CRLF.
    change (bytes_of_string endPacket) with CRLF.
    rewrite ParsePacket_request_line.
    specialize (Hparse (bytes_of_string parametersJSON ++ CRLF ++ CRLF)).
    rewrite !bytes_of_string_app, <- !app_assoc in Hparse. rewrite Hparse.
    unfold bind. rewrite readUntil_line by now apply plain_has_delim.
    rewrite Hread. reflexivity.
  - rewrite !append_assoc.
    rewrite !bytes_of_string_app.
    change (bytes_of_string headerSeparator) with CRLF.
    change (bytes_of_string endPacket) with CRLF.
    rewrite ParsePacket_request_line.
    specialize (Hparse []).
    rewrite !bytes_of_string_app, <- !app_assoc, app_nil_r in Hparse.
    rewrite Hparse. reflexivity.
Qed.


(** A discovery packet made by one of the two constructors for an IPv4
    address is read back from its bytes. *)
Lemma discovery_packet_reparsed (a b c d : byte) (port : Z) (packet : DiscoveryPacket) :
  0 <= port < 65536 ->
  packet = NewRequestDiscoveryPacket (net_IPv4 a b c d) port
  \/ packet = NewResponseDiscoveryPacket (net_IPv4 a b c d) port ->
  exists data,
    DiscoveryPacket_Bytes packet = (data, None)
    /\ ParsePacket json_Unmarshal data = Some ((Some (PDiscovery packet), None), []).
Proof.
  intros Hport Hpacket.
  unfold DiscoveryPacket_Bytes, DiscoveryPacket_String.
  eexists. split; [reflexivity|].
  assert (Hparse : forall type,
             plain type = true ->
             parseHeader ("TYPE: " +:+ type) = (["TYPE"; type], None) ->
             parseDiscovery
               (bytes_of_string "TYPE: " ++ bytes_of_string type ++ CRLF
                  ++ bytes_of_string "HOST: " ++ bytes_of_string (dotted a b c d)
                  ++ bytes_of_string ":" ++ bytes_of_string (fmt_d port)
                  ++ CRLF ++ CRLF)
             = (if String.eqb type requestDiscoveryType then
                  ret (Some (PDiscovery (NewRequestDiscoveryPacket (net_IPv4 a b c d) port)),
                       None)
                else if String.eqb type responseDiscoveryType then
                  ret (Some (PDiscovery (NewResponseDiscoveryPacket (net_IPv4 a b c d) port)),
                       None)
                else
                  ret (None,
                       Some (errors_New
                               ("malformed packet: type " +:+ dquote +:+ type
                                  +:+ dquote +:+ " not supported")))) []).
  { intros type Hplain Hheader. unfold parseDiscovery, bind.
    rewrite readHeaders_discovery by assumption.
    rewrite lookup_insert_ne by discriminate. rewrite lookup_insert_eq.
    rewrite lookup_insert_eq.
    rewrite SplitHostPort_dotted by (apply dotted_host_chars || apply fmt_d_digits).
    rewrite ParseIP_dotted.
    rewrite ParseUint_fmt_d by (change (2 ^ 16) with 65536; lia).
    rewrite uint16_small by exact Hport. reflexivity. }
  destruct Hpacket as [-> | ->];
    cbn [Address Port Type_ NewRequestDiscoveryPacket NewResponseDiscoveryPacket];
    rewrite IP_String_IPv4; unfold strings_Join; cbn [String.concat];
    rewrite !append_assoc, !bytes_of_string_app;
    change (bytes_of_string headerSeparator) with CRLF;
    change (bytes_of_string endPacket) with CRLF;
    rewrite ParsePacket_discovery_line;
    rewrite Hparse by reflexivity; reflexivity.
Qed.


(** C1, as the code has it. A discovery packet of either kind for an IPv4
    address, and a request packet whose body the JSON codec writes on one
    line and reads back from it, parse back from their bytes to the same
    packet, field by field. (Of a request with a body, the last blank line
    stays in the buffer.) *)
Theorem packet_round_trip (packet : Packet) :
  reparsable json_Marshal json_Unmarshal packet ->
  exists data rest,
    Packet_Bytes json_Marshal packet = (data, None)
    /\ ParsePacket json_Unmarshal data = Some ((Some packet, None), rest).
Proof.
  destruct packet as [p|p|p]; cbn [reparsable Packet_Bytes].
  - intros ((a & b & c & d & Haddress) & Hport & Htype).
    destruct p as [address port type]. cbn [Address Port Type_] in *. subst address.
    destruct (discovery_packet_reparsed a b c d port
                {| Address := net_IPv4 a b c d; Port := port; Type_ := type |} Hport)
      as (data & Hbytes & Hparse).
    { destruct Htype as [-> | ->]; [left | right]; reflexivity. }
    eauto.
  - intros (Hlen & Hid & parametersJSON & Hmarshal & Hjson).
    destruct (request_packet_reparsed p parametersJSON Hlen Hid Hmarshal Hjson)
      as (data & Hbytes & Hparse).
    eauto.
  - intros [].
Qed.

(** ** [ParsePacket] returns *)

Lemma parseDiscovery_total (buf : list byte) :
  exists r rest, parseDiscovery buf = Some (r, rest).
Proof.
  unfold parseDiscovery, bind.
  destruct (readHeaders_total buf) as (h & e & r & -> & _).
  destruct e; [unfold ret; eauto|].
  destruct (h !! "TYPE"); [|unfold ret; eauto].
  destruct (h !! "HOST"); [|unfold ret; eauto].
  destruct (net_SplitHostPort _) as [[host portString] [e|]]; [unfold ret; eauto|].
  destruct (net_ParseIP host); [|unfold ret; eauto].
  destruct (strconv_ParseUint portString 16) as [port [e|]]; [unfold ret; eauto|].
  destruct (String.eqb _ requestDiscoveryType); [unfold ret; eauto|].
  destruct (String.eqb _ responseDiscoveryType); unfold ret; eauto.
Qed.

Lemma parseRequestAction_total (buf : list byte) :
  exists r rest, parseRequestAction json_Unmarshal buf = Some (r, rest).
Proof.
  unfold parseRequestAction, bind.
  destruct (readHeaders_total buf) as (h & e & r & -> & _).
  destruct e; [unfold ret; eauto|].
  destruct (h !! "REQUEST-UUID") as [uuidString|]; [|unfold ret; eauto].
  destruct (uuid_Parse uuidString); [|unfold ret; eauto].
  destruct (h !! "ACTION-ID") as [actionString|]; [|unfold ret; eauto].
  destruct (strconv_ParseUint actionString 8) as [actionId [e|]]; [unfold ret; eauto|].
  change (bytes_of_string headerSeparator) with CRLF.
  destruct (readUntil_total r) as (line & status & r' & ->).
  destruct status; [unfold ret; eauto|].
  destruct (json_Unmarshal line); unfold ret; eauto.
Qed.

(** [ParsePacket] returns on every buffer: the embedding never reaches an
    index out of range, and the fuel of the header loop is never used up. *)
Lemma ParsePacket_total (buf : list byte) :
  exists r rest, ParsePacket json_Unmarshal buf = Some (r, rest).
Proof.
  unfold ParsePacket, bind. change (bytes_of_string headerSeparator) with CRLF.
  destruct (readUntil_total buf) as (identifier & status & r & ->).
  destruct status; [unfold ret; eauto|].
  unfold dispatch.
  destruct (String.eqb _ requestActionIdentifier); [apply parseRequestAction_total|].
  destruct (String.eqb _ responseActionIdentifier); [unfold ret; eauto|].
  destruct (String.eqb _ discoveryIdentifier); [apply parseDiscovery_total|].
  unfold ret; eauto.
Qed.

End CodecProperties.

(** * Further properties of the code *)

(** ** The lexer: delimiters *)

Lemma has_delim_snoc_CR (l : list byte) :
  has_delim l = false -> has_delim (l ++ [x0d]) = false.
Proof.
  induction l as [|x l IH]; [reflexivity|].
  cbn [has_delim app]. intros H. apply orb_false_iff in H as [H1 H2].
  rewrite IH by exact H2. rewrite orb_false_r.
  destruct l as [|y l]; cbn [app].
  - destruct (Byte.eqb x x0d); reflexivity.
  - exact H1.
Qed.

(** X1. With the delimiter CR LF, [readUntil] stops right after the first
    delimiter of the buffer: it returns the bytes up to and including it,
    with no error, and leaves the bytes after it, later delimiters
    included; no delimiter ends before the last byte returned. When the
    buffer holds no delimiter, all of it is returned with [io.EOF]. *)
Theorem readUntil_first_delimiter (buf : list byte) :
  (has_delim buf = false
   /\ readUntil CRLF buf = Some ((buf, Some io_EOF), []))
  \/ exists line rest,
       buf = line ++ CRLF ++ rest
       /\ has_delim (line ++ [x0d]) = false
       /\ readUntil CRLF buf = Some ((line ++ CRLF, None), rest).
Proof.
  destruct (first_line_cases buf) as [H | (line & rest & -> & H)].
  - left. split; [exact H | now apply readUntil_no_delim].
  - right. exists line, rest. split; [reflexivity|].
    split; [now apply has_delim_snoc_CR | now apply readUntil_line].
Qed.

Lemma isZeros_repeat (l : list byte) :
  isZeros l = true -> bytes_Equal (repeat x00 (length l)) l = true.
Proof.
  induction l as [|x l IH]; [reflexivity|].
  unfold isZeros. cbn [forallb length repeat bytes_Equal].
  intros H. apply andb_true_iff in H as [H1 H2].
  rewrite H1. now apply IH.
Qed.

Lemma repeat_not_isZeros (l : list byte) :
  isZeros l = false -> bytes_Equal (repeat x00 (length l)) l = false.
Proof.
  induction l as [|x l IH]; [discriminate|].
  unfold isZeros. cbn [forallb length repeat bytes_Equal].
  intros H. destruct (Byte.eqb x00 x); [|reflexivity].
  now apply IH.
Qed.

(** X2. [readUntil] with a delimiter of fewer than two bytes: when the
    delimiter is empty or the single byte 0, the window of zeros equals it
    at once and nothing is read; with any other single byte, the first
    round of the loop indexes the window out of range and panics, whatever
    the buffer holds, the empty buffer included. *)
Theorem readUntil_short_delimiter (delim buf : list byte) :
  (length delim < 2)%nat ->
  readUntil delim buf
  = if isZeros delim then Some (([], None), buf) else None.
Proof.
  intros Hlen. unfold readUntil.
  destruct (isZeros delim) eqn:Hz.
  - destruct buf; cbn [readUntil_loop]; now rewrite isZeros_repeat.
  - destruct delim as [|x [|y delim]]; [discriminate| |cbn in Hlen; lia].
    destruct buf; cbn [readUntil_loop]; rewrite (repeat_not_isZeros [x]) by exact Hz;
      reflexivity.
Qed.

Lemma readUntil_loop_long (delim : list byte) (n : nat) :
  isZeros (skipn 2 delim) = false -> length delim = S (S n) ->
  forall buf r0 r1 out,
    readUntil_loop delim (r0 :: r1 :: repeat x00 n) out buf
    = Some ((out ++ buf, Some io_EOF), []).
Proof.
  intros Hz Hlen.
  assert (Hne : forall r0 r1, bytes_Equal (r0 :: r1 :: repeat x00 n) delim = false).
  { intros r0 r1. destruct delim as [|d0 [|d1 delim]]; try discriminate.
    cbn [skipn] in Hz. cbn [length] in Hlen.
    assert (n = length delim) as -> by lia.
    cbn [bytes_Equal]. rewrite repeat_not_isZeros by exact Hz.
    now rewrite !andb_false_r. }
  induction buf as [|x buf IH]; intros r0 r1 out; cbn [readUntil_loop]; rewrite Hne.
  - cbn. now rewrite app_nil_r.
  - cbn [shift_window lookup list_lookup insert list_insert]. cbn.
    rewrite IH. now rewrite <- app_assoc.
Qed.

(** X3. [readUntil] only ever writes the first two bytes of its window. A
    delimiter with a byte other than 0 after its second byte is therefore
    never found, even where it occurs in the buffer: the whole buffer is
    returned with [io.EOF]. *)
Theorem readUntil_long_delimiter (delim buf : list byte) :
  isZeros (skipn 2 delim) = false ->
  readUntil delim buf = Some ((buf, Some io_EOF), []).
Proof.
  intros Hz. destruct delim as [|d0 [|d1 delim]]; try discriminate.
  unfold readUntil. cbn [length repeat].
  now rewrite (readUntil_loop_long _ (length delim)).
Qed.

(** ** Header lines *)

Lemma strings_HasPrefix_spec (p s : string) :
  strings_HasPrefix s p = true <-> exists t, s = p +:+ t.
Proof.
  revert s. induction p as [|a p IH]; intros s; cbn [strings_HasPrefix].
  - split; [intros _; now exists s | reflexivity].
  - destruct s as [|b s].
    + split; [discriminate | intros [t Ht]; discriminate].
    + rewrite andb_true_iff, IH. split.
      * intros [Hab [t ->]]. apply Ascii.eqb_eq in Hab as ->. now exists t.
      * intros [t Ht]. change (String a p +:+ t) with (String a (p +:+ t)) in Ht.
        injection Ht as -> ->. split; [apply Ascii.eqb_refl | now exists t].
Qed.

Lemma has_sep_spec (s : string) :
  has_sep s = true <-> exists a b, s = a +:+ ": " +:+ b.
Proof.
  induction s as [|c s IH].
  - split; [discriminate|]. intros ([|x a] & b & H); discriminate.
  - cbn [has_sep]. rewrite orb_true_iff, IH, strings_HasPrefix_spec. split.
    + intros [[t ->] | (a & b & ->)].
      * now exists EmptyString, t.
      * now exists (String c a), b.
    + intros ([|x a] & b & H).
      * left. exists b. exact H.
      * right. change (String x a +:+ ?t) with (String x (a +:+ t)) in H.
        injection H as -> ->. now exists a, b.
Qed.

Lemma has_sep_none (s : string) :
  has_sep s = false <-> forall a b, s <> a +:+ ": " +:+ b.
Proof.
  split.
  - intros H a b ->.
    assert (has_sep (a +:+ ": " +:+ b) = true) by (apply has_sep_spec; eauto).
    congruence.
  - intros H. destruct (has_sep s) eqn:E; [|reflexivity].
    apply has_sep_spec in E as (a & b & ->). now destruct (H a b).
Qed.

Lemma strings_Cut_sep (s : string) :
  match strings_Cut s ": " with
  | Some (key, value) => s = key +:+ ": " +:+ value /\ has_sep key = false
  | None => has_sep s = false
  end.
Proof.
  induction s as [|c s IH]; [reflexivity|].
  cbn [strings_Cut has_sep].
  destruct (strings_HasPrefix (String c s) ": ") eqn:Hp.
  - apply strings_HasPrefix_spec in Hp as [t ->]. split; reflexivity.
  - destruct (strings_Cut s ": ") as [[key value]|].
    + destruct IH as [-> Hkey]. split; [reflexivity|].
      cbn [has_sep]. rewrite Hkey, orb_false_r.
      destruct (strings_HasPrefix (String c key) ": ") eqn:Hk; [|reflexivity].
      apply strings_HasPrefix_spec in Hk as [t Ht].
      assert (strings_HasPrefix (String c (key +:+ ": " +:+ value)) ": " = true).
      { apply strings_HasPrefix_spec. exists (t +:+ ": " +:+ value).
        change (String c (key +:+ ": " +:+ value))
          with (String c key +:+ ": " +:+ value).
        rewrite Ht. now rewrite append_assoc. }
      congruence.
    + cbn. exact IH.
Qed.

Lemma strings_Cut_first (key value : string) :
  has_sep key = false ->
  strings_Cut (key +:+ ": " +:+ value) ": " = Some (key, value).
Proof.
  intros Hkey.
  pose proof (strings_Cut_sep (key +:+ ": " +:+ value)) as H.
  destruct (strings_Cut (key +:+ ": " +:+ value) ": ") as [[k v]|].
  - destruct H as [Heq Hk].
    (* both [key] and [k] are the text before the first separator *)
    assert (Hsame : forall a b x y,
               has_sep a = false -> has_sep x = false ->
               a +:+ ": " +:+ b = x +:+ ": " +:+ y -> a = x /\ b = y).
    { clear. induction a as [|c a IH]; intros b x y Ha Hx E.
      - destruct x as [|d x]; [now injection E|].
        change (String d x +:+ ?t) with (String d (x +:+ t)) in E.
        cbn in E. injection E as <- E.
        destruct x as [|e x].
        + discriminate.
        + change (String e x +:+ ?t) with (String e (x +:+ t)) in E.
          injection E as <- E. cbn in Hx. discriminate.
      - destruct x as [|d x].
        + change (String c a +:+ ?t) with (String c (a +:+ t)) in E.
          cbn in E. injection E as -> E.
          destruct a as [|e a]; [discriminate|].
          change (String e a +:+ ?t) with (String e (a +:+ t)) in E.
          injection E as -> E. cbn in Ha. discriminate.
        + change (String c a +:+ ?t) with (String c (a +:+ t)) in E.
          change (String d x +:+ ?t) with (String d (x +:+ t)) in E.
          injection E as -> E.
          cbn [has_sep] in Ha, Hx.
          apply orb_false_iff in Ha as [_ Ha]. apply orb_false_iff in Hx as [_ Hx].
          destruct (IH b x y Ha Hx E) as [-> ->]. now split. }
    destruct (Hsame key value k v Hkey Hk Heq) as [-> ->]. reflexivity.
  - assert (has_sep (key +:+ ": " +:+ value) = true) by (apply has_sep_spec; eauto).
    congruence.
Qed.

Lemma parseHeader_key_value (key value : string) :
  has_sep key = false ->
  parseHeader (key +:+ ": " +:+ value) = ([key; value], None).
Proof.
  intros H. unfold parseHeader, strings_SplitN_2.
  now rewrite strings_Cut_first.
Qed.

Lemma parseHeader_no_sep (raw : string) :
  has_sep raw = false ->
  parseHeader raw = ([], Some (errors_New "invalid header line")).
Proof.
  intros H. unfold parseHeader, strings_SplitN_2.
  pose proof (strings_Cut_sep raw) as Hc.
  destruct (strings_Cut raw ": ") as [[k v]|]; [|reflexivity].
  destruct Hc as [-> _].
  assert (has_sep (k +:+ ": " +:+ v) = true) by (apply has_sep_spec; eauto).
  congruence.
Qed.

(** X4. [parseHeader] cuts a line at its first separator [": "]: the key is
    the text before it, in which no separator occurs, and the value is all
    the text after it, further separators included. A line without a
    separator is rejected with "invalid header line" and an empty pair. *)
Theorem parseHeader_first_separator (raw : string) :
  (exists key value,
      raw = key +:+ ": " +:+ value
      /\ (forall a b, key <> a +:+ ": " +:+ b)
      /\ parseHeader raw = ([key; value], None))
  \/ ((forall a b, raw <> a +:+ ": " +:+ b)
      /\ parseHeader raw = ([], Some (errors_New "invalid header line"))).
Proof.
  destruct (has_sep raw) eqn:E.
  - left. pose proof (strings_Cut_sep raw) as H.
    destruct (strings_Cut raw ": ") as [[key value]|]; [|congruence].
    destruct H as [-> Hkey]. exists key, value.
    split; [reflexivity|]. split; [now apply has_sep_none|].
    now apply parseHeader_key_value.
  - right. split; [now apply has_sep_none | now apply parseHeader_no_sep].
Qed.

(** ** Header blocks *)

Lemma readHeaders_fuel (fuel : nat) (headers : gmap string string) (buf : list byte) :
  (S (length buf) <= fuel)%nat ->
  (let* '(headerRaw, err) := readUntil CRLF in
   readHeaders_loop fuel headers headerRaw err) buf
  = readHeaders_with headers buf.
Proof.
  intros Hfuel. unfold readHeaders_with, bind.
  change (bytes_of_string headerSeparator) with CRLF.
  destruct (readUntil_total buf) as (o & e & r & Hr). rewrite Hr.
  destruct (readHeaders_loop_total (S (length buf)) headers o e r)
    as (h' & e' & r' & Hl & _).
  - lia.
  - intros ->. apply readUntil_consumes in Hr. lia.
  - unfold readUntil in Hr. apply readUntil_loop_status in Hr. tauto.
  - rewrite Hl. now apply readHeaders_loop_fuel with (fuel := S (length buf)).
Qed.

Lemma header_ok_line (kv : string * string) :
  header_ok kv = true ->
  plain (fst kv +:+ ": " +:+ snd kv) = true
  /\ fst kv +:+ ": " +:+ snd kv <> EmptyString
  /\ parseHeader (fst kv +:+ ": " +:+ snd kv) = ([fst kv; snd kv], None).
Proof.
  unfold header_ok. intros H.
  apply andb_true_iff in H as [H Hsep]. apply andb_true_iff in H as [Hk Hv].
  apply negb_true_iff in Hsep. split; [|split].
  - rewrite !plain_app, Hk, Hv. reflexivity.
  - destruct (fst kv); discriminate.
  - now apply parseHeader_key_value.
Qed.

Lemma readHeaders_with_line headers (kv : string * string) (rest : list byte) :
  header_ok kv = true ->
  readHeaders_with headers (header_line kv ++ rest)
  = readHeaders_with (<[fst kv := snd kv]> headers) rest.
Proof.
  intros Hok. destruct (header_ok_line kv Hok) as (Hplain & Hne & Hparse).
  unfold readHeaders_with at 1. unfold bind, header_line.
  change (bytes_of_string headerSeparator) with CRLF.
  rewrite <- app_assoc.
  rewrite readUntil_line by now apply plain_has_delim.
  assert (Hlen : exists fuel,
             length (bytes_of_string (fst kv +:+ ": " +:+ snd kv) ++ CRLF ++ rest)
             = S fuel /\ (S (length rest) <= fuel)%nat).
  { rewrite !length_app, CRLF_eq. cbn [length].
    exists (length (bytes_of_string (fst kv +:+ ": " +:+ snd kv)) + S (length rest))%nat.
    split; lia. }
  destruct Hlen as (fuel & -> & Hfuel).
  rewrite (readHeaders_loop_line _ _ _ (fst kv) (snd kv)) by assumption.
  apply readHeaders_fuel. lia.
Qed.

Lemma readHeaders_with_lines (pairs : list (string * string)) :
  forallb header_ok pairs = true ->
  forall headers rest,
    readHeaders_with headers (header_lines pairs ++ rest)
    = readHeaders_with
        (fold_left (fun headers kv => <[fst kv := snd kv]> headers) pairs headers) rest.
Proof.
  induction pairs as [|kv pairs IH]; intros Hok headers rest; [reflexivity|].
  cbn [forallb] in Hok. apply andb_true_iff in Hok as [Hkv Hok].
  unfold header_lines. cbn [map concat fold_left].
  rewrite <- app_assoc. rewrite readHeaders_with_line by exact Hkv.
  now apply IH.
Qed.

Lemma readHeaders_with_blank headers (tail : list byte) :
  readHeaders_with headers (CRLF ++ tail) = Some ((headers, None), tail).
Proof.
  unfold readHeaders_with, bind. change (bytes_of_string headerSeparator) with CRLF.
  rewrite readUntil_blank_line. reflexivity.
Qed.

Lemma readHeaders_with_invalid headers (raw : string) (tail : list byte) :
  plain raw = true -> raw <> EmptyString -> has_sep raw = false ->
  readHeaders_with headers (bytes_of_string raw ++ CRLF ++ tail)
  = Some ((headers, Some (errors_New "invalid header line")), tail).
Proof.
  intros Hplain Hne Hsep. unfold readHeaders_with, bind.
  change (bytes_of_string headerSeparator) with CRLF.
  rewrite readUntil_line by now apply plain_has_delim.
  cbn [readHeaders_loop].
  rewrite string_of_bytes_app, string_of_bytes_of_string.
  change (string_of_bytes CRLF) with headerSeparator.
  rewrite plain_line_not_blank by assumption.
  rewrite strings_TrimRight_app_cutset by reflexivity.
  rewrite plain_TrimRight by assumption.
  now rewrite parseHeader_no_sep.
Qed.

Lemma readHeaders_with_eof headers (junk : list byte) :
  has_delim junk = false ->
  readHeaders_with headers junk = Some ((headers, Some io_EOF), []).
Proof.
  intros H. unfold readHeaders_with, bind.
  change (bytes_of_string headerSeparator) with CRLF.
  now rewrite readUntil_no_delim.
Qed.

Lemma headers_of_snoc pairs kv :
  headers_of (pairs ++ [kv]) = <[fst kv := snd kv]> (headers_of pairs).
Proof. unfold headers_of. now rewrite fold_left_app. Qed.

Lemma headers_of_lookup (key : string) (pairs : list (string * string)) :
  headers_of pairs !! key = last_value key pairs.
Proof.
  induction pairs as [|kv pairs IH] using rev_ind; [reflexivity|].
  rewrite headers_of_snoc. unfold last_value.
  rewrite rev_app_distr. cbn [rev app find].
  destruct (String.eqb (fst kv) key) eqn:E.
  - apply String.eqb_eq in E as <-. now rewrite lookup_insert_eq.
  - apply String.eqb_neq in E. rewrite lookup_insert_ne by exact E. exact IH.
Qed.

Lemma readHeaders_lines (pairs : list (string * string)) (tail : list byte) :
  forallb header_ok pairs = true ->
  readHeaders (header_lines pairs ++ CRLF ++ tail)
  = Some ((headers_of pairs, None), tail).
Proof.
  intros Hok. change readHeaders with (readHeaders_with ∅).
  rewrite readHeaders_with_lines by exact Hok.
  apply readHeaders_with_blank.
Qed.

(** X5. A block of header lines, each [key: value] without CR or LF and
    without a separator in its key, followed by a blank line:
    [readHeaders] returns without error the map of the headers, in which
    the value of a header is that of the last line with its key, and
    leaves what follows the blank line unread. *)
Theorem readHeaders_block (pairs : list (string * string)) (tail : list byte) :
  forallb header_ok pairs = true ->
  readHeaders (header_lines pairs ++ CRLF ++ tail)
  = Some ((headers_of pairs, None), tail)
  /\ forall key, headers_of pairs !! key = last_value key pairs.
Proof.
  intros Hok. split; [now apply readHeaders_lines | intros key; apply headers_of_lookup].
Qed.

(** X6. [readHeaders] stops at the first line without a separator: it
    returns "invalid header line" with the headers read before that line,
    and leaves the lines after it unread. *)
Theorem readHeaders_invalid_line (pairs : list (string * string)) (raw : string)
  (tail : list byte) :
  forallb header_ok pairs = true ->
  plain raw = true -> raw <> EmptyString ->
  (forall a b, raw <> a +:+ ": " +:+ b) ->
  readHeaders (header_lines pairs ++ bytes_of_string raw ++ CRLF ++ tail)
  = Some ((headers_of pairs, Some (errors_New "invalid header line")), tail).
Proof.
  intros Hok Hplain Hne Hsep.
  change readHeaders with (readHeaders_with ∅).
  rewrite readHeaders_with_lines by exact Hok.
  apply readHeaders_with_invalid; try assumption. now apply has_sep_none.
Qed.

(** X7. A header block that ends without a blank line: the bytes after the
    last delimiter are read and dropped, whatever they are, and
    [readHeaders] returns [io.EOF] with the headers of the lines before
    them. *)
Theorem readHeaders_truncated (pairs : list (string * string)) (junk : list byte) :
  forallb header_ok pairs = true ->
  has_delim junk = false ->
  readHeaders (header_lines pairs ++ junk)
  = Some ((headers_of pairs, Some io_EOF), []).
Proof.
  intros Hok Hjunk.
  change readHeaders with (readHeaders_with ∅).
  rewrite readHeaders_with_lines by exact Hok.
  now apply readHeaders_with_eof.
Qed.

(** ** Results of the library parsers *)

Lemma parseIPv4_loop_length (todo : nat) :
  forall first s p s',
    parseIPv4_loop todo first s = Some (p, s') -> length p = todo.
Proof.
  induction todo as [|todo IH]; intros first s p s'; cbn [parseIPv4_loop].
  - now intros [= <- _].
  - destruct (is_empty s); [discriminate|].
    destruct (negb first && negb (head_is s ".")); [discriminate|].
    destruct (dtoi (if first then s else string_drop 1 s)) as [[n c] ok].
    destruct (negb ok || (n >? 255)); [discriminate|].
    destruct ((1 <? c)%nat && head_is (if first then s else string_drop 1 s) "0");
      [discriminate|].
    destruct (parseIPv4_loop todo false _) as [[p0 s0]|] eqn:E; [|discriminate].
    intros [= <- _]. cbn [length]. f_equal. now apply IH in E.
Qed.

Lemma parseIPv4_length (s : string) (ip : list byte) :
  parseIPv4 s = Some ip -> length ip = IPv6len.
Proof.
  unfold parseIPv4.
  destruct (parseIPv4_loop IPv4len true s) as [[p [|c s']]|] eqn:E; try discriminate.
  intros [= <-]. apply parseIPv4_loop_length in E.
  cbn [length]. rewrite E. reflexivity.
Qed.

Lemma parseIPv6_loop_length (todo : nat) :
  forall ip ellipsis s ip' ellipsis' s',
    (length ip + 2 * todo <= IPv6len)%nat ->
    parseIPv6_loop todo ip ellipsis s = Some (ip', ellipsis', s') ->
    (length ip' <= IPv6len)%nat.
Proof.
  unfold IPv6len.
  induction todo as [|todo IH]; intros ip ellipsis s ip' ellipsis' s' Hlen;
    cbn [parseIPv6_loop].
  - intros [= <- _ _]. lia.
  - destruct (xtoi s) as [[n c] ok].
    destruct (negb ok || (4 <? c)%nat || (n >? 65535)); [discriminate|].
    destruct (head_is (string_drop c s) ".").
    + destruct (negb (is_some ellipsis) && negb (length ip =? IPv6len - IPv4len)%nat);
        [discriminate|].
      destruct (IPv6len <? length ip + IPv4len)%nat eqn:Hfit; [discriminate|].
      destruct (parseIPv4 s) as [ip4|] eqn:E4; [|discriminate].
      intros [= <- _ _]. apply parseIPv4_length in E4.
      apply Nat.ltb_ge in Hfit. unfold IPv6len, IPv4len in *.
      rewrite length_app, length_skipn. lia.
    + assert (Hnew : (length (ip ++ [byte_of_Z (Z.shiftr n 8); byte_of_Z n]) <= 16)%nat)
        by (rewrite length_app; cbn [length]; lia).
      assert (Hnext : (length (ip ++ [byte_of_Z (Z.shiftr n 8); byte_of_Z n])
                       + 2 * todo <= 16)%nat)
        by (rewrite length_app; cbn [length]; lia).
      destruct (is_empty (string_drop c s)); [intros [= <- _ _]; exact Hnew|].
      destruct (negb (head_is (string_drop c s) ":")
                || (String.length (string_drop c s) =? 1)%nat); [discriminate|].
      destruct (head_is (string_drop 1 (string_drop c s)) ":").
      * destruct (is_some ellipsis); [discriminate|].
        destruct (is_empty (string_drop 1 (string_drop 1 (string_drop c s)))).
        -- intros [= <- _ _]; exact Hnew.
        -- intros E. now apply IH in E.
      * intros E. now apply IH in E.
Qed.

Lemma parseIPv6_length (s : string) (ip : list byte) :
  parseIPv6 s = Some ip -> length ip = IPv6len.
Proof.
  unfold parseIPv6.
  set (leading := head_is s ":" && head_is (string_drop 1 s) ":").
  destruct (leading && is_empty (if leading then string_drop 2 s else s)).
  - intros [= <-]. reflexivity.
  - destruct (parseIPv6_loop 8 [] _ _) as [[[ip0 e0] s0]|] eqn:E; [|discriminate].
    apply parseIPv6_loop_length in E; [|cbn; unfold IPv6len; lia].
    destruct (negb (is_empty s0)); [discriminate|].
    destruct (length ip0 <? IPv6len)%nat eqn:Hshort.
    + destruct e0 as [e|]; [|discriminate]. intros [= <-].
      apply Nat.ltb_lt in Hshort.
      rewrite !length_app, repeat_length.
      pose proof (firstn_skipn e ip0) as Hsplit.
      apply (f_equal (@length byte)) in Hsplit. rewrite length_app in Hsplit. lia.
    + destruct (is_some e0); [discriminate|]. intros [= <-].
      apply Nat.ltb_ge in Hshort. lia.
Qed.

Lemma net_ParseIP_length (s : string) (ip : list byte) :
  net_ParseIP s = Some ip -> length ip = IPv6len.
Proof.
  unfold net_ParseIP. generalize s at 1. intros s0.
  induction s as [|c s IH]; cbn [ParseIP_scan]; [discriminate|].
  destruct (Ascii.eqb c "."); [apply parseIPv4_length|].
  destruct (Ascii.eqb c ":"); [apply parseIPv6_length | exact IH].
Qed.

Lemma hex_bytes_length (n : nat) :
  forall s l, hex_bytes n s = Some l -> length l = n.
Proof.
  induction n as [|n IH]; intros s l; cbn [hex_bytes].
  - now intros [= <-].
  - destruct s as [|x1 [|x2 s]]; try discriminate.
    destruct (xtob x1 x2); [|discriminate].
    destruct (hex_bytes n s) as [l0|] eqn:E; [|discriminate].
    intros [= <-]. cbn [length]. f_equal. now apply IH in E.
Qed.

Lemma parse_hyphenated_length (s : string) (u : list byte) :
  parse_hyphenated s = inl u -> length u = 16%nat.
Proof.
  unfold parse_hyphenated.
  destruct (negb _); [discriminate|].
  destruct (hex_bytes 4 s) as [a|] eqn:Ea; [|discriminate].
  destruct (hex_bytes 2 (string_drop 9 s)) as [b|] eqn:Eb; [|discriminate].
  destruct (hex_bytes 2 (string_drop 14 s)) as [c|] eqn:Ec; [|discriminate].
  destruct (hex_bytes 2 (string_drop 19 s)) as [d|] eqn:Ed; [|discriminate].
  destruct (hex_bytes 6 (string_drop 24 s)) as [e|] eqn:Ee; [|discriminate].
  intros [= <-].
  apply hex_bytes_length in Ea, Eb, Ec, Ed, Ee.
  rewrite !length_app. lia.
Qed.

Lemma uuid_Parse_length (s : string) (u : list byte) :
  uuid_Parse s = inl u -> length u = 16%nat.
Proof.
  unfold uuid_Parse.
  destruct (String.length s =? 36)%nat; [apply parse_hyphenated_length|].
  destruct (String.length s =? 36 + 9)%nat.
  { destruct (String.eqb _ _); [apply parse_hyphenated_length | discriminate]. }
  destruct (String.length s =? 36 + 2)%nat; [apply parse_hyphenated_length|].
  destruct (String.length s =? 32)%nat; [|discriminate].
  destruct (hex_bytes 16 s) as [l|] eqn:E; [|discriminate].
  intros [= <-]. now apply hex_bytes_length in E.
Qed.

Lemma IP_String_To4 (ip : list byte) (a b c d : byte) :
  To4 ip = Some [a; b; c; d] -> IP_String ip = dotted a b c d.
Proof.
  intros H. unfold IP_String.
  destruct (length ip =? 0)%nat eqn:E.
  - apply Nat.eqb_eq in E. unfold To4 in H. rewrite E in H. discriminate.
  - rewrite H. reflexivity.
Qed.

Lemma of_uint_acc_lower (d : Decimal.uint) : forall acc : positive,
  Z.pos acc * 10 ^ Z.of_nat (Decimal.nb_digits d) <= Z.pos (Pos.of_uint_acc d acc).
Proof.
  induction d; intros acc; cbn [Pos.of_uint_acc Decimal.nb_digits];
    try (rewrite Z.pow_0_r; lia);
    (etransitivity; [|apply IHd]);
    rewrite Nat2Z.inj_succ, Z.pow_succ_r by lia;
    assert (0 < 10 ^ Z.of_nat (Decimal.nb_digits d)) by (apply Z.pow_pos_nonneg; lia);
    nia.
Qed.

Lemma string_of_uint_length (d : Decimal.uint) :
  String.length (NilEmpty.string_of_uint d) = Decimal.nb_digits d.
Proof. induction d; cbn; congruence. Qed.

Lemma fmt_d_length (n : Z) (k : nat) :
  (1 <= k)%nat -> 0 <= n < 10 ^ Z.of_nat k ->
  (String.length (fmt_d n) <= k)%nat.
Proof.
  intros Hk Hn. unfold fmt_d.
  assert (Hval : Z.of_N (N.of_uint (N.to_uint (Z.to_N n))) = n)
    by (rewrite DecimalN.Unsigned.of_to; lia).
  assert (Hnorm : Decimal.unorm (N.to_uint (Z.to_N n)) = N.to_uint (Z.to_N n)).
  { rewrite <- DecimalN.Unsigned.to_of. now rewrite DecimalN.Unsigned.of_to. }
  set (d := N.to_uint (Z.to_N n)) in *.
  assert (Hdigits : (Decimal.nb_digits d <= k)%nat).
  { assert (Hlow : forall l (acc : positive),
               Z.pos (Pos.of_uint_acc l acc) = n -> (S (Decimal.nb_digits l) <= k)%nat).
    { intros l acc E. pose proof (of_uint_acc_lower l acc) as Hl. rewrite E in Hl.
      assert (10 ^ Z.of_nat (Decimal.nb_digits l) < 10 ^ Z.of_nat k).
      { assert (0 < 10 ^ Z.of_nat (Decimal.nb_digits l))
          by (apply Z.pow_pos_nonneg; lia). nia. }
      apply Z.pow_lt_mono_r_iff in H; lia. }
    destruct d as [|l|l|l|l|l|l|l|l|l|l]; cbn [Decimal.nb_digits];
      try (eapply Hlow; cbn in Hval; exact Hval).
    { lia. }
    (* a leading zero: the text is "0" *)
    unfold Decimal.unorm in Hnorm. cbn [Decimal.nzhead] in Hnorm.
    pose proof (DecimalFacts.nb_digits_nzhead l) as Hnz.
    destruct (Decimal.nzhead l) eqn:E;
      try (rewrite Hnorm in Hnz; cbn [Decimal.nb_digits] in Hnz; lia).
    injection Hnorm as <-. cbn. lia. }
  destruct d; cbn [NilZero.string_of_uint]; try (rewrite string_of_uint_length; exact Hdigits).
  cbn. lia.
Qed.

Lemma bytes_of_string_length (s : string) :
  length (bytes_of_string s) = String.length s.
Proof.
  unfold bytes_of_string, list_byte_of_string. rewrite length_map.
  induction s; cbn; congruence.
Qed.

Lemma string_length_app (a b : string) :
  String.length (a +:+ b) = (String.length a + String.length b)%nat.
Proof.
  induction a as [|x a IH]; [reflexivity|].
  change (String x a +:+ b) with (String x (a +:+ b)).
  cbn [String.length]. now rewrite IH.
Qed.

Lemma Z_of_byte_range (b : byte) : 0 <= Z_of_byte b < 256.
Proof.
  unfold Z_of_byte. pose proof (Byte.to_N_bounded b). lia.
Qed.

Lemma dotted_length (a b c d : byte) : (String.length (dotted a b c d) <= 15)%nat.
Proof.
  unfold dotted.
  assert (H : forall x, (String.length (fmt_d (Z_of_byte x)) <= 3)%nat).
  { intros x. apply fmt_d_length; [lia|].
    pose proof (Z_of_byte_range x). change (10 ^ Z.of_nat 3) with 1000. lia. }
  pose proof (H a). pose proof (H b). pose proof (H c). pose proof (H d).
  rewrite !string_length_app. cbn [String.length]. lia.
Qed.

Lemma uint16_range (n : Z) : 0 <= uint16 n < 65536.
Proof. unfold uint16. apply Z.mod_pos_bound. reflexivity. Qed.

Lemma hex_char_v6 (v : Z) : v6_char (hex_char v) = true.
Proof.
  unfold hex_char. generalize (Z.to_nat v) as n. intros n.
  do 16 (destruct n as [|n]; [reflexivity|]). reflexivity.
Qed.

Lemma appendHex_loop_v6 (j : nat) (i : Z) : all_chars v6_char (appendHex_loop j i) = true.
Proof.
  induction j as [|j IH]; [reflexivity|].
  cbn [appendHex_loop]. destruct (_ >? 0); [|exact IH].
  unfold all_chars in *. cbn [list_ascii_of_string forallb].
  now rewrite hex_char_v6, IH.
Qed.

Lemma appendHex_v6 (i : Z) : all_chars v6_char (appendHex i) = true.
Proof.
  unfold appendHex. destruct (i =? 0); [reflexivity | apply appendHex_loop_v6].
Qed.

Lemma ipv6_print_v6 (fuel : nat) (p : list byte) (e0 e1 : Z) :
  forall i, all_chars v6_char (ipv6_print fuel p e0 e1 i) = true.
Proof.
  induction fuel as [|fuel IH]; intros i; [reflexivity|].
  cbn [ipv6_print].
  destruct (i <? IPv6len)%nat; [|reflexivity].
  destruct (Z.of_nat i =? e0).
  - destruct (IPv6len <=? Z.to_nat e1)%nat; [reflexivity|].
    rewrite !all_chars_app, appendHex_v6, IH. reflexivity.
  - rewrite !all_chars_app, appendHex_v6, IH.
    destruct (0 <? i)%nat; reflexivity.
Qed.

Lemma IndexByteString_app_r (a b : string) (c : ascii) :
  is_some (IndexByteString b c) = true ->
  is_some (IndexByteString (a +:+ b) c) = true.
Proof.
  intros H. induction a as [|x a IH]; [exact H|].
  change (String x a +:+ b) with (String x (a +:+ b)).
  cbn [IndexByteString]. destruct (Ascii.eqb x c); [reflexivity|].
  destruct (IndexByteString (a +:+ b) c); [reflexivity | discriminate].
Qed.

Lemma ipv6_print_colon (fuel : nat) (p : list byte) (e0 e1 : Z) :
  is_some (IndexByteString (ipv6_print (S (S fuel)) p e0 e1 0) ":") = true.
Proof.
  cbn [ipv6_print]. change (0 <? IPv6len)%nat with true. cbv iota.
  destruct (Z.of_nat 0 =? e0).
  - destruct (IPv6len <=? Z.to_nat e1)%nat; reflexivity.
  - change (0 <? 0)%nat with false. cbv iota.
    change (0 + 2)%nat with 2%nat. change (2 <? IPv6len)%nat with true. cbv iota.
    change ("" +:+ ?s) with s.
    apply IndexByteString_app_r.
    destruct (Z.of_nat 2 =? e0).
    + destruct (IPv6len <=? Z.to_nat e1)%nat; reflexivity.
    + reflexivity.
Qed.

Lemma IP_String_v6 (ip : list byte) :
  length ip = IPv6len -> To4 ip = None ->
  all_chars v6_char (IP_String ip) = true
  /\ is_some (IndexByteString (IP_String ip) ":") = true.
Proof.
  intros Hlen Hv4. unfold IP_String. rewrite Hlen, Hv4.
  change (IPv6len =? 0)%nat with false. change (IPv6len =? IPv6len)%nat with true.
  cbv iota. cbn [negb].
  destruct (longest_zero_run 8 ip 0 (-1) (-1)) as [e0 e1].
  destruct (e1 - e0 <=? 2); split; apply ipv6_print_v6 || apply ipv6_print_colon.
Qed.

Lemma digit_v6 (c : ascii) : is_digit c = true -> v6_char c = true.
Proof.
  unfold is_digit, digit_val.
  destruct c as [[] [] [] [] [] [] [] []]; cbn; try discriminate; reflexivity.
Qed.

Lemma v6_plain (s : string) : all_chars v6_char s = true -> plain s = true.
Proof.
  apply all_chars_weaken. intros c.
  destruct c as [[] [] [] [] [] [] [] []]; cbn; try discriminate; reflexivity.
Qed.

Lemma SplitHostPort_too_many_colons (host port : string) :
  all_chars v6_char host = true ->
  is_some (IndexByteString host ":") = true ->
  all_chars is_digit port = true ->
  exists e, net_SplitHostPort (host +:+ ":" +:+ port) = (EmptyString, EmptyString, Some e).
Proof.
  intros Hhost Hcolon Hport.
  assert (Hall : all_chars v6_char (host +:+ ":" +:+ port) = true).
  { rewrite !all_chars_app, Hhost.
    rewrite (all_chars_weaken is_digit v6_char port digit_v6 Hport). reflexivity. }
  unfold net_SplitHostPort.
  change (host +:+ ":" +:+ port) with (host +:+ String ":" port) in *.
  rewrite last_index_app by (now apply last_index_none with is_digit).
  rewrite (head_is_none v6_char) by (exact Hall || reflexivity).
  rewrite string_take_app, Hcolon. eauto.
Qed.

Lemma ParseIP_scan_name (s0 s : string) :
  all_chars name_char s = true -> ParseIP_scan s0 s = None.
Proof.
  unfold all_chars. induction s as [|c s IH]; [reflexivity|].
  cbn [list_ascii_of_string forallb ParseIP_scan]. intros H.
  apply andb_true_iff in H as [Hc Hs].
  assert (Ascii.eqb c "." = false /\ Ascii.eqb c ":" = false) as [-> ->].
  { revert Hc. unfold name_char.
    destruct c as [[] [] [] [] [] [] [] []]; cbn; try discriminate; now split. }
  now apply IH.
Qed.

Lemma SplitHostPort_name (host port : string) :
  all_chars name_char host = true ->
  all_chars is_digit port = true ->
  net_SplitHostPort (host +:+ ":" +:+ port) = (host, port, None).
Proof.
  intros Hhost Hport.
  pose (p := fun c => negb (in_cutset c "[]")).
  assert (Hall : all_chars p (host +:+ ":" +:+ port) = true).
  { rewrite !all_chars_app.
    rewrite (all_chars_weaken name_char p host), (all_chars_weaken is_digit p port);
      try assumption; try reflexivity.
    - intros c. unfold is_digit, digit_val, p.
      destruct c as [[] [] [] [] [] [] [] []]; cbn; try discriminate; reflexivity.
    - intros c. unfold name_char, p.
      destruct c as [[] [] [] [] [] [] [] []]; cbn; try discriminate; reflexivity. }
  unfold net_SplitHostPort.
  change (host +:+ ":" +:+ port) with (host +:+ String ":" port).
  rewrite last_index_app by (now apply last_index_none with is_digit).
  rewrite (head_is_none p) by (exact Hall || reflexivity).
  rewrite string_take_app.
  rewrite (IndexByteString_none name_char host ":") by (assumption || reflexivity).
  rewrite string_drop_S_app.
  change (string_drop 0 ?s) with s.
  rewrite (IndexByteString_none p _ "[") by (exact Hall || reflexivity).
  rewrite (IndexByteString_none p _ "]") by (exact Hall || reflexivity).
  reflexivity.
Qed.

Lemma hex_Encode_name (l : list byte) : all_chars name_char (hex_Encode l) = true.
Proof.
  assert (H : forall v, name_char (hex_char v) = true).
  { intros v. unfold hex_char. generalize (Z.to_nat v) as n. intros n.
    do 16 (destruct n as [|n]; [reflexivity|]). reflexivity. }
  unfold all_chars. induction l as [|b l IH]; [reflexivity|].
  cbn [hex_Encode list_ascii_of_string forallb]. now rewrite !H, IH.
Qed.

Lemma IP_String_name (ip : list byte) :
  length ip <> IPv4len -> length ip <> IPv6len ->
  all_chars name_char (IP_String ip) = true.
Proof.
  intros H4 H6. unfold IP_String, To4.
  apply Nat.eqb_neq in H4, H6. rewrite H4, H6. cbn [andb negb].
  destruct (length ip =? 0)%nat; [reflexivity|].
  change ("?" +:+ hex_Encode ip) with (String "?" (hex_Encode ip)).
  unfold all_chars. cbn [list_ascii_of_string forallb].
  change (name_char "?") with true. apply hex_Encode_name.
Qed.

Lemma name_plain (s : string) : all_chars name_char s = true -> plain s = true.
Proof.
  apply all_chars_weaken. intros c. unfold name_char.
  destruct c as [[] [] [] [] [] [] [] []]; cbn; try discriminate; reflexivity.
Qed.

(** ** What [ParsePacket] consumes and returns *)

Lemma readHeaders_loop_suffix (fuel : nat) :
  forall headers headerRaw err buf x rest,
    readHeaders_loop fuel headers headerRaw err buf = Some (x, rest) ->
    exists consumed, buf = consumed ++ rest.
Proof.
  induction fuel as [|fuel IH]; intros headers headerRaw err buf x rest;
    cbn [readHeaders_loop]; [discriminate|].
  destruct err; [intros [= _ <-]; now exists []|].
  destruct (String.eqb _ _); [intros [= _ <-]; now exists []|].
  destruct (parseHeader _) as [headerPair [e|]]; [intros [= _ <-]; now exists []|].
  destruct (headerPair !! 0%nat); [|discriminate].
  destruct (headerPair !! 1%nat); [|discriminate].
  unfold bind. change (bytes_of_string headerSeparator) with CRLF.
  destruct (readUntil CRLF buf) as [[[o e] r]|] eqn:Hr; [|discriminate].
  intros H. apply IH in H as [consumed ->].
  apply readUntil_split in Hr as ->. exists (o ++ consumed). now rewrite app_assoc.
Qed.

Lemma readHeaders_suffix (buf : list byte) x rest :
  readHeaders buf = Some (x, rest) -> exists consumed, buf = consumed ++ rest.
Proof.
  unfold readHeaders, bind. change (bytes_of_string headerSeparator) with CRLF.
  destruct (readUntil CRLF buf) as [[[o e] r]|] eqn:Hr; [|discriminate].
  intros H. apply readHeaders_loop_suffix in H as [consumed ->].
  apply readUntil_split in Hr as ->. exists (o ++ consumed). now rewrite app_assoc.
Qed.

Lemma DiscoveryPacket_Bytes_lines (packet : DiscoveryPacket) :
  DiscoveryPacket_Bytes packet
  = (bytes_of_string discoveryIdentifier ++ CRLF
       ++ header_lines
            [("TYPE", Type_ packet);
             ("HOST", IP_String (Address packet) +:+ ":" +:+ fmt_d (Port packet))]
       ++ CRLF, None).
Proof.
  unfold DiscoveryPacket_Bytes, DiscoveryPacket_String, strings_Join, header_lines,
    header_line.
  cbn [String.concat map concat fst snd].
  rewrite !append_assoc, !bytes_of_string_app, <- !app_assoc, ?app_nil_r.
  reflexivity.
Qed.

Lemma discovery_bytes_fit (ip : list byte) (a b c d : byte) (port : Z) (type : string) :
  To4 ip = Some [a; b; c; d] ->
  0 <= port < 65536 ->
  type = requestDiscoveryType \/ type = responseDiscoveryType ->
  (length (fst (DiscoveryPacket_Bytes {| Address := ip; Port := port; Type_ := type |}))
   <= bufferSize)%nat.
Proof.
  intros Hip Hport Htype. rewrite DiscoveryPacket_Bytes_lines.
  cbn [fst Address Port Type_]. rewrite (IP_String_To4 _ a b c d) by exact Hip.
  unfold header_lines, header_line. cbn [map concat fst snd].
  rewrite !length_app, !bytes_of_string_length, !string_length_app, CRLF_eq.
  pose proof (dotted_length a b c d).
  assert ((String.length (fmt_d port) <= 5)%nat)
    by (apply fmt_d_length; [lia | change (10 ^ Z.of_nat 5) with 100000; lia]).
  assert ((String.length type <= 11)%nat) by (destruct Htype as [-> | ->]; cbn; lia).
  unfold bufferSize. cbn [length String.length]. 
  change (String.length discoveryIdentifier) with 18%nat. lia.
Qed.

Section CodecCoverage.

Context (json_Unmarshal : list byte -> option (gmap string Value) + string).

(** C5, as the code has it. After the line [DYLLABLE-DISCOVERY CRLF]: when
    the header block is read to its blank line without error,
    [ParsePacket] rejects the packet as malformed, with the error naming
    [TYPE] when that header is missing; otherwise with the one naming
    [HOST] when that one is missing; otherwise with "invalid ip/port pair"
    when the value of [HOST] does not split; otherwise with "hostname is
    not supported" when the host is no literal IP; otherwise, the port
    being a 16-bit unsigned number, with "type ... not supported" when the
    value of [TYPE] is neither [DISCOVERY] nor [RUNNING-APP]. When the
    block is not read to its blank line, the error is that of
    [readHeaders], whatever headers are missing: after well-formed header
    lines, [io.EOF] when the buffer ends before a blank line, and "invalid
    header line" when the next line has no separator. *)
Theorem ParsePacket_discovery_malformed (rest : list byte) :
  let result :=
    ParsePacket json_Unmarshal (bytes_of_string discoveryIdentifier ++ CRLF ++ rest) in
  (forall (headers : gmap string string) (rest' : list byte),
      readHeaders rest = Some ((headers, None), rest') ->
      let rejects (e : error) :=
        result = Some ((None, Some e), rest') /\ error_kind e = MalformedPacket in
      (headers !! "TYPE" = None -> rejects (header_not_found "TYPE"))
      /\ forall packetType,
           headers !! "TYPE" = Some packetType ->
           (headers !! "HOST" = None -> rejects (header_not_found "HOST"))
           /\ forall packetHost,
                headers !! "HOST" = Some packetHost ->
                (forall host portString e,
                    net_SplitHostPort packetHost = (host, portString, Some e) ->
                    rejects (errors_New "malformed packet: invalid ip/port pair"))
                /\ forall host portString,
                     net_SplitHostPort packetHost = (host, portString, None) ->
                     (net_ParseIP host = None ->
                      rejects (errors_New "malformed packet: hostname is not supported"))
                     /\ forall ip port,
                          net_ParseIP host = Some ip ->
                          strconv_ParseUint portString 16 = (port, None) ->
                          packetType <> requestDiscoveryType ->
                          packetType <> responseDiscoveryType ->
                          rejects (errors_New
                                     ("malformed packet: type " +:+ dquote +:+ packetType
                                        +:+ dquote +:+ " not supported")))
  /\ (forall (pairs : list (string * string)) (junk : list byte),
         forallb header_ok pairs = true ->
         has_delim junk = false ->
         rest = header_lines pairs ++ junk ->
         result = Some ((None, Some io_EOF), [])
         /\ error_kind io_EOF = StreamExhausted)
  /\ (forall (pairs : list (string * string)) (raw : string) (tail : list byte),
         forallb header_ok pairs = true ->
         plain raw = true -> raw <> EmptyString ->
         (forall a b, raw <> a +:+ ": " +:+ b) ->
         rest = header_lines pairs ++ bytes_of_string raw ++ CRLF ++ tail ->
         result = Some ((None, Some (errors_New "invalid header line")), tail)
         /\ error_kind (errors_New "invalid header line") = MalformedPacket).
Proof.
  intros result. subst result. rewrite ParsePacket_discovery_line.
  unfold parseDiscovery, bind. split; [|split].
  - intros headers rest' Hread. cbv zeta beta. rewrite Hread.
    split.
    { intros ->. now split. }
    intros packetType ->. split.
    { intros ->. now split. }
    intros packetHost ->. split.
    { intros host portString e ->. now split. }
    intros host portString ->. split.
    { intros ->. now split. }
    intros ip port -> -> Hreq Hresp.
    apply String.eqb_neq in Hreq, Hresp. rewrite Hreq, Hresp.
    now split.
  - intros pairs junk Hok Hjunk ->.
    change readHeaders with (readHeaders_with ∅).
    rewrite readHeaders_with_lines by exact Hok.
    rewrite readHeaders_with_eof by exact Hjunk. now split.
  - intros pairs raw tail Hok Hplain Hne Hsep ->.
    change readHeaders with (readHeaders_with ∅).
    rewrite readHeaders_with_lines by exact Hok.
    rewrite readHeaders_with_invalid
      by (try assumption; now apply has_sep_none).
    now split.
Qed.

Lemma parseDiscovery_outcome (buf : list byte) :
  exists packet err rest,
    parseDiscovery buf = Some ((packet, err), rest)
    /\ (exists consumed, buf = consumed ++ rest)
    /\ packet_or_error packet err.
Proof.
  unfold parseDiscovery, bind.
  destruct (readHeaders_total buf) as (h & e & r & Hread & _). rewrite Hread.
  apply readHeaders_suffix in Hread.
  assert (Herr : forall e0 : error,
             exists packet err rest,
               ret (None, Some e0) r = Some ((packet, err), rest)
               /\ (exists consumed, buf = consumed ++ rest)
               /\ packet_or_error packet err).
  { intros e0. exists None, (Some e0), r. split; [reflexivity|].
    split; [exact Hread|]. right. eauto. }
  destruct e; [apply Herr|].
  destruct (h !! "TYPE") as [packetType|]; [|apply Herr].
  destruct (h !! "HOST") as [packetHost|]; [|apply Herr].
  destruct (net_SplitHostPort packetHost) as [[host portString] [e|]]; [apply Herr|].
  destruct (net_ParseIP host) as [ip|] eqn:Hip; [|apply Herr].
  destruct (strconv_ParseUint portString 16) as [port [e|]]; [apply Herr|].
  apply net_ParseIP_length in Hip.
  assert (Hport : 0 <= uint16 port < 65536)
    by (unfold uint16; apply Z.mod_pos_bound; reflexivity).
  destruct (String.eqb packetType requestDiscoveryType).
  { eexists _, _, r. split; [reflexivity|]. split; [exact Hread|].
    left. eexists. split; [reflexivity|]. split; [reflexivity|].
    cbn. auto. }
  destruct (String.eqb packetType responseDiscoveryType); [|apply Herr].
  eexists _, _, r. split; [reflexivity|]. split; [exact Hread|].
  left. eexists. split; [reflexivity|]. split; [reflexivity|].
  cbn. auto.
Qed.

Lemma parseRequestAction_outcome (buf : list byte) :
  exists packet err rest,
    parseRequestAction json_Unmarshal buf = Some ((packet, err), rest)
    /\ (exists consumed, buf = consumed ++ rest)
    /\ packet_or_error packet err.
Proof.
  unfold parseRequestAction, bind.
  destruct (readHeaders_total buf) as (h & e & r & Hread & _). rewrite Hread.
  apply readHeaders_suffix in Hread.
  assert (Herr : forall (e0 : error) r',
             (exists consumed, buf = consumed ++ r') ->
             exists packet err rest,
               ret (None, Some e0) r' = Some ((packet, err), rest)
               /\ (exists consumed, buf = consumed ++ rest)
               /\ packet_or_error packet err).
  { intros e0 r' Hr'. exists None, (Some e0), r'. split; [reflexivity|].
    split; [exact Hr'|]. right. eauto. }
  destruct e; [now apply Herr|].
  destruct (h !! "REQUEST-UUID") as [uuidString|]; [|now apply Herr].
  destruct (uuid_Parse uuidString) as [requestUUID|e] eqn:Hu; [|now apply Herr].
  destruct (h !! "ACTION-ID") as [actionString|]; [|now apply Herr].
  destruct (strconv_ParseUint actionString 8) as [actionId [e|]]; [now apply Herr|].
  apply uuid_Parse_length in Hu.
  assert (Hid : 0 <= uint8 actionId < 256)
    by (unfold uint8; apply Z.mod_pos_bound; reflexivity).
  change (bytes_of_string headerSeparator) with CRLF.
  destruct (readUntil_total r) as (line & status & r' & Hline). rewrite Hline.
  apply readUntil_split in Hline.
  assert (Hr' : exists consumed, buf = consumed ++ r').
  { destruct Hread as [consumed ->]. subst r. exists (consumed ++ line).
    now rewrite app_assoc. }
  assert (Hok : forall parameters,
             exists packet err rest,
               ret (Some (PRequestAction {| RequestUUID := requestUUID;
                                            ActionId := uint8 actionId;
                                            Parameters := parameters |}),
                    @None error) r'
               = Some ((packet, err), rest)
               /\ (exists consumed, buf = consumed ++ rest)
               /\ packet_or_error packet err).
  { intros parameters. eexists _, _, r'. split; [reflexivity|]. split; [exact Hr'|].
    left. eexists. split; [reflexivity|]. split; [reflexivity|]. cbn. auto. }
  destruct status; [apply Hok|].
  destruct (json_Unmarshal line); [apply Hok | now apply Herr].
Qed.

Lemma ParsePacket_cases (buf : list byte) :
  exists packet err rest,
    ParsePacket json_Unmarshal buf = Some ((packet, err), rest)
    /\ (exists consumed, buf = consumed ++ rest)
    /\ (packet_or_error packet err
        \/ (packet = None /\ err = None
            /\ exists line,
                 buf = line ++ CRLF ++ rest
                 /\ has_delim line = false
                 /\ strings_TrimRight (string_of_bytes line) headerSeparator
                    = responseActionIdentifier)).
Proof.
  destruct (first_line_cases buf) as [H | (line & rest & -> & H)].
  - rewrite ParsePacket_no_delim by exact H.
    exists None, (Some io_EOF), []. split; [reflexivity|].
    split; [exists buf; now rewrite app_nil_r|]. left. right. eauto.
  - rewrite ParsePacket_line by exact H. unfold dispatch.
    assert (Hmore : forall m : M (option Packet * option error),
               (exists packet err rest',
                   m rest = Some ((packet, err), rest')
                   /\ (exists consumed, rest = consumed ++ rest')
                   /\ packet_or_error packet err) ->
               exists packet err rest',
                 m rest = Some ((packet, err), rest')
                 /\ (exists consumed, line ++ CRLF ++ rest = consumed ++ rest')
                 /\ (packet_or_error packet err
                     \/ (packet = None /\ err = None
                         /\ exists line0,
                              line ++ CRLF ++ rest = line0 ++ CRLF ++ rest'
                              /\ has_delim line0 = false
                              /\ strings_TrimRight (string_of_bytes line0) headerSeparator
                                 = responseActionIdentifier))).
    { intros m (packet & err & rest' & Hm & [consumed ->] & Hcase).
      exists packet, err, rest'. split; [exact Hm|]. split; [|now left].
      exists (line ++ CRLF ++ consumed). now rewrite <- !app_assoc. }
    destruct (String.eqb _ requestActionIdentifier);
      [apply Hmore, parseRequestAction_outcome|].
    destruct (String.eqb _ responseActionIdentifier) eqn:Hresp.
    { apply String.eqb_eq in Hresp.
      exists None, None, rest. split; [reflexivity|].
      split; [exists (line ++ CRLF); now rewrite <- app_assoc|].
      right. split; [reflexivity|]. split; [reflexivity|].
      exists line. auto. }
    destruct (String.eqb _ discoveryIdentifier);
      [apply Hmore, parseDiscovery_outcome|].
    apply Hmore. exists None, (Some (errors_New "malformed packet: identifier not knwon")), rest.
    split; [reflexivity|]. split; [now exists []|]. right. eauto.
Qed.

(** X8. On every buffer [ParsePacket] returns (it does not panic), what it
    leaves is the end of the buffer, and its result is one of three: a
    packet and no error; an error and no packet; or neither, which happens
    only when the first line is the identifier of an action response. *)
Theorem ParsePacket_outcomes (buf : list byte) :
  exists packet err rest,
    ParsePacket json_Unmarshal buf = Some ((packet, err), rest)
    /\ (exists consumed, buf = consumed ++ rest)
    /\ ((exists p, packet = Some p /\ err = None)
        \/ (packet = None /\ exists e, err = Some e)
        \/ (packet = None /\ err = None
            /\ exists line,
                 buf = line ++ CRLF ++ rest
                 /\ has_delim line = false
                 /\ strings_TrimRight (string_of_bytes line) headerSeparator
                    = responseActionIdentifier)).
Proof.
  destruct (ParsePacket_cases buf) as (packet & err & rest & H & Hsuffix & Hcase).
  exists packet, err, rest. split; [exact H|]. split; [exact Hsuffix|].
  destruct Hcase as [[(p & -> & -> & _) | Herr] | Hnil]; eauto.
Qed.

(** X9. A packet that [ParsePacket] returns comes without an error and is
    well formed: a discovery packet has an address of 16 bytes, a port of
    16 bits and one of the two types; a request has a UUID of 16 bytes and
    an action of 8 bits; a response packet is never returned. *)
Theorem ParsePacket_packet_parsed (buf : list byte) (packet : Packet)
  (err : option error) (rest : list byte) :
  ParsePacket json_Unmarshal buf = Some ((Some packet, err), rest) ->
  err = None
  /\ match packet with
     | PDiscovery p =>
         length (Address p) = 16%nat
         /\ 0 <= Port p < 65536
         /\ (Type_ p = "DISCOVERY" \/ Type_ p = "RUNNING-APP")
     | PRequestAction p =>
         length (RequestUUID p) = 16%nat /\ 0 <= ActionId p < 256
     | PResponseAction _ => False
     end.
Proof.
  intros H.
  destruct (ParsePacket_cases buf) as (packet' & err' & rest' & H' & _ & Hcase).
  rewrite H in H'. injection H' as <- <- <-.
  destruct Hcase as [[(p & [= <-] & -> & Hp) | [[=] _]] | ([=] & _)].
  split; [reflexivity|]. exact Hp.
Qed.

(** X10. [ParsePacket] looks at the header block through the map of
    [readHeaders] only: two blocks in which [TYPE], [HOST], [REQUEST-UUID]
    and [ACTION-ID] have the same last values give the same result, for a
    discovery packet and for a request, in whatever order the lines come
    and whatever other headers are there. *)
Theorem ParsePacket_headers_by_name (pairs pairs' : list (string * string))
  (tail : list byte) :
  forallb header_ok pairs = true ->
  forallb header_ok pairs' = true ->
  (forall key, In key ["TYPE"; "HOST"; "REQUEST-UUID"; "ACTION-ID"] ->
               last_value key pairs = last_value key pairs') ->
  ParsePacket json_Unmarshal
    (bytes_of_string discoveryIdentifier ++ CRLF ++ header_lines pairs ++ CRLF ++ tail)
  = ParsePacket json_Unmarshal
      (bytes_of_string discoveryIdentifier ++ CRLF ++ header_lines pairs' ++ CRLF ++ tail)
  /\ ParsePacket json_Unmarshal
       (bytes_of_string requestActionIdentifier ++ CRLF ++ header_lines pairs ++ CRLF ++ tail)
     = ParsePacket json_Unmarshal
         (bytes_of_string requestActionIdentifier ++ CRLF ++ header_lines pairs' ++ CRLF
            ++ tail).
Proof.
  intros Hok Hok' Hsame.
  rewrite !ParsePacket_discovery_line, !ParsePacket_request_line.
  unfold parseDiscovery, parseRequestAction, bind.
  rewrite !readHeaders_lines by assumption.
  rewrite !headers_of_lookup.
  rewrite !(Hsame "TYPE"), !(Hsame "HOST"), !(Hsame "REQUEST-UUID"), !(Hsame "ACTION-ID")
    by (cbn; tauto).
  split; reflexivity.
Qed.

(** ** Packets in a stream *)

(** The discovery case of [ParsePacket] on the header block of a discovery
    packet for an IPv4 address. *)
Lemma parseDiscovery_lines (type : string) (a b c d : byte) (port : Z)
  (tail : list byte) :
  type = requestDiscoveryType \/ type = responseDiscoveryType ->
  0 <= port < 65536 ->
  parseDiscovery
    (header_lines [("TYPE", type); ("HOST", dotted a b c d +:+ ":" +:+ fmt_d port)]
       ++ CRLF ++ tail)
  = Some ((Some (PDiscovery {| Address := net_IPv4 a b c d;
                               Port := port;
                               Type_ := type |}), None), tail).
Proof.
  intros Htype Hport. unfold parseDiscovery, bind.
  rewrite readHeaders_lines.
  2:{ cbn [forallb]. unfold header_ok. cbn [fst snd].
      rewrite !plain_app, plain_dotted, plain_fmt_d.
      destruct Htype as [-> | ->]; reflexivity. }
  rewrite !headers_of_lookup. unfold last_value.
  cbn [rev app find fst snd].
  change (String.eqb "HOST" "TYPE") with false.
  change (String.eqb "HOST" "HOST") with true.
  change (String.eqb "TYPE" "TYPE") with true.
  cbn [option_map snd].
  rewrite SplitHostPort_dotted by (apply dotted_host_chars || apply fmt_d_digits).
  rewrite ParseIP_dotted.
  rewrite ParseUint_fmt_d by (change (2 ^ 16) with 65536; lia).
  rewrite uint16_small by exact Hport.
  destruct Htype as [-> | ->]; reflexivity.
Qed.

(** X11. A discovery packet of either type for an IPv4 address, held in 4
    or in 16 bytes, delimits itself: from its bytes followed by any other
    bytes, [ParsePacket] returns the packet, with the address in its
    16-byte form, and leaves exactly the bytes that follow. *)
Theorem discovery_packets_stream (packet : DiscoveryPacket) (a b c d : byte)
  (more : list byte) :
  To4 (Address packet) = Some [a; b; c; d] ->
  0 <= Port packet < 65536 ->
  Type_ packet = requestDiscoveryType \/ Type_ packet = responseDiscoveryType ->
  exists data,
    DiscoveryPacket_Bytes packet = (data, None)
    /\ ParsePacket json_Unmarshal (data ++ more)
       = Some ((Some (PDiscovery {| Address := net_IPv4 a b c d;
                                    Port := Port packet;
                                    Type_ := Type_ packet |}), None), more).
Proof.
  intros Hip Hport Htype. rewrite DiscoveryPacket_Bytes_lines.
  eexists. split; [reflexivity|].
  rewrite <- !app_assoc. rewrite ParsePacket_discovery_line.
  rewrite (IP_String_To4 _ a b c d) by exact Hip.
  now apply parseDiscovery_lines.
Qed.

(** X12. No discovery packet for an IPv6 address is read back: the text of
    the address has colons of its own and [HOST] is written without
    brackets, so [ParsePacket] rejects the bytes of the packet with
    "invalid ip/port pair", whatever the address, the port and the
    type. *)
Theorem discovery_ipv6_rejected (packet : DiscoveryPacket) :
  length (Address packet) = 16%nat ->
  To4 (Address packet) = None ->
  Type_ packet = requestDiscoveryType \/ Type_ packet = responseDiscoveryType ->
  exists data,
    DiscoveryPacket_Bytes packet = (data, None)
    /\ ParsePacket json_Unmarshal data
       = Some ((None, Some (errors_New "malformed packet: invalid ip/port pair")), []).
Proof.
  intros Hlen Hv4 Htype. rewrite DiscoveryPacket_Bytes_lines.
  eexists. split; [reflexivity|].
  destruct (IP_String_v6 _ Hlen Hv4) as [Hchars Hcolon].
  rewrite <- (app_nil_r CRLF) at 2. rewrite ParsePacket_discovery_line.
  unfold parseDiscovery, bind.
  rewrite readHeaders_lines.
  2:{ cbn [forallb]. unfold header_ok. cbn [fst snd].
      rewrite !plain_app, plain_fmt_d, (v6_plain _ Hchars).
      destruct Htype as [-> | ->]; reflexivity. }
  rewrite !headers_of_lookup. unfold last_value. cbn [rev app find fst snd].
  change (String.eqb "HOST" "TYPE") with false.
  change (String.eqb "HOST" "HOST") with true.
  change (String.eqb "TYPE" "TYPE") with true.
  cbn [option_map snd].
  destruct (SplitHostPort_too_many_colons
              (IP_String (Address packet)) (fmt_d (Port packet)) Hchars Hcolon
              (fmt_d_digits _)) as [e ->].
  reflexivity.
Qed.

(** X18. A discovery packet whose address is neither 4 nor 16 bytes long
    (a [nil] address among them) is not read back either: its [HOST]
    carries "<nil>" or "?" and hexadecimal digits in place of an address,
    and [ParsePacket] rejects the bytes of the packet with "hostname is not
    supported". *)
Theorem discovery_bad_address_rejected (packet : DiscoveryPacket) :
  length (Address packet) <> 4%nat ->
  length (Address packet) <> 16%nat ->
  Type_ packet = requestDiscoveryType \/ Type_ packet = responseDiscoveryType ->
  exists data,
    DiscoveryPacket_Bytes packet = (data, None)
    /\ ParsePacket json_Unmarshal data
       = Some ((None, Some (errors_New "malformed packet: hostname is not supported")),
               []).
Proof.
  intros H4 H6 Htype. rewrite DiscoveryPacket_Bytes_lines.
  eexists. split; [reflexivity|].
  pose proof (IP_String_name _ H4 H6) as Hname.
  rewrite <- (app_nil_r CRLF) at 2. rewrite ParsePacket_discovery_line.
  unfold parseDiscovery, bind.
  rewrite readHeaders_lines.
  2:{ cbn [forallb]. unfold header_ok. cbn [fst snd].
      rewrite !plain_app, plain_fmt_d, (name_plain _ Hname).
      destruct Htype as [-> | ->]; reflexivity. }
  rewrite !headers_of_lookup. unfold last_value. cbn [rev app find fst snd].
  change (String.eqb "HOST" "TYPE") with false.
  change (String.eqb "HOST" "HOST") with true.
  change (String.eqb "TYPE" "TYPE") with true.
  cbn [option_map snd].
  rewrite SplitHostPort_name by (exact Hname || apply fmt_d_digits).
  unfold net_ParseIP. rewrite ParseIP_scan_name by exact Hname.
  reflexivity.
Qed.

End CodecCoverage.

Section RequestStreams.

Context (json_Marshal : option (gmap string Value) -> string + string).
Context (json_Unmarshal : list byte -> option (gmap string Value) + string).

Lemma RequestActionPacket_Bytes_lines (packet : RequestActionPacket)
  (parametersJSON : string) :
  json_Marshal (Parameters packet) = inl parametersJSON ->
  RequestActionPacket_Bytes json_Marshal packet
  = (bytes_of_string requestActionIdentifier ++ CRLF
       ++ header_lines
            [("REQUEST-UUID", UUID_String (RequestUUID packet));
             ("ACTION-ID", fmt_d (ActionId packet))]
       ++ CRLF
       ++ match Parameters packet with
          | Some _ => bytes_of_string parametersJSON ++ CRLF ++ CRLF
          | None => []
          end, None).
Proof.
  intros Hmarshal.
  unfold RequestActionPacket_Bytes, RequestActionPacket_String, strings_Join,
    header_lines, header_line.
  rewrite Hmarshal. cbn [String.concat map concat fst snd].
  destruct (Parameters packet);
    rewrite !append_assoc, !bytes_of_string_app, <- !app_assoc, ?app_nil_r;
    reflexivity.
Qed.

(** The request case of [ParsePacket] after the header block of a request
    packet: the body is still to be read. *)
Lemma parseRequestAction_lines (u : list byte) (a : Z) (tail : list byte) :
  length u = 16%nat -> 0 <= a < 256 ->
  parseRequestAction json_Unmarshal
    (header_lines [("REQUEST-UUID", UUID_String u); ("ACTION-ID", fmt_d a)]
       ++ CRLF ++ tail)
  = (let* '(parametersBytes, err) := readUntil CRLF in
     match err with
     | None =>
         match json_Unmarshal parametersBytes with
         | inr msg => ret (None, Some (json_Error msg))
         | inl parametersJSON =>
             ret (Some (PRequestAction
                          {| RequestUUID := u; ActionId := a;
                             Parameters := parametersJSON |}), None)
         end
     | Some _ =>
         ret (Some (PRequestAction
                      {| RequestUUID := u; ActionId := a; Parameters := None |}), None)
     end) tail.
Proof.
  intros Hlen Hid. unfold parseRequestAction, bind.
  rewrite readHeaders_lines.
  2:{ cbn [forallb]. unfold header_ok. cbn [fst snd].
      rewrite plain_UUID_String, plain_fmt_d. reflexivity. }
  rewrite !headers_of_lookup. unfold last_value. cbn [rev app find fst snd].
  change (String.eqb "ACTION-ID" "REQUEST-UUID") with false.
  change (String.eqb "REQUEST-UUID" "REQUEST-UUID") with true.
  change (String.eqb "ACTION-ID" "ACTION-ID") with true.
  cbn [option_map snd].
  rewrite uuid_Parse_String by exact Hlen.
  rewrite ParseUint_fmt_d by (change (2 ^ 8) with 256; lia).
  rewrite uint8_small by exact Hid. reflexivity.
Qed.

(** X13. A request with a body is written with a blank line after the body
    that [ParsePacket] does not read. From the bytes of such a packet
    followed by other bytes, a first call returns the packet and a second
    call reads the blank line left over and returns the unknown-identifier
    error; only then is the buffer at the bytes that follow. *)
Theorem request_with_body_leaves_blank_line (packet : RequestActionPacket)
  (parametersJSON : string) (more : list byte) :
  length (RequestUUID packet) = 16%nat ->
  0 <= ActionId packet < 256 ->
  Parameters packet <> None ->
  json_Marshal (Parameters packet) = inl parametersJSON ->
  plain parametersJSON = true ->
  json_Unmarshal (bytes_of_string parametersJSON ++ CRLF) = inl (Parameters packet) ->
  exists data,
    RequestActionPacket_Bytes json_Marshal packet = (data, None)
    /\ (let* first := ParsePacket json_Unmarshal in
        let* second := ParsePacket json_Unmarshal in
        ret [first; second]) (data ++ more)
       = Some ([(Some (PRequestAction packet), None);
                (None, Some (errors_New "malformed packet: identifier not knwon"))],
               more).
Proof.
  intros Hlen Hid Hbody Hmarshal Hplain Hread.
  rewrite (RequestActionPacket_Bytes_lines packet parametersJSON Hmarshal).
  eexists. split; [reflexivity|].
  destruct packet as [u a parameters]. cbn [RequestUUID ActionId Parameters] in *.
  destruct parameters as [m|]; [|congruence].
  rewrite <- !app_assoc. unfold bind at 1.
  rewrite ParsePacket_request_line.
  rewrite parseRequestAction_lines by assumption.
  unfold bind at 1. rewrite readUntil_line by now apply plain_has_delim.
  rewrite Hread. unfold ret at 1. unfold bind.
  change (CRLF ++ more) with ([] ++ CRLF ++ more).
  rewrite (ParsePacket_line json_Unmarshal [] more) by reflexivity.
  reflexivity.
Qed.

(** X14. A request without a body is read back as it is only at the end of
    the buffer. When a line follows its bytes, [ParsePacket] hands that
    line to [json.Unmarshal] as the body: the request comes back with the
    decoded parameters, or the packet is rejected with the error of the
    decoder. *)
Theorem request_without_body_takes_next_line (packet : RequestActionPacket)
  (parametersJSON : string) (next more : list byte) :
  length (RequestUUID packet) = 16%nat ->
  0 <= ActionId packet < 256 ->
  Parameters packet = None ->
  json_Marshal (Parameters packet) = inl parametersJSON ->
  has_delim next = false ->
  exists data,
    RequestActionPacket_Bytes json_Marshal packet = (data, None)
    /\ ParsePacket json_Unmarshal (data ++ next ++ CRLF ++ more)
       = match json_Unmarshal (next ++ CRLF) with
         | inl parameters =>
             Some ((Some (PRequestAction
                            {| RequestUUID := RequestUUID packet;
                               ActionId := ActionId packet;
                               Parameters := parameters |}), None), more)
         | inr msg => Some ((None, Some (json_Error msg)), more)
         end.
Proof.
  intros Hlen Hid Hbody Hmarshal Hnext.
  rewrite (RequestActionPacket_Bytes_lines _ parametersJSON Hmarshal).
  destruct packet as [u a parameters]. cbn [RequestUUID ActionId Parameters] in *.
  subst parameters.
  eexists. split; [reflexivity|].
  rewrite <- !app_assoc. cbn [app].
  rewrite ParsePacket_request_line.
  rewrite parseRequestAction_lines by assumption.
  unfold bind. rewrite readUntil_line by exact Hnext.
  destruct (json_Unmarshal (next ++ CRLF)); reflexivity.
Qed.

End RequestStreams.

(** ** The discovery engine *)

Section EngineProperties.

Context (json_Unmarshal : list byte -> option (gmap string Value) + string).
Context (net_ResolveTCPAddr : string -> string -> TCPAddr + error).

(** A discovery packet for an IPv4 address fits the read buffer and is read
    back from the datagram. *)
Lemma discovery_datagram_parsed (ip : list byte) (a b c d : byte) (port : Z)
  (type : string) :
  To4 ip = Some [a; b; c; d] ->
  type = requestDiscoveryType \/ type = responseDiscoveryType ->
  ParsePacket json_Unmarshal
    (firstn bufferSize
       (fst (DiscoveryPacket_Bytes
               {| Address := ip; Port := uint16 port; Type_ := type |})))
  = Some ((Some (PDiscovery {| Address := net_IPv4 a b c d;
                               Port := uint16 port;
                               Type_ := type |}), None), []).
Proof.
  intros Hip Htype.
  rewrite firstn_all2
    by (apply (discovery_bytes_fit ip a b c d); auto using uint16_range).
  rewrite DiscoveryPacket_Bytes_lines. cbn [fst Address Port Type_].
  rewrite ParsePacket_discovery_line.
  rewrite (IP_String_To4 _ a b c d) by exact Hip.
  rewrite <- (app_nil_r CRLF).
  apply parseDiscovery_lines; [exact Htype | apply uint16_range].
Qed.


(** X15. [LookForNodes] announces nothing: its sender builds the
    [DISCOVERY] packet of the application socket and writes it with
    [WriteToUDP] on the socket that [DialUDP] returned, which the package
    refuses with [ErrWriteToConnected] before anything is sent, whatever
    the socket and whatever the system would answer; the sender ends on
    that error. When the bytes of such a packet, for an IPv4 address and
    any port, reach a [DiscoveryService] from another sender, a round sets
    the write deadline, answers with the socket of the service and starts
    the resolution of the socket announced, which hands the dotted address
    and the port, modulo 65536, to [net.ResolveTCPAddr] on "tcp4". *)
Theorem discovery_request_round (client server : TCPAddr) (a b c d : byte)
  (sysErr : option error) :
  To4 (TCPAddr_IP client) = Some [a; b; c; d] ->
  let request :=
    NewRequestDiscoveryPacket (TCPAddr_IP client) (uint16 (TCPAddr_Port client)) in
  let announced :=
    NewRequestDiscoveryPacket (net_IPv4 a b c d) (uint16 (TCPAddr_Port client)) in
  LookForNodes_send client sysErr
  = (None, Some (net_OpError "write" net_ErrWriteToConnected))
  /\ DiscoveryService_receive json_Unmarshal server
       (fst (DiscoveryPacket_Bytes request)) None
     = Some [conn_SetWriteDeadline;
             conn_WriteTo (discovery_reply server);
             go_resolveDiscoveryPacketTCPAddress announced]
  /\ resolveDiscoveryPacketTCPAddress net_ResolveTCPAddr announced
     = match net_ResolveTCPAddr "tcp4"
               (dotted a b c d +:+ ":" +:+ fmt_d (uint16 (TCPAddr_Port client))) with
       | inl theirAppSocket => Some theirAppSocket
       | inr _ => None
       end.
Proof.
  intros Hclient request announced. subst request announced.
  split; [|split].
  - unfold LookForNodes_send.
    destruct (DiscoveryPacket_Bytes _) as [packetBytes e]. reflexivity.
  - unfold DiscoveryService_receive, NewRequestDiscoveryPacket.
    rewrite (discovery_datagram_parsed _ a b c d) by auto.
    reflexivity.
  - unfold resolveDiscoveryPacketTCPAddress, NewRequestDiscoveryPacket.
    cbn [Address Port]. now rewrite IP_String_IPv4.
Qed.


(** X17. A round of the receiving loop of [DiscoveryService] never panics,
    whatever the datagram. It does nothing, or only sets the write
    deadline (when that fails), or sets it and writes one answer, which is
    the same whatever the datagram was; and it starts a resolution only
    after that, for a well-formed discovery packet of type [DISCOVERY]. *)
Theorem DiscoveryService_receive_cases (appSocket : TCPAddr) (datagram : list byte)
  (deadlineErr : option error) :
  exists effects,
    DiscoveryService_receive json_Unmarshal appSocket datagram deadlineErr = Some effects
    /\ (effects = []
        \/ (effects = [conn_SetWriteDeadline] /\ deadlineErr <> None)
        \/ (effects = [conn_SetWriteDeadline; conn_WriteTo (discovery_reply appSocket)]
            /\ deadlineErr = None)
        \/ exists discoveryPacket,
             effects = [conn_SetWriteDeadline;
                        conn_WriteTo (discovery_reply appSocket);
                        go_resolveDiscoveryPacketTCPAddress discoveryPacket]
             /\ deadlineErr = None
             /\ Type_ discoveryPacket = requestDiscoveryType
             /\ length (Address discoveryPacket) = 16%nat
             /\ 0 <= Port discoveryPacket < 65536).
Proof.
  unfold DiscoveryService_receive.
  destruct (ParsePacket_cases json_Unmarshal (firstn bufferSize datagram))
    as (packet & err & rest & -> & _ & Hcase).
  destruct Hcase as [[(p & -> & -> & Hp) | (-> & e & ->)] | (-> & -> & _)];
    [|eauto..].
  destruct p as [p|p|p]; [|eauto..].
  destruct deadlineErr as [e|]; [eexists; split; [reflexivity|]; right; left; now split|].
  unfold discovery_reply.
  destruct (DiscoveryPacket_Bytes _) as [responsePacketBytes e] eqn:Hbytes.
  cbn [fst]. destruct (String.eqb (Type_ p) requestDiscoveryType) eqn:Htype.
  - apply String.eqb_eq in Htype. destruct Hp as (Hlen & Hport & _).
    eexists. split; [reflexivity|]. right. right. right. exists p. auto.
  - eexists. split; [reflexivity|]. right. right. left. now split.
Qed.


End EngineProperties.

(** * Instances *)

(** The statements above at concrete inputs. *)

(** A first line that is no identifier, followed by more bytes. *)
Lemma ParsePacket_identifier_witness :
  ParsePacket sample_Unmarshal (bytes_of_string "DYLLABLE-DYSCOVERY" ++ CRLF ++ bytes_of_string "TYPE: DISCOVERY")
  = Some ((None, Some (errors_New "malformed packet: identifier not knwon")),
          bytes_of_string "TYPE: DISCOVERY").
Proof.
  destruct (ParsePacket_identifier sample_Unmarshal
              (bytes_of_string "DYLLABLE-DYSCOVERY" ++ CRLF ++ bytes_of_string "TYPE: DISCOVERY"))
    as [_ H].
  destruct (H (bytes_of_string "DYLLABLE-DYSCOVERY") (bytes_of_string "TYPE: DISCOVERY")
              eq_refl eq_refl) as (_ & _ & _ & Hunknown).
  destruct Hunknown as (e & Hresult & -> & _); [discriminate..|].
  exact Hresult.
Defined.

(** C9 as stated fails twice: a first line made of an identifier, a LF and
    the delimiter is taken for the identifier, and a buffer that is no
    identifier and has no delimiter yields [io.EOF], which is not the
    unknown-identifier error. *)
Lemma ParsePacket_identifier_counterexample :
  (forall json_Unmarshal,
      ParsePacket json_Unmarshal
        (bytes_of_string
           ("DYLLABLE-DISCOVERY" +:+ String LF EmptyString +:+ headerSeparator
              +:+ line "TYPE: RUNNING-APP" +:+ line "HOST: 127.0.0.1:8400"
              +:+ headerSeparator))
      = Some ((Some (PDiscovery {| Address := net_IPv4 x7f x00 x00 x01;
                                   Port := 8400;
                                   Type_ := responseDiscoveryType |}),
               None), []))
  /\ (forall json_Unmarshal,
         ParsePacket json_Unmarshal (bytes_of_string "DYLLABLE-DYSCOVERY")
         = Some ((None, Some io_EOF), []))
  /\ error_kind io_EOF <> UnknownIdentifier.
Proof.
  split; [|split].
  - intros json_Unmarshal. vm_compute. reflexivity.
  - intros json_Unmarshal. vm_compute. reflexivity.
  - discriminate.
Qed.

(** A header block with an unsupported [TYPE]. *)
Lemma ParsePacket_discovery_malformed_witness :
  let result :=
    ParsePacket sample_Unmarshal
      (bytes_of_string discoveryIdentifier ++ CRLF
         ++ bytes_of_string (line "TYPE: INVALID" +:+ line "HOST: 127.0.0.1:8400"
                               +:+ headerSeparator)) in
  let e :=
    errors_New ("malformed packet: type " +:+ quoted "INVALID" +:+ " not supported") in
  result = Some ((None, Some e), []) /\ error_kind e = MalformedPacket.
Proof.
  assert (Hread :
            readHeaders (bytes_of_string (line "TYPE: INVALID" +:+ line "HOST: 127.0.0.1:8400"
                                            +:+ headerSeparator))
            = Some ((<["HOST" := "127.0.0.1:8400"]> (<["TYPE" := "INVALID"]> ∅), None), []))
    by (vm_compute; reflexivity).
  destruct (ParsePacket_discovery_malformed sample_Unmarshal
              (bytes_of_string (line "TYPE: INVALID" +:+ line "HOST: 127.0.0.1:8400"
                                  +:+ headerSeparator))) as [H0 _].
  destruct (H0 _ _ Hread) as [_ H].
  destruct (H "INVALID" ltac:(vm_compute; reflexivity)) as [_ H1].
  destruct (H1 "127.0.0.1:8400" ltac:(vm_compute; reflexivity)) as [_ H2].
  destruct (H2 "127.0.0.1" "8400" eq_refl) as [_ H3].
  exact (H3 (net_IPv4 x7f x00 x00 x01) 8400 eq_refl eq_refl
            ltac:(discriminate) ltac:(discriminate)).
Defined.

(** C5 as stated fails on a header block that ends before its blank line:
    [TYPE] is missing from the headers read, and the error is [io.EOF],
    which names no header and is not a malformed-packet error. *)
Lemma ParsePacket_discovery_counterexample :
  (exists headers,
      readHeaders (bytes_of_string (line "HOST: 127.0.0.1:8400"))
      = Some ((headers, Some io_EOF), [])
      /\ headers !! "TYPE" = None)
  /\ (forall json_Unmarshal,
         ParsePacket json_Unmarshal
           (bytes_of_string (line "DYLLABLE-DISCOVERY" +:+ line "HOST: 127.0.0.1:8400"))
         = Some ((None, Some io_EOF), []))
  /\ error_kind io_EOF <> MalformedPacket.
Proof.
  split; [|split].
  - eexists. split; vm_compute; reflexivity.
  - intros json_Unmarshal. vm_compute. reflexivity.
  - discriminate.
Qed.

(** C6 as stated fails on a [REQUEST-UUID] written with the prefix
    [urn:uuid:], which is not the canonical form: the packet is accepted. *)
Lemma ParsePacket_request_counterexample :
  canonical_uuid_text ("urn:uuid:" +:+ example_uuid_text) = false
  /\ forall json_Unmarshal,
       ParsePacket json_Unmarshal
         (bytes_of_string
            (line "DYLLABLE-ACTION-REQUEST"
               +:+ line ("REQUEST-UUID: urn:uuid:" +:+ example_uuid_text)
               +:+ line "ACTION-ID: 1" +:+ headerSeparator))
       = Some ((Some (PRequestAction {| RequestUUID := example_uuid;
                                        ActionId := 1;
                                        Parameters := None |}),
                None), []).
Proof.
  split; [reflexivity|].
  intros json_Unmarshal. vm_compute. reflexivity.
Qed.

(** A request whose body line is the empty object. *)
Lemma ParsePacket_request_body_witness :
  ParsePacket sample_Unmarshal
    (bytes_of_string requestActionIdentifier ++ CRLF
       ++ bytes_of_string (line ("REQUEST-UUID: " +:+ example_uuid_text)
                             +:+ line "ACTION-ID: 10" +:+ headerSeparator
                             +:+ line "{}" +:+ headerSeparator))
  = Some ((Some (PRequestAction {| RequestUUID := example_uuid;
                                   ActionId := 10;
                                   Parameters := Some ∅ |}),
           None), CRLF).
Proof.
  assert (Hread :
            readHeaders
              (bytes_of_string (line ("REQUEST-UUID: " +:+ example_uuid_text)
                                  +:+ line "ACTION-ID: 10" +:+ headerSeparator
                                  +:+ line "{}" +:+ headerSeparator))
            = Some ((<["ACTION-ID" := "10"]>
                       (<["REQUEST-UUID" := example_uuid_text]> ∅), None),
                    bytes_of_string "{}" ++ CRLF ++ CRLF))
    by (vm_compute; reflexivity).
  destruct (ParsePacket_request_body sample_Unmarshal _ _ _
              example_uuid_text "10" example_uuid 10 Hread
              ltac:(vm_compute; reflexivity) eq_refl
              ltac:(vm_compute; reflexivity) eq_refl) as (_ & H & _).
  exact (H (bytes_of_string "{}") CRLF eq_refl eq_refl).
Defined.

(** C7 as stated fails on the body line [null], which is no JSON object
    text: [encoding/json] accepts it and leaves the map [nil], and with
    any decoder that does so [ParsePacket] returns a request without
    parameters, and no error. [null_Unmarshal] is such a decoder. *)
Lemma ParsePacket_request_body_counterexample :
  (forall json_Unmarshal : list byte -> option (gmap string Value) + string,
      json_Unmarshal (bytes_of_string "null" ++ CRLF) = inl None ->
      ParsePacket json_Unmarshal
        (bytes_of_string
           (line "DYLLABLE-ACTION-REQUEST"
              +:+ line ("REQUEST-UUID: " +:+ example_uuid_text)
              +:+ line "ACTION-ID: 10" +:+ headerSeparator
              +:+ line "null" +:+ headerSeparator))
      = Some ((Some (PRequestAction {| RequestUUID := example_uuid;
                                       ActionId := 10;
                                       Parameters := None |}),
               None), CRLF))
  /\ null_Unmarshal (bytes_of_string "null" ++ CRLF) = inl None
  /\ ParsePacket null_Unmarshal
       (bytes_of_string
          (line "DYLLABLE-ACTION-REQUEST"
             +:+ line ("REQUEST-UUID: " +:+ example_uuid_text)
             +:+ line "ACTION-ID: 10" +:+ headerSeparator
             +:+ line "null" +:+ headerSeparator))
     = Some ((Some (PRequestAction {| RequestUUID := example_uuid;
                                      ActionId := 10;
                                      Parameters := None |}),
              None), CRLF).
Proof.
  split; [|split].
  - intros json_Unmarshal Hnull. vm_compute in Hnull. vm_compute.
    rewrite Hnull. reflexivity.
  - reflexivity.
  - vm_compute. reflexivity.
Qed.

(** The packets of [TestRequestActionPacket] and
    [TestResponseActionPacket]. *)
Lemma action_packet_framing_witness :
  RequestActionPacket_String sample_Marshal
    {| RequestUUID := example_uuid; ActionId := 1;
       Parameters := Some example_parameters |}
  = (line "DYLLABLE-ACTION-REQUEST" +:+ line ("REQUEST-UUID: " +:+ example_uuid_text)
       +:+ line "ACTION-ID: 1" +:+ headerSeparator
       +:+ line example_json +:+ headerSeparator, None)
  /\ ResponseActionPacket_String sample_Marshal
       {| ResponseRequestUUID := example_uuid; Approved := true; Content := None |}
     = (line "DYLLABLE-ACTION-RESPONSE" +:+ line ("REQUEST-UUID: " +:+ example_uuid_text)
          +:+ line "APPROVED: True" +:+ headerSeparator, None).
Proof.
  destruct (action_packet_framing sample_Marshal
              {| RequestUUID := example_uuid; ActionId := 1;
                 Parameters := Some example_parameters |}
              {| ResponseRequestUUID := example_uuid; Approved := true; Content := None |}
              example_json "null" example_uuid eq_refl eq_refl eq_refl)
    as (Hrequest & Hresponse & _).
  split; [exact Hrequest | exact Hresponse].
Defined.

(** The response of the test-suite to a discovery, and a request with an
    empty body. *)
Lemma packet_round_trip_witness :
  (exists data rest,
      Packet_Bytes sample_Marshal
        (PDiscovery (NewResponseDiscoveryPacket (net_IPv4 x7f x00 x00 x01) 8400))
      = (data, None)
      /\ ParsePacket sample_Unmarshal data
         = Some ((Some (PDiscovery (NewResponseDiscoveryPacket
                                      (net_IPv4 x7f x00 x00 x01) 8400)),
                  None), rest))
  /\ (exists data rest,
         Packet_Bytes sample_Marshal
           (PRequestAction {| RequestUUID := example_uuid; ActionId := 1;
                              Parameters := Some ∅ |})
         = (data, None)
         /\ ParsePacket sample_Unmarshal data
            = Some ((Some (PRequestAction {| RequestUUID := example_uuid;
                                             ActionId := 1;
                                             Parameters := Some ∅ |}),
                     None), rest)).
Proof.
  split.
  - apply (packet_round_trip sample_Marshal sample_Unmarshal).
    cbn [reparsable Address Port Type_ NewResponseDiscoveryPacket].
    split; [exists x7f, x00, x00, x01; reflexivity|].
    split; [lia | right; reflexivity].
  - apply (packet_round_trip sample_Marshal sample_Unmarshal).
    cbn [reparsable RequestUUID ActionId Parameters].
    split; [reflexivity|]. split; [lia|].
    exists "{}". split; [reflexivity|].
    intros _. split; reflexivity.
Defined.

(** An IPv4 address held in its 4-byte form is written as the same text,
    and comes back in the 16-byte form: the [Address] fields are equal as
    addresses ([IP.Equal]), not as byte slices. *)
Lemma discovery_packet_address_widened :
  exists data,
    DiscoveryPacket_Bytes (NewRequestDiscoveryPacket [x7f; x00; x00; x01] 8400)
    = (data, None)
    /\ forall json_Unmarshal,
         ParsePacket json_Unmarshal data
         = Some ((Some (PDiscovery (NewRequestDiscoveryPacket
                                      (net_IPv4 x7f x00 x00 x01) 8400)),
                  None), []).
Proof.
  eexists. split; [reflexivity|].
  intros json_Unmarshal. vm_compute. reflexivity.
Qed.

(** C1 as stated fails on a discovery packet for the IPv6 address [::1],
    whose [HOST] value is written without brackets and rejected on the way
    back, and on every response packet, for which [ParsePacket] returns no
    packet. *)
Lemma packet_round_trip_counterexample :
  (DiscoveryPacket_Bytes (NewRequestDiscoveryPacket (repeat x00 15 ++ [x01]) 8400)
   = (bytes_of_string (line "DYLLABLE-DISCOVERY" +:+ line "TYPE: DISCOVERY"
                         +:+ line "HOST: ::1:8400" +:+ headerSeparator), None)
   /\ forall json_Unmarshal,
        ParsePacket json_Unmarshal
          (bytes_of_string (line "DYLLABLE-DISCOVERY" +:+ line "TYPE: DISCOVERY"
                              +:+ line "HOST: ::1:8400" +:+ headerSeparator))
        = Some ((None, Some (errors_New "malformed packet: invalid ip/port pair")), []))
  /\ (ResponseActionPacket_Bytes sample_Marshal
        (NewResponseActionPacket example_uuid true None)
      = (bytes_of_string (line "DYLLABLE-ACTION-RESPONSE"
                            +:+ line ("REQUEST-UUID: " +:+ example_uuid_text)
                            +:+ line "APPROVED: True" +:+ headerSeparator), None)
      /\ forall json_Unmarshal,
           ParsePacket json_Unmarshal
             (bytes_of_string (line "DYLLABLE-ACTION-RESPONSE"
                                 +:+ line ("REQUEST-UUID: " +:+ example_uuid_text)
                                 +:+ line "APPROVED: True" +:+ headerSeparator))
           = Some ((None, None),
                   bytes_of_string (line ("REQUEST-UUID: " +:+ example_uuid_text)
                                      +:+ line "APPROVED: True" +:+ headerSeparator))).
Proof.
  split; split.
  - vm_compute. reflexivity.
  - intros json_Unmarshal. vm_compute. reflexivity.
  - vm_compute. reflexivity.
  - intros json_Unmarshal. vm_compute. reflexivity.
Qed.

(** ** The further properties at concrete inputs *)

(** A delimiter of one byte: the lexer panics. *)
Lemma readUntil_short_delimiter_witness :
  readUntil [x0a] (bytes_of_string "A") = None.
Proof.
  exact (readUntil_short_delimiter [x0a] (bytes_of_string "A") ltac:(cbn; lia)).
Defined.

(** A delimiter of four bytes, which occurs in the buffer. *)
Lemma readUntil_long_delimiter_witness :
  readUntil (CRLF ++ CRLF) (bytes_of_string "A" ++ CRLF ++ CRLF ++ bytes_of_string "B")
  = Some ((bytes_of_string "A" ++ CRLF ++ CRLF ++ bytes_of_string "B", Some io_EOF), []).
Proof.
  exact (readUntil_long_delimiter (CRLF ++ CRLF)
           (bytes_of_string "A" ++ CRLF ++ CRLF ++ bytes_of_string "B") eq_refl).
Defined.

(** A block in which [TYPE] comes twice. *)
Lemma readHeaders_block_witness :
  let pairs :=
    [("TYPE", "DISCOVERY"); ("HOST", "127.0.0.1:8400"); ("TYPE", "RUNNING-APP")] in
  readHeaders (header_lines pairs ++ CRLF ++ bytes_of_string "{}")
  = Some ((<["TYPE" := "RUNNING-APP"]>
             (<["HOST" := "127.0.0.1:8400"]> (<["TYPE" := "DISCOVERY"]> ∅)), None),
          bytes_of_string "{}")
  /\ forall key, headers_of pairs !! key = last_value key pairs.
Proof.
  exact (readHeaders_block
           [("TYPE", "DISCOVERY"); ("HOST", "127.0.0.1:8400"); ("TYPE", "RUNNING-APP")]
           (bytes_of_string "{}") eq_refl).
Defined.

(** A second line without a separator. *)
Lemma readHeaders_invalid_line_witness :
  readHeaders
    (header_lines [("TYPE", "DISCOVERY")] ++ bytes_of_string "HOST 127.0.0.1:8400"
       ++ CRLF ++ CRLF)
  = Some ((<["TYPE" := "DISCOVERY"]> ∅, Some (errors_New "invalid header line")), CRLF).
Proof.
  apply (readHeaders_invalid_line [("TYPE", "DISCOVERY")] "HOST 127.0.0.1:8400" CRLF);
    [reflexivity | reflexivity | discriminate | apply has_sep_none; reflexivity].
Defined.

(** A block cut in its second line. *)
Lemma readHeaders_truncated_witness :
  readHeaders
    (header_lines [("TYPE", "DISCOVERY")] ++ bytes_of_string "HOST: 127.0.0.1:8400")
  = Some ((<["TYPE" := "DISCOVERY"]> ∅, Some io_EOF), []).
Proof.
  apply (readHeaders_truncated [("TYPE", "DISCOVERY")]
           (bytes_of_string "HOST: 127.0.0.1:8400")); reflexivity.
Defined.

(** The packet read from the answer of the test-suite. *)
Lemma ParsePacket_packet_parsed_witness :
  let p := NewResponseDiscoveryPacket (net_IPv4 x7f x00 x00 x01) 8400 in
  @None error = None
  /\ length (Address p) = 16%nat
  /\ 0 <= Port p < 65536
  /\ (Type_ p = "DISCOVERY" \/ Type_ p = "RUNNING-APP").
Proof.
  exact (ParsePacket_packet_parsed sample_Unmarshal
           (bytes_of_string
              (line "DYLLABLE-DISCOVERY" +:+ line "TYPE: RUNNING-APP"
                 +:+ line "HOST: 127.0.0.1:8400" +:+ headerSeparator))
           (PDiscovery (NewResponseDiscoveryPacket (net_IPv4 x7f x00 x00 x01) 8400))
           None [] ltac:(vm_compute; reflexivity)).
Defined.

(** The headers of a discovery packet in the other order, with one more
    header between them. *)
Lemma ParsePacket_headers_by_name_witness :
  let pairs := [("TYPE", "DISCOVERY"); ("HOST", "127.0.0.1:8400")] in
  let pairs' := [("HOST", "127.0.0.1:8400"); ("SERVER", "dyllable"); ("TYPE", "DISCOVERY")] in
  ParsePacket sample_Unmarshal
    (bytes_of_string discoveryIdentifier ++ CRLF ++ header_lines pairs ++ CRLF ++ [])
  = ParsePacket sample_Unmarshal
      (bytes_of_string discoveryIdentifier ++ CRLF ++ header_lines pairs' ++ CRLF ++ [])
  /\ ParsePacket sample_Unmarshal
       (bytes_of_string requestActionIdentifier ++ CRLF ++ header_lines pairs ++ CRLF ++ [])
     = ParsePacket sample_Unmarshal
         (bytes_of_string requestActionIdentifier ++ CRLF ++ header_lines pairs' ++ CRLF
            ++ []).
Proof.
  apply (ParsePacket_headers_by_name sample_Unmarshal
           [("TYPE", "DISCOVERY"); ("HOST", "127.0.0.1:8400")]
           [("HOST", "127.0.0.1:8400"); ("SERVER", "dyllable"); ("TYPE", "DISCOVERY")] []);
    [reflexivity | reflexivity |].
  intros key [<- | [<- | [<- | [<- | []]]]]; reflexivity.
Defined.

(** A request for an address held in 4 bytes, followed by the start of
    another packet. *)
Lemma discovery_packets_stream_witness :
  exists data,
    DiscoveryPacket_Bytes (NewRequestDiscoveryPacket [xc0; xa8; x00; x0a] 8400)
    = (data, None)
    /\ ParsePacket sample_Unmarshal (data ++ bytes_of_string "DYLLABLE-")
       = Some ((Some (PDiscovery (NewRequestDiscoveryPacket
                                    (net_IPv4 xc0 xa8 x00 x0a) 8400)), None),
               bytes_of_string "DYLLABLE-").
Proof.
  apply (discovery_packets_stream sample_Unmarshal
           (NewRequestDiscoveryPacket [xc0; xa8; x00; x0a] 8400) xc0 xa8 x00 x0a
           (bytes_of_string "DYLLABLE-"));
    [reflexivity | cbn; lia | left; reflexivity].
Defined.

(** The loopback address [::1]. *)
Lemma discovery_ipv6_rejected_witness :
  exists data,
    DiscoveryPacket_Bytes (NewRequestDiscoveryPacket (repeat x00 15 ++ [x01]) 8400)
    = (data, None)
    /\ ParsePacket sample_Unmarshal data
       = Some ((None, Some (errors_New "malformed packet: invalid ip/port pair")), []).
Proof.
  apply (discovery_ipv6_rejected sample_Unmarshal
           (NewRequestDiscoveryPacket (repeat x00 15 ++ [x01]) 8400));
    [reflexivity | reflexivity | left; reflexivity].
Defined.

(** A request with an empty body, followed by a discovery identifier. *)
Lemma request_with_body_leaves_blank_line_witness :
  let packet := NewRequestActionPacket example_uuid 1 (Some ∅) in
  exists data,
    RequestActionPacket_Bytes sample_Marshal packet = (data, None)
    /\ (let* first := ParsePacket sample_Unmarshal in
        let* second := ParsePacket sample_Unmarshal in
        ret [first; second]) (data ++ bytes_of_string "DYLLABLE-DISCOVERY")
       = Some ([(Some (PRequestAction packet), None);
                (None, Some (errors_New "malformed packet: identifier not knwon"))],
               bytes_of_string "DYLLABLE-DISCOVERY").
Proof.
  apply (request_with_body_leaves_blank_line sample_Marshal sample_Unmarshal
           (NewRequestActionPacket example_uuid 1 (Some ∅)) "{}"
           (bytes_of_string "DYLLABLE-DISCOVERY"));
    [reflexivity | cbn; lia | discriminate | reflexivity | reflexivity | reflexivity].
Defined.

(** A request without a body, followed by the line of an empty object. *)
Lemma request_without_body_takes_next_line_witness :
  let packet := NewRequestActionPacket example_uuid 1 None in
  exists data,
    RequestActionPacket_Bytes sample_Marshal packet = (data, None)
    /\ ParsePacket sample_Unmarshal (data ++ bytes_of_string "{}" ++ CRLF ++ [])
       = Some ((Some (PRequestAction (NewRequestActionPacket example_uuid 1 (Some ∅))),
                None), []).
Proof.
  apply (request_without_body_takes_next_line sample_Marshal sample_Unmarshal
           (NewRequestActionPacket example_uuid 1 None) "null"
           (bytes_of_string "{}") []);
    [reflexivity | cbn; lia | reflexivity | reflexivity | reflexivity].
Defined.


(** A node at 192.168.0.10 and a service at 192.168.0.20, both on port
    8400. *)
Lemma discovery_request_round_witness :
  let client := {| TCPAddr_IP := [xc0; xa8; x00; x0a]; TCPAddr_Port := 8400 |} in
  let server := {| TCPAddr_IP := net_IPv4 xc0 xa8 x00 x14; TCPAddr_Port := 8400 |} in
  LookForNodes_send client None
  = (None, Some (net_OpError "write" net_ErrWriteToConnected))
  /\ DiscoveryService_receive sample_Unmarshal server
       (fst (DiscoveryPacket_Bytes
               (NewRequestDiscoveryPacket [xc0; xa8; x00; x0a] 8400))) None
     = Some [conn_SetWriteDeadline;
             conn_WriteTo (discovery_reply server);
             go_resolveDiscoveryPacketTCPAddress
               (NewRequestDiscoveryPacket (net_IPv4 xc0 xa8 x00 x0a) 8400)]
  /\ resolveDiscoveryPacketTCPAddress sample_ResolveTCPAddr
       (NewRequestDiscoveryPacket (net_IPv4 xc0 xa8 x00 x0a) 8400)
     = match sample_ResolveTCPAddr "tcp4" "192.168.0.10:8400" with
       | inl theirAppSocket => Some theirAppSocket
       | inr _ => None
       end.
Proof.
  exact (discovery_request_round sample_Unmarshal sample_ResolveTCPAddr
           {| TCPAddr_IP := [xc0; xa8; x00; x0a]; TCPAddr_Port := 8400 |}
           {| TCPAddr_IP := net_IPv4 xc0 xa8 x00 x14; TCPAddr_Port := 8400 |}
           xc0 xa8 x00 x0a None eq_refl).
Defined.


(** A [nil] address. *)
Lemma discovery_bad_address_rejected_witness :
  DiscoveryPacket_Bytes (NewResponseDiscoveryPacket [] 8400)
  = (bytes_of_string (line "DYLLABLE-DISCOVERY" +:+ line "TYPE: RUNNING-APP"
                        +:+ line "HOST: <nil>:8400" +:+ headerSeparator), None)
  /\ exists data,
       DiscoveryPacket_Bytes (NewResponseDiscoveryPacket [] 8400) = (data, None)
       /\ ParsePacket sample_Unmarshal data
          = Some ((None,
                   Some (errors_New "malformed packet: hostname is not supported")), []).
Proof.
  split; [reflexivity|].
  apply (discovery_bad_address_rejected sample_Unmarshal
           (NewResponseDiscoveryPacket [] 8400));
    [discriminate | discriminate | right; reflexivity].
Defined.
